(** * multi-repo-dashboard: the storage layer and the GitHub fetch layer

    A shallow embedding of [scripts/storage.js] (the Web Storage wrapper, the
    TTL cache, dashboard settings and the tracked-repository list) and of the
    fetch layer (authenticated requests, pagination, the organisation and
    repository synchronisers, the multi-source aggregator), followed by the
    properties of the design document that concern them, and by further
    properties of the same code and of the parts of the authentication and
    selection pages that touch the storage.

    Conventions of the embedding.
    - A JavaScript value that can live in JSON is a [value]; [js] adds
      [undefined] as [None].  Objects are finite maps from property names to
      values: a property holding [undefined] is the same as an absent
      property (both read as [undefined], and [JSON.stringify] drops it).
    - A string kept in Web Storage is a [text]: either [Ser v], the JSON text
      of [v] (what [JSON.stringify v] returns and what [JSON.parse] maps
      back to [v]), or [Raw s], a string that is not JSON text (a token, a
      corrupted entry), on which [JSON.parse] throws.
    - Effects are explicit: a computation is a function from the [world]
      (both storage areas, the clock, the requests sent so far, the page
      location) to an outcome and a new world.
    - What the browser decides is a parameter, the [env]: the replies of the
      network and the time each takes, whether a storage area accepts new
      contents, the depth of the call stack, the coercions of the runtime
      on values that are not already numbers or strings, and the names the
      built-in prototypes define.
    - A property read looks at the own properties and then at the
      prototype; the members of [Object.prototype] are functions and an
      accessor, which are no [value]: a read that finds one is a [member]
      that is [Native].
    - An [await] gives way to nothing else where the program runs one call
      at a time.  Where it starts several fetches before awaiting any
      ([fetchAllUserRepositories]), each fetch is a [task]; the tasks go on
      in the order in which their answers arrive. *)

From stdpp Require Import gmap strings list fin_maps pretty.
From Stdlib Require Import ZArith Lia Ascii.

Set Warnings "-register-all,-clear-no-such-hyp".

Open Scope Z_scope.

(** ** Values *)

Inductive value :=
| VNull
| VBool (b : bool)
| VNum (n : Z)
| VStr (s : string)
| VArr (l : list value)
| VObj (o : gmap string value).

(** [None] is [undefined]. *)
Definition js := option value.

Definition undefined : js := None.

(** ToBoolean. *)
Definition truthy (x : js) : bool :=
  match x with
  | None => false
  | Some VNull => false
  | Some (VBool b) => b
  | Some (VNum n) => negb (n =? 0)
  | Some (VStr s) => negb (String.eqb s "")
  | Some (VArr _) => true
  | Some (VObj _) => true
  end.

(** [a === b].  Arrays and objects are compared by reference; the two sides
    of every comparison in the program come from different allocations (one
    of them out of [JSON.parse]), so they are never the same reference. *)
Definition strict_eq (a b : js) : bool :=
  match a, b with
  | None, None => true
  | Some VNull, Some VNull => true
  | Some (VBool x), Some (VBool y) => Bool.eqb x y
  | Some (VNum x), Some (VNum y) => x =? y
  | Some (VStr x), Some (VStr y) => String.eqb x y
  | _, _ => false
  end.

(** Key equality of a [Map] (SameValueZero); numbers here are integers, so it
    coincides with [===]. *)
Definition same_value_zero (a b : js) : bool := strict_eq a b.

Definition is_nullish (x : js) : bool :=
  match x with
  | None | Some VNull => true
  | _ => false
  end.

(** The characters of a string, each as a one-character string. *)
Fixpoint chars (s : string) : list value :=
  match s with
  | EmptyString => []
  | String c r => VStr (String c EmptyString) :: chars r
  end.

(** Index-keyed properties of an array or a string. *)
Definition indexed (l : list value) : gmap string value :=
  list_to_map (imap (λ (i : nat) (x : value), (pretty i, x)) l).

(** The own enumerable properties of a value: what [{...v}] copies and what
    [for (key in v)] enumerates. *)
Definition own_props (x : js) : gmap string value :=
  match x with
  | Some (VObj o) => o
  | Some (VArr l) => indexed l
  | Some (VStr s) => indexed (chars s)
  | _ => ∅
  end.

(** [{...a, ...b}]: the properties of [b] shadow those of [a]. *)
Definition spread (a b : js) : gmap string value := own_props b ∪ own_props a.

(** What [...v] in an argument list or [v.length] with iteration sees:
    arrays and strings are iterable, nothing else is. *)
Definition iter_items (v : value) : option (list value) :=
  match v with
  | VArr l => Some l
  | VStr s => Some (chars s)
  | _ => None
  end.

(** [v.length]: the number of elements of an array, of characters of a
    string, the own property of that name of an object, [undefined] on a
    number or a boolean; [None] is the [TypeError] of reading it on
    [null]. *)
Definition length_of (v : value) : option js :=
  match v with
  | VNull => None
  | VArr l => Some (Some (VNum (Z.of_nat (length l))))
  | VStr s => Some (Some (VNum (Z.of_nat (String.length s))))
  | VObj o => Some (o !! "length")
  | VNum _ | VBool _ => Some None
  end.

(** The names [Object.prototype] defines in a browser; [__proto__] is the
    only one of them that has a setter. *)
Definition Object_prototype : list string :=
  [ "constructor"; "__defineGetter__"; "__defineSetter__"; "hasOwnProperty";
    "__lookupGetter__"; "__lookupSetter__"; "isPrototypeOf";
    "propertyIsEnumerable"; "toString"; "valueOf"; "__proto__";
    "toLocaleString" ]%string.

(** What [v[k]] can be for a name [k] that the program does not fix: a
    value of JSON or [undefined], or an object of the runtime found on the
    prototype chain, a method or a prototype.  Such an object is truthy and
    has no property named [expires] or [data]. *)
Inductive member :=
| Plain (x : js)
| Native.

Definition member_truthy (m : member) : bool :=
  match m with
  | Plain x => truthy x
  | Native => true
  end.

(** [m.k] for [k] one of [expires] and [data]; [None] is the [TypeError]
    on [null] and [undefined]. *)
Definition member_prop (m : member) (k : string) : option js :=
  match m with
  | Plain x => if is_nullish x then None else Some (own_props x !! k)
  | Native => Some undefined
  end.

(** [o[k]] for an object [o] out of [JSON.parse] or an object literal: the
    own property, else what [Object.prototype] has under the name. *)
Definition obj_member (o : gmap string value) (k : string) : member :=
  match o !! k with
  | Some x => Plain (Some x)
  | None => if bool_decide (k ∈ Object_prototype) then Native else Plain undefined
  end.

(** The number a string of decimal digits writes. *)
Fixpoint digits_value (s : string) (acc : N) : option N :=
  match s with
  | EmptyString => Some acc
  | String a r =>
      let n := Ascii.N_of_ascii a in
      if ((48 <=? n) && (n <=? 57))%N
      then digits_value r (10 * acc + (n - 48))%N
      else None
  end.

(** The array index a property name is, if it is one: the canonical
    decimal text of an integer below [2^32 - 1]. *)
Definition as_index (k : string) : option nat :=
  match k with
  | EmptyString => None
  | _ =>
      n ← digits_value k 0%N;
      if String.eqb (pretty n) k && (n <? 4294967295)%N
      then Some (N.to_nat n) else None
  end.

(** [l[i] = x] on an array as [JSON.stringify] writes it afterwards: the
    holes that an index past the end leaves are written as [null]. *)
Definition set_index (l : list value) (i : nat) (x : value) : list value :=
  if (i <? length l)%nat then <[i := x]> l
  else l ++ replicate (i - length l) VNull ++ [x].

(** An object literal whose property values may be [undefined]. *)
Definition obj_of (fields : list (string * js)) : gmap string value :=
  list_to_map (omap (λ kv : string * js, (λ v, (kv.1, v)) <$> kv.2) fields).

(** ** Strings in Web Storage *)

Inductive text :=
| Raw (s : string)
| Ser (v : value).

Definition JSON_stringify (v : value) : text := Ser v.

(** [None] stands for the [SyntaxError] of [JSON.parse]. *)
Definition JSON_parse (t : text) : option value :=
  match t with
  | Ser v => Some v
  | Raw _ => None
  end.

(** Truthiness of what [getItem] returns: [null] and the empty string are
    falsy, JSON text is never empty. *)
Definition text_truthy (t : option text) : bool :=
  match t with
  | None => false
  | Some (Raw s) => negb (String.eqb s "")
  | Some (Ser _) => true
  end.

(** [a || b] on what [getItem] returns. *)
Definition text_or (a b : option text) : option text :=
  if text_truthy a then a else b.

(** ** Exceptions, outcomes, the world *)

(** What is thrown: [Error msg] is [new Error(msg)]; [TypeError] the reading
    of a property of [null] or [undefined], a call of a method the receiver
    lacks, the spreading of a value that is not iterable; [SyntaxError]
    what [JSON.parse] and [response.json()] throw on text that is not JSON;
    [RangeError] the overflow of the call stack, and the assignment of a
    length that is not a number to an array; [QuotaExceededError] what
    [setItem] throws when the area is full; [NetworkError] the rejection of
    [fetch] when no response comes. *)
Inductive exn :=
| Error (msg : string)
| TypeError
| SyntaxError
| RangeError
| QuotaExceededError
| NetworkError.

(** [Diverge]: the computation does not come back (a loop that never ends);
    no handler sees it. *)
Inductive outcome (A : Type) :=
| Ret (a : A)
| Throw (e : exn)
| Diverge.

Arguments Ret {A} a.
Arguments Throw {A} e.
Arguments Diverge {A}.

(** [localStorage] and [sessionStorage]. *)
Inductive area := Local | Session.

#[global] Instance area_eq_dec : EqDecision area.
Proof. solve_decision. Defined.

(** An endpoint with the parameters of its query string, in order. *)
Record target := { path : string; query : list (string * string) }.

(** A request as [githubAPI] sends it: the URL without its query, the query
    and the token of the [Authorization] header. *)
Record request := {
  req_url : string;
  req_query : list (string * string);
  req_token : text;
}.

(** What comes back: nothing, or a response with its status, its
    [X-RateLimit-Remaining] header if any, and its body if it is JSON. *)
Inductive answer :=
| NoResponse
| Response (status : Z) (rate_remaining : option string) (body : option value).

(** An answer and the milliseconds from the request to the moment the
    caller of [githubAPI] goes on with it: the rejection of [fetch], the
    status of a response that is not one of success, the body of one that
    is. *)
Record reply := { answered : answer; elapsed : N }.

(** The state the program runs in: the two storage areas, the time
    [Date.now()] returns, the requests sent so far (oldest first), and
    [window.location.href]. *)
Record world := {
  localStorage : gmap string text;
  sessionStorage : gmap string text;
  clock : Z;
  sent : list request;
  href : string;
}.

(** The browser and the network: [net history r] is the reply to [r] sent
    after the requests [history]; [fits a m] tells whether the area [a] may
    come to hold [m]; [stack] is the number of nested calls of
    [handleQuotaExceeded] the call stack has room for; [to_number],
    [parse_int] and [to_string] are ToNumber on values that are not
    numbers, [parseInt] on strings that are not the text of a number, and
    ToString on values that are not strings; [inherits v k] tells whether
    the prototype of [v], an array, a string, a number or a boolean,
    defines the name [k] on top of what [Object.prototype] defines (which
    methods there are depends on the version of the runtime). *)
Record env := {
  net : list request → request → reply;
  fits : area → gmap string text → bool;
  stack : nat;
  to_number : value → option Z;
  parse_int : text → option Z;
  to_string : js → string;
  inherits : value → string → bool;
}.

(** Computations: from a world to an outcome and the world it leaves. *)
Definition M (A : Type) : Type := world → outcome A * world.

Definition ret {A} (a : A) : M A := λ w, (Ret a, w).

Definition throw {A} (e : exn) : M A := λ w, (Throw e, w).

Definition diverge {A} : M A := λ w, (Diverge, w).

Definition bind {A B} (m : M A) (k : A → M B) : M B :=
  λ w, match m w with
       | (Ret a, w') => k a w'
       | (Throw e, w') => (Throw e, w')
       | (Diverge, w') => (Diverge, w')
       end.

(** [try { m } catch (e) { h e }]. *)
Definition try_catch {A} (m : M A) (h : exn → M A) : M A :=
  λ w, match m w with
       | (Throw e, w') => h e w'
       | r => r
       end.

Declare Scope M_scope.
Notation "x <- m ;; k" := (bind m (λ x, k))
  (at level 100, m at next level, right associativity) : M_scope.
Notation "m ;;; k" := (bind m (λ _, k))
  (at level 100, right associativity) : M_scope.
Delimit Scope M_scope with M.
Open Scope M_scope.

(** A pure computation that may end in a [TypeError]. *)
Definition or_TypeError {A} (o : option A) : M A :=
  match o with
  | Some a => ret a
  | None => throw TypeError
  end.

(** [v.k] and [v[k]]: a [TypeError] on [null] and [undefined], otherwise the
    own property of that name, or [undefined].  Built-in properties
    ([length], methods) are not properties in this sense; the program reads
    [length] and calls methods only through the definitions below. *)
Definition prop (x : js) (k : string) : option js :=
  if is_nullish x then None else Some (own_props x !! k).

(** ** Web Storage and the clock *)

Definition items (a : area) (w : world) : gmap string text :=
  match a with
  | Local => localStorage w
  | Session => sessionStorage w
  end.

Definition with_items (a : area) (m : gmap string text) (w : world) : world :=
  match a with
  | Local => {| localStorage := m; sessionStorage := sessionStorage w;
                clock := clock w; sent := sent w; href := href w |}
  | Session => {| localStorage := localStorage w; sessionStorage := m;
                  clock := clock w; sent := sent w; href := href w |}
  end.

Definition with_clock (t : Z) (w : world) : world :=
  {| localStorage := localStorage w; sessionStorage := sessionStorage w;
     clock := t; sent := sent w; href := href w |}.

Definition getItem (a : area) (k : string) : M (option text) :=
  λ w, (Ret (items a w !! k), w).

Definition removeItem (a : area) (k : string) : M unit :=
  λ w, (Ret tt, with_items a (delete k (items a w)) w).

Definition Date_now : M Z := λ w, (Ret (clock w), w).

Definition set_href (s : string) : M unit :=
  λ w, (Ret tt, {| localStorage := localStorage w;
                   sessionStorage := sessionStorage w;
                   clock := clock w; sent := sent w; href := s |}).

Section Program.

Variable E : env.

(** [storage.setItem(k, v)]: the browser accepts the new contents of the
    area or throws a [QuotaExceededError] and leaves the area as it was. *)
Definition setItem (a : area) (k : string) (v : text) : M unit :=
  λ w, if fits E a (<[k:=v]> (items a w))
       then (Ret tt, with_items a (<[k:=v]> (items a w)) w)
       else (Throw QuotaExceededError, w).

(** ToNumber. *)
Definition number_of (x : js) : option Z :=
  match x with
  | Some (VNum n) => Some n
  | Some v => to_number E v
  | None => None
  end.

(** [now > x] and [x > now]; a comparison with [NaN] is false. *)
Definition now_gt (now : Z) (x : js) : bool :=
  match number_of x with
  | Some n => n <? now
  | None => false
  end.

Definition gt_now (x : js) (now : Z) : bool :=
  match number_of x with
  | Some n => now <? n
  | None => false
  end.

(** [parseInt(t)]: the decimal text of a number reads back as that
    number. *)
Definition parseInt (t : text) : option Z :=
  match t with
  | Ser (VNum n) => Some n
  | _ => parse_int E t
  end.

(** *** storage.js *)

Definition STORAGE_KEYS_PAT : string := "github_pat".
Definition STORAGE_KEYS_USER_INFO : string := "user_info".
Definition STORAGE_KEYS_ORGANIZATIONS : string := "organizations".
Definition STORAGE_KEYS_ORGANIZATIONS_TIMESTAMP : string := "organizations_timestamp".
Definition STORAGE_KEYS_TRACKED_REPOS : string := "tracked_repos".
Definition STORAGE_KEYS_DASHBOARD_SETTINGS : string := "dashboard_settings".
Definition STORAGE_KEYS_CACHE : string := "api_cache".
Definition STORAGE_KEYS_LAST_REFRESH : string := "last_refresh".

Definition DEFAULT_DASHBOARD_SETTINGS : gmap string value :=
  list_to_map
    [ ("view_mode", VStr "grid");
      ("theme", VStr "auto");
      ("auto_refresh", VBool false);
      ("refresh_interval", VNum 300);
      ("density", VStr "comfortable");
      ("show_org_badge", VBool true);
      ("default_sort", VStr "updated");
      ("default_sort_order", VStr "desc") ].

Definition getActiveStorage : M area :=
  pat <- getItem Local STORAGE_KEYS_PAT ;;
  ret (if text_truthy pat then Local else Session).

Definition getCache : M value :=
  storage <- getActiveStorage ;;
  cacheStr <- getItem storage STORAGE_KEYS_CACHE ;;
  match cacheStr with
  | Some t =>
      if text_truthy cacheStr
      then match JSON_parse t with
           | Some v => ret v
           | None => ret (VObj ∅)
           end
      else ret (VObj ∅)
  | None => ret (VObj ∅)
  end.

(** The test of the loop of [clearStaleCache]:
    [!entry.expires || entry.expires > now].  An entry that passes it is
    copied with [cleaned[key] = entry]; under the key [__proto__] that
    assignment goes to the setter of [Object.prototype] and leaves
    [cleaned] without an own property of that name. *)
Definition keeps (now : Z) (entry : value) : bool :=
  match prop (Some entry) "expires" with
  | Some expires => negb (truthy expires) || gt_now expires now
  | None => false
  end.

Definition clearStaleCache_with (setCache : value → M unit) : M unit :=
  cache <- getCache ;;
  now <- Date_now ;;
  let entries := own_props (Some cache) in
  if existsb (λ kv : string * value, is_nullish (Some kv.2)) (map_to_list entries)
  then throw TypeError
  else setCache (VObj (delete "__proto__"
                         (filter (λ kv, keeps now kv.2 = true) entries))).

Definition handleQuotaExceeded_with (setCache : value → M unit) : M unit :=
  clearStaleCache_with setCache ;;;
  storage <- getActiveStorage ;;
  removeItem storage STORAGE_KEYS_CACHE ;;;
  throw (Error "STORAGE_QUOTA_EXCEEDED").

(** [safeSetItem] calls [handleQuotaExceeded], which calls
    [clearStaleCache], which calls [setCache], which calls [safeSetItem]
    again: [d] is the number of such re-entries the call stack still has
    room for, and running out of it is the [RangeError] of a stack
    overflow. *)
Fixpoint safeSetItem_at (d : nat) (key : string) (v : text) (useSession : bool)
  : M unit :=
  storage <- (if useSession then ret Session else getActiveStorage) ;;
  try_catch (setItem storage key v)
    (λ e, match e with
          | QuotaExceededError =>
              match d with
              | O => throw RangeError
              | S d' =>
                  handleQuotaExceeded_with
                    (λ cache, safeSetItem_at d' STORAGE_KEYS_CACHE
                                (JSON_stringify cache) false) ;;;
                  setItem storage key v
              end
          | _ => throw e
          end).

Definition safeSetItem (key : string) (v : text) (useSession : bool) : M unit :=
  safeSetItem_at (stack E) key v useSession.

Definition setCache (cache : value) : M unit :=
  safeSetItem STORAGE_KEYS_CACHE (JSON_stringify cache) false.

Definition clearStaleCache : M unit := clearStaleCache_with setCache.

Definition handleQuotaExceeded : M unit := handleQuotaExceeded_with setCache.

Definition clearAllCache : M unit :=
  storage <- getActiveStorage ;;
  removeItem storage STORAGE_KEYS_CACHE.

(** **** Dashboard settings *)

Definition getDashboardSettings : M (gmap string value) :=
  storage <- getActiveStorage ;;
  settingsStr <- getItem storage STORAGE_KEYS_DASHBOARD_SETTINGS ;;
  match settingsStr with
  | Some t =>
      if text_truthy settingsStr
      then match JSON_parse t with
           | Some settings =>
               ret (spread (Some (VObj DEFAULT_DASHBOARD_SETTINGS)) (Some settings))
           | None => ret DEFAULT_DASHBOARD_SETTINGS
           end
      else ret DEFAULT_DASHBOARD_SETTINGS
  | None => ret DEFAULT_DASHBOARD_SETTINGS
  end.

Definition setDashboardSettings (settings : js) : M unit :=
  currentSettings <- getDashboardSettings ;;
  let newSettings := spread (Some (VObj currentSettings)) settings in
  safeSetItem STORAGE_KEYS_DASHBOARD_SETTINGS (JSON_stringify (VObj newSettings)) false.

Definition resetDashboardSettings : M unit :=
  storage <- getActiveStorage ;;
  removeItem storage STORAGE_KEYS_DASHBOARD_SETTINGS.

(** **** Tracked repositories *)

Definition getTrackedRepos : M value :=
  storage <- getActiveStorage ;;
  reposStr <- getItem storage STORAGE_KEYS_TRACKED_REPOS ;;
  match reposStr with
  | Some t =>
      if text_truthy reposStr
      then match JSON_parse t with
           | Some repos => ret repos
           | None => ret (VArr [])
           end
      else ret (VArr [])
  | None => ret (VArr [])
  end.

Definition setTrackedRepos (repos : value) : M unit :=
  safeSetItem STORAGE_KEYS_TRACKED_REPOS (JSON_stringify repos) false.

(** The receiver of [some], [filter], [findIndex], [map]: only arrays have
    these methods, calling them on anything else is a [TypeError]. *)
Definition as_array (v : value) : option (list value) :=
  match v with
  | VArr l => Some l
  | _ => None
  end.

(** [repos.findIndex(r => r.id === id)]: the index of the first match;
    [Some None] is -1, the outer [None] is the [TypeError] of reading [id]
    on [null]. *)
Fixpoint findIndex_id (repos : list value) (id : js) : option (option nat) :=
  match repos with
  | [] => Some None
  | r :: rest =>
      match prop (Some r) "id" with
      | None => None
      | Some rid =>
          if strict_eq rid id then Some (Some O)
          else match findIndex_id rest id with
               | Some (Some i) => Some (Some (S i))
               | other => other
               end
      end
  end.

(** [repos.some(r => r.id === repo.id)]; [repo.id] is read once per
    element visited. *)
Fixpoint some_id (repos : list value) (repo : js) : option bool :=
  match repos with
  | [] => Some false
  | r :: rest =>
      match prop (Some r) "id", prop repo "id" with
      | Some rid, Some id =>
          if strict_eq rid id then Some true else some_id rest repo
      | _, _ => None
      end
  end.

(** [repos.filter(r => r.id !== repoId)]. *)
Fixpoint filter_id (repos : list value) (repoId : js) : option (list value) :=
  match repos with
  | [] => Some []
  | r :: rest =>
      match prop (Some r) "id", filter_id rest repoId with
      | Some rid, Some kept =>
          Some (if strict_eq rid repoId then kept else r :: kept)
      | _, _ => None
      end
  end.

Definition addTrackedRepo (repo : js) : M bool :=
  repos <- getTrackedRepos ;;
  l <- or_TypeError (as_array repos) ;;
  found <- or_TypeError (some_id l repo) ;;
  if found then ret false
  else
    id <- or_TypeError (prop repo "id") ;;
    full_name <- or_TypeError (prop repo "full_name") ;;
    name <- or_TypeError (prop repo "name") ;;
    owner <- or_TypeError (prop repo "owner") ;;
    owner_type <- or_TypeError (prop repo "owner_type") ;;
    let newRepo :=
      obj_of [ ("id", id); ("full_name", full_name); ("name", name);
               ("owner", owner); ("owner_type", owner_type);
               ("pinned", Some (VBool false)); ("notes", Some (VStr "")) ] in
    setTrackedRepos (VArr (l ++ [VObj newRepo])) ;;;
    ret true.

Definition removeTrackedRepo (repoId : js) : M bool :=
  repos <- getTrackedRepos ;;
  l <- or_TypeError (as_array repos) ;;
  filtered <- or_TypeError (filter_id l repoId) ;;
  if (length filtered =? length l)%nat then ret false
  else
    setTrackedRepos (VArr filtered) ;;;
    ret true.

Definition updateTrackedRepo (repoId : js) (updates : js) : M bool :=
  repos <- getTrackedRepos ;;
  l <- or_TypeError (as_array repos) ;;
  index <- or_TypeError (findIndex_id l repoId) ;;
  match index with
  | None => ret false
  | Some i =>
      setTrackedRepos (VArr (<[i := VObj (spread (l !! i) updates)]> l)) ;;;
      ret true
  end.

(** **** The TTL cache *)

(** [cache[key]] for whatever [getCache] returned: a [TypeError] on
    [null]; an own property first (of an array its elements and its
    [length], of a string its characters and its [length]), then what the
    prototype chain has under the name. *)
Definition member_of (cache : value) (key : string) : option member :=
  match cache with
  | VNull => None
  | VObj o => Some (obj_member o key)
  | VArr _ | VStr _ =>
      match own_props (Some cache) !! key with
      | Some x => Some (Plain (Some x))
      | None =>
          if String.eqb key "length"
          then Some (Plain (default undefined (length_of cache)))
          else if bool_decide (key ∈ Object_prototype) || inherits E cache key
               then Some Native else Some (Plain undefined)
      end
  | VNum _ | VBool _ =>
      if bool_decide (key ∈ Object_prototype) || inherits E cache key
      then Some Native else Some (Plain undefined)
  end.

Definition getCachedValue (key : string) : M js :=
  cache <- getCache ;;
  entry <- or_TypeError (member_of cache key) ;;
  if negb (member_truthy entry) then ret (Some VNull)
  else
    expires <- or_TypeError (member_prop entry "expires") ;;
    now <- Date_now ;;
    if truthy expires && now_gt now expires then ret (Some VNull)
    else or_TypeError (member_prop entry "data").

(** The own properties of an object after [o[key] = entry] for an entry
    that is an object: under the name [__proto__], unless it is an own
    property already (as [JSON.parse] makes it), the assignment goes to the
    setter of [Object.prototype] and changes the prototype, not the own
    properties; every other name becomes or stays an own property. *)
Definition assigned (o : gmap string value) (key : string) (entry : value)
  : gmap string value :=
  if String.eqb key "__proto__" && negb (bool_decide (is_Some (o !! key)))
  then o else <[key := entry]> o.

(** [cache[key] = entry] for an entry that is an object, as
    [JSON.stringify] sees the cache afterwards: a [TypeError] on [null];
    on an array an index sets an element, [length] is a [RangeError] and
    any other name is not written; lost on a number, a string or a boolean
    (the scripts are not in strict mode). *)
Definition assign (cache : value) (key : string) (entry : value) : M value :=
  match cache with
  | VNull => throw TypeError
  | VObj o => ret (VObj (assigned o key entry))
  | VArr l =>
      match as_index key with
      | Some i => ret (VArr (set_index l i entry))
      | None => if String.eqb key "length" then throw RangeError else ret cache
      end
  | other => ret other
  end.

(** [delete cache[key]]: a [TypeError] on [null]; an own property of an
    object; an element of an array, which [JSON.stringify] then writes as
    [null]; nothing else. *)
Definition delete_prop (cache : value) (key : string) : option value :=
  match cache with
  | VNull => None
  | VObj o => Some (VObj (delete key o))
  | VArr l =>
      match as_index key with
      | Some i => Some (if (i <? length l)%nat then VArr (<[i := VNull]> l) else cache)
      | None => Some cache
      end
  | other => Some other
  end.

Definition setCachedValue (key : string) (data : js) (ttlMinutes : Z) : M unit :=
  cache <- getCache ;;
  now <- Date_now ;;
  let expires := now + ttlMinutes * 60 * 1000 in
  timestamp <- Date_now ;;
  let entry :=
    obj_of [ ("data", data); ("expires", Some (VNum expires));
             ("timestamp", Some (VNum timestamp)) ] in
  cache' <- assign cache key (VObj entry) ;;
  setCache cache'.

Definition removeCachedValue (key : string) : M unit :=
  cache <- getCache ;;
  cache' <- or_TypeError (delete_prop cache key) ;;
  setCache cache'.

(** *** The GitHub API utilities *)

Definition GITHUB_API_BASE : string := "https://api.github.com".

Definition getStoredPAT : M (option text) :=
  l <- getItem Local "github_pat" ;;
  s <- getItem Session "github_pat" ;;
  ret (text_or l s).

(** [str ? JSON.parse(str) : null]; the [SyntaxError] is not caught. *)
Definition parse_or_null (str : option text) : M value :=
  match str with
  | Some t =>
      if text_truthy str
      then match JSON_parse t with
           | Some v => ret v
           | None => throw SyntaxError
           end
      else ret VNull
  | None => ret VNull
  end.

Definition getStoredUserInfo : M value :=
  l <- getItem Local "user_info" ;;
  s <- getItem Session "user_info" ;;
  parse_or_null (text_or l s).

Definition storeUserInfo (userInfo : value) : M unit :=
  storage <- getActiveStorage ;;
  setItem storage "user_info" (JSON_stringify userInfo).

Definition clearAuth : M unit :=
  removeItem Local "github_pat" ;;;
  removeItem Session "github_pat" ;;;
  removeItem Local "user_info" ;;;
  removeItem Session "user_info" ;;;
  removeItem Local "organizations" ;;;
  removeItem Session "organizations" ;;;
  removeItem Local "organizations_timestamp" ;;;
  removeItem Session "organizations_timestamp".

(** [await fetch(url, ...)]: the request goes out, time passes, and either
    a response comes back or the promise is rejected. *)
Definition fetch (r : request) : M (Z * option string * option value) :=
  λ w,
    let rep := net E (sent w) r in
    let w' := {| localStorage := localStorage w;
                 sessionStorage := sessionStorage w;
                 clock := clock w + Z.of_N (elapsed rep);
                 sent := sent w ++ [r];
                 href := href w |} in
    match answered rep with
    | NoResponse => (Throw NetworkError, w')
    | Response status remaining body => (Ret (status, remaining, body), w')
    end.

(** [fetch] for the requests that are in flight together.  [send]: the
    request goes out, and the network settles what will come back and
    when; no time passes.  [wait_until]: the page is idle until the time
    [t].  [receive]: the promise of [fetch] is settled with the answer. *)
Definition send (r : request) : M reply :=
  λ w, (Ret (net E (sent w) r),
        {| localStorage := localStorage w;
           sessionStorage := sessionStorage w;
           clock := clock w;
           sent := sent w ++ [r];
           href := href w |}).

Definition wait_until (t : Z) : M unit :=
  λ w, (Ret tt,
        {| localStorage := localStorage w;
           sessionStorage := sessionStorage w;
           clock := t;
           sent := sent w;
           href := href w |}).

Definition receive (a : answer) : M (Z * option string * option value) :=
  match a with
  | NoResponse => throw NetworkError
  | Response status remaining body => ret (status, remaining, body)
  end.

Definition response_ok (status : Z) : bool := (200 <=? status) && (status <=? 299).

(** [githubAPI(endpoint)], called without options everywhere; the endpoint
    is kept apart from its query string.  [githubAPI_request] is the
    function as far as its [fetch], and [githubAPI_response] the function
    from the response on. *)
Definition githubAPI_request (endpoint : target) : M request :=
  pat <- getStoredPAT ;;
  match pat with
  | Some token =>
      if text_truthy pat
      then
        let url := if String.prefix "http" (path endpoint)
                   then path endpoint
                   else GITHUB_API_BASE +:+ path endpoint in
        ret {| req_url := url; req_query := query endpoint;
               req_token := token |}
      else throw (Error "NO_TOKEN")
  | None => throw (Error "NO_TOKEN")
  end.

Definition githubAPI_response (response : Z * option string * option value)
  : M value :=
  let '(status, rateLimitRemaining, body) := response in
  if status =? 401 then
    clearAuth ;;;
    set_href "auth.html" ;;;
    throw (Error "INVALID_TOKEN")
  else if status =? 403 then
    match rateLimitRemaining with
    | Some "0"%string => throw (Error "RATE_LIMIT_EXCEEDED")
    | _ => throw (Error "FORBIDDEN")
    end
  else if negb (response_ok status) then
    throw (Error ("API_ERROR: " +:+ pretty status))
  else
    match body with
    | Some v => ret v
    | None => throw SyntaxError
    end.

Definition githubAPI (endpoint : target) : M value :=
  r <- githubAPI_request endpoint ;;
  response <- fetch r ;;
  githubAPI_response response.

(** [a || b] on values. *)
Definition js_or (a b : js) : js := if truthy a then a else b.

Definition fetchUserInfo : M value :=
  userData <- githubAPI {| path := "/user"; query := [] |} ;;
  let u := Some userData in
  login <- or_TypeError (prop u "login") ;;
  name <- or_TypeError (prop u "name") ;;
  avatar_url <- or_TypeError (prop u "avatar_url") ;;
  id <- or_TypeError (prop u "id") ;;
  email <- or_TypeError (prop u "email") ;;
  bio <- or_TypeError (prop u "bio") ;;
  public_repos <- or_TypeError (prop u "public_repos") ;;
  followers <- or_TypeError (prop u "followers") ;;
  following <- or_TypeError (prop u "following") ;;
  ret (VObj (obj_of
    [ ("login", login); ("name", js_or name login); ("avatar_url", avatar_url);
      ("id", id); ("email", email); ("bio", bio);
      ("public_repos", public_repos); ("followers", followers);
      ("following", following) ])).

Definition requireAuth : M bool :=
  pat <- getStoredPAT ;;
  if text_truthy pat then ret true
  else set_href "auth.html" ;;; ret false.

Definition initUserInfo (forceRefresh : bool) : M value :=
  ok <- requireAuth ;;
  if negb ok then ret VNull
  else
    cached <-
      (if forceRefresh then ret None
       else
         storedUserInfo <- getStoredUserInfo ;;
         ret (if truthy (Some storedUserInfo) then Some storedUserInfo else None)) ;;
    match cached with
    | Some storedUserInfo => ret storedUserInfo
    | None =>
        try_catch
          (userInfo <- fetchUserInfo ;;
           storeUserInfo userInfo ;;;
           ret userInfo)
          (λ error,
             match error with
             | Error "INVALID_TOKEN" => ret VNull
             | _ => throw error
             end)
    end.

(** **** Organizations *)

Definition getStoredOrganizations : M value :=
  l <- getItem Local "organizations" ;;
  s <- getItem Session "organizations" ;;
  parse_or_null (text_or l s).

Definition storeOrganizations (organizations : value) : M unit :=
  storage <- getActiveStorage ;;
  setItem storage "organizations" (JSON_stringify organizations) ;;;
  now <- Date_now ;;
  setItem storage "organizations_timestamp" (Ser (VNum now)).

Definition isOrganizationsCacheValid : M bool :=
  storage <- getActiveStorage ;;
  timestamp <- getItem storage "organizations_timestamp" ;;
  match timestamp with
  | Some t =>
      if text_truthy timestamp
      then
        now <- Date_now ;;
        match parseInt t with
        | Some stamp => ret (now - stamp <? 30 * 60 * 1000)
        | None => ret false
        end
      else ret false
  | None => ret false
  end.

Definition organization_of (org : value) : option value :=
  let o := Some org in
  id ← prop o "id";
  login ← prop o "login";
  avatar_url ← prop o "avatar_url";
  description ← prop o "description";
  url ← prop o "url";
  Some (VObj (obj_of
    [ ("id", id); ("login", login); ("avatar_url", avatar_url);
      ("description", js_or description (Some (VStr ""))); ("url", url) ])).

Definition fetchOrganizations : M value :=
  orgs <- githubAPI {| path := "/user/orgs"; query := [] |} ;;
  l <- or_TypeError (as_array orgs) ;;
  mapped <- or_TypeError (mapM organization_of l) ;;
  ret (VArr mapped).

Definition initOrganizations (forceRefresh : bool) : M value :=
  ok <- requireAuth ;;
  if negb ok then ret (VArr [])
  else
    valid <- (if forceRefresh then ret false else isOrganizationsCacheValid) ;;
    cached <-
      (if valid then
         storedOrgs <- getStoredOrganizations ;;
         ret (if truthy (Some storedOrgs) then Some storedOrgs else None)
       else ret None) ;;
    match cached with
    | Some storedOrgs => ret storedOrgs
    | None =>
        try_catch
          (organizations <- fetchOrganizations ;;
           storeOrganizations organizations ;;;
           ret organizations)
          (λ error,
             storedOrgs <- getStoredOrganizations ;;
             if truthy (Some storedOrgs) then ret storedOrgs
             else throw error)
    end.

(** **** Repositories *)

(** [{...params, k: v}] on the parameters of a query, which keep the order
    in which they were first written. *)
Fixpoint set_param (k v : string) (params : list (string * string))
  : list (string * string) :=
  match params with
  | [] => [(k, v)]
  | (k', v') :: rest =>
      if String.eqb k' k then (k', v) :: rest
      else (k', v') :: set_param k v rest
  end.

Definition perPage : Z := 100.

(** The endpoint [fetchAllRepositories] asks for page [page] of
    [endpoint]. *)
Definition page_target (endpoint : string) (params : list (string * string))
    (page : Z) : target :=
  {| path := endpoint;
     query := set_param "per_page" (pretty perPage)
                (set_param "page" (pretty page) params) |}.

(** What a turn of the loop of [fetchAllRepositories] comes to once the
    page is there: the loop is left, or goes on to the next page. *)
Inductive turn :=
| Break (repos : list value)
| Next (repos : list value).

Definition after_page (pageRepos : value) (repos : list value)
  : option turn :=
  len ← length_of pageRepos;
  if strict_eq len (Some (VNum 0)) then Some (Break repos)
  else
    received ← iter_items pageRepos;
    let repos' := repos ++ received in
    if Z.of_nat (length received) <? perPage then Some (Break repos')
    else Some (Next repos').

(** The loop of [fetchAllRepositories], entered with the repositories
    collected so far and the next page index; [fuel] bounds the number of
    iterations, and a loop that outlives it does not come back. *)
Fixpoint fetchAllRepositories_from (fuel : nat) (endpoint : string)
    (params : list (string * string)) (repos : list value) (page : Z)
  : M (list value) :=
  match fuel with
  | O => diverge
  | S fuel' =>
      let queryParams :=
        set_param "per_page" (pretty perPage)
          (set_param "page" (pretty page) params) in
      pageRepos <- githubAPI {| path := endpoint; query := queryParams |} ;;
      len <- or_TypeError (length_of pageRepos) ;;
      if strict_eq len (Some (VNum 0)) then ret repos
      else
        received <- or_TypeError (iter_items pageRepos) ;;
        let repos' := repos ++ received in
        if Z.of_nat (length received) <? perPage then ret repos'
        else fetchAllRepositories_from fuel' endpoint params repos' (page + 1)
  end.

Definition fetchAllRepositories (fuel : nat) (endpoint : string)
    (params : list (string * string)) : M (list value) :=
  fetchAllRepositories_from fuel endpoint params [] 1.

(** The object both [fetchUserRepositories] and
    [fetchOrganizationRepositories] build from a repository of the API. *)
Definition repository_of (repo : value) : option value :=
  let r := Some repo in
  id ← prop r "id";
  full_name ← prop r "full_name";
  name ← prop r "name";
  owner ← prop r "owner";
  login ← prop owner "login";
  avatar_url ← prop owner "avatar_url";
  type ← prop owner "type";
  description ← prop r "description";
  private ← prop r "private";
  html_url ← prop r "html_url";
  stargazers_count ← prop r "stargazers_count";
  watchers_count ← prop r "watchers_count";
  forks_count ← prop r "forks_count";
  open_issues_count ← prop r "open_issues_count";
  language ← prop r "language";
  updated_at ← prop r "updated_at";
  created_at ← prop r "created_at";
  archived ← prop r "archived";
  Some (VObj (obj_of
    [ ("id", id); ("full_name", full_name); ("name", name);
      ("owner", Some (VObj (obj_of
         [ ("login", login); ("avatar_url", avatar_url); ("type", type) ])));
      ("owner_type", type);
      ("description", js_or description (Some (VStr "")));
      ("private", private); ("html_url", html_url);
      ("stargazers_count", stargazers_count);
      ("watchers_count", watchers_count);
      ("forks_count", forks_count);
      ("open_issues_count", open_issues_count);
      ("language", language); ("updated_at", updated_at);
      ("created_at", created_at); ("archived", archived) ])).

Definition fetchUserRepositories (fuel : nat) : M (list value) :=
  let params :=
    [ ("type", "all"); ("sort", "updated");
      ("affiliation", "owner,collaborator,organization_member") ]%string in
  repos <- fetchAllRepositories fuel "/user/repos" params ;;
  or_TypeError (mapM repository_of repos).

(** [`${x}`]. *)
Definition interpolate (x : js) : string :=
  match x with
  | Some (VStr s) => s
  | _ => to_string E x
  end.

Definition fetchOrganizationRepositories (fuel : nat) (orgLogin : js)
  : M (list value) :=
  let params := [ ("type", "all"); ("sort", "updated") ]%string in
  repos <- fetchAllRepositories fuel
             ("/orgs/" +:+ interpolate orgLogin +:+ "/repos") params ;;
  or_TypeError (mapM repository_of repos).

Definition isRepositoriesCacheValid : M bool :=
  let cacheKey := "repositories_all"%string in
  cachedData <- getCachedValue cacheKey ;;
  ret (negb (strict_eq cachedData (Some VNull))).

Definition getStoredRepositories : M js :=
  let cacheKey := "repositories_all"%string in
  getCachedValue cacheKey.

Definition storeRepositories (repositories : value) : M unit :=
  let cacheKey := "repositories_all"%string in
  setCachedValue cacheKey (Some repositories) 5.

(** A [Map] keeps its keys in the order of their first insertion; setting
    a key that is there replaces the value where it stands. *)
Fixpoint Map_set (m : list (js * value)) (k : js) (v : value)
  : list (js * value) :=
  match m with
  | [] => [(k, v)]
  | (k', v') :: rest =>
      if same_value_zero k' k then (k', v) :: rest
      else (k', v') :: Map_set rest k v
  end.

(** [new Map(entries)]. *)
Definition Map_of (entries : list (js * value)) : list (js * value) :=
  fold_left (λ m kv, Map_set m kv.1 kv.2) entries [].

(** [Array.from(new Map(allRepos.map(repo => [repo.id, repo])).values())]. *)
Definition uniqueRepos_of (allRepos : list value) : option (list value) :=
  entries ← mapM (λ repo, id ← prop (Some repo) "id"; Some (id, repo)) allRepos;
  Some (Map_of entries).*2.

(** **** The fetches of the organizations' repositories

    [organizations.map(org => fetchOrganizationRepositories(org.login).catch(...))]
    starts every fetch before any answer is there: each runs as far as the
    [fetch] of its first page.  [Promise.all] then waits for all of them,
    and each goes on when the answer to its request arrives. *)

(** A fetch in flight: waiting for the answer [a] to its request for the
    page [page], which arrives at the time [due], with the repositories
    collected so far and the turns of the loop [fuel] still allows; or
    settled, the promise of [fetchOrganizationRepositories] fulfilled
    ([Ret]) or rejected ([Throw]); a fetch out of turns never settles. *)
Inductive task :=
| Waiting (endpoint : string) (params : list (string * string))
    (repos : list value) (page : Z) (fuel : nat) (a : answer) (due : Z)
| Settled (o : outcome (list value)).

(** A turn of the loop of [fetchAllRepositories] as far as the [await] of
    [fetch] in [githubAPI]: the request is out.  What is thrown on the way
    rejects the promise. *)
Definition begin_page (fuel : nat) (endpoint : string)
    (params : list (string * string)) (repos : list value) (page : Z)
  : M task :=
  match fuel with
  | O => ret (Settled Diverge)
  | S fuel' =>
      try_catch
        (r <- githubAPI_request (page_target endpoint params page) ;;
         rep <- send r ;;
         now <- Date_now ;;
         ret (Waiting endpoint params repos page fuel' (answered rep)
                (now + Z.of_N (elapsed rep))))
        (λ error, ret (Settled (Throw error)))
  end.

(** The answer is there: [githubAPI] goes on from its response, then the
    loop, which either ends, [fetchOrganizationRepositories] mapping what
    was collected, or sends the request for the next page. *)
Definition resume (t : task) : M task :=
  match t with
  | Settled _ => ret t
  | Waiting endpoint params repos page fuel a due =>
      wait_until due ;;;
      try_catch
        (response <- receive a ;;
         pageRepos <- githubAPI_response response ;;
         turn <- or_TypeError (after_page pageRepos repos) ;;
         match turn with
         | Break repos' =>
             mapped <- or_TypeError (mapM repository_of repos') ;;
             ret (Settled (Ret mapped))
         | Next repos' => begin_page fuel endpoint params repos' (page + 1)
         end)
        (λ error, ret (Settled (Throw error)))
  end.

(** The waiting fetch whose answer arrives first, by its index, and the
    time it arrives: the least [due], and of answers due at the same
    millisecond the one of the fetch earliest in the list. *)
Fixpoint next_due (tasks : list task) : option (nat * Z) :=
  match tasks with
  | [] => None
  | t :: rest =>
      let later := (λ '(i, d), (S i, d)) <$> next_due rest in
      match t with
      | Waiting _ _ _ _ _ _ due =>
          match later with
          | Some (i, d) => if d <? due then Some (i, d) else Some (O, due)
          | None => Some (O, due)
          end
      | Settled _ => later
      end
  end.

(** The event loop while [Promise.all] waits: the fetch whose answer
    arrives first goes on, until none is waiting; [steps] bounds the
    number of answers. *)
Fixpoint run_tasks (steps : nat) (tasks : list task) : M (list task) :=
  match steps with
  | O => ret tasks
  | S steps' =>
      match next_due tasks with
      | None => ret tasks
      | Some (i, _) =>
          match tasks !! i with
          | Some t =>
              t' <- resume t ;;
              run_tasks steps' (<[i := t']> tasks)
          | None => ret tasks
          end
      end
  end.

(** [organizations.map(...)]: the fetches are started in the order of the
    list. *)
Fixpoint start_tasks (fuel : nat) (organizations : list value)
  : M (list task) :=
  match organizations with
  | [] => ret []
  | org :: rest =>
      login <- or_TypeError (prop (Some org) "login") ;;
      t <- begin_page fuel ("/orgs/" +:+ interpolate login +:+ "/repos")
             [ ("type", "all"); ("sort", "updated") ]%string [] 1 ;;
      others <- start_tasks fuel rest ;;
      ret (t :: others)
  end.

(** What a fetch came to; one still waiting has not come back. *)
Definition settled (t : task) : outcome (list value) :=
  match t with
  | Settled o => o
  | Waiting _ _ _ _ _ _ _ => Diverge
  end.

(** The fetches from their start to the last answer; each takes at most
    [fuel] answers. *)
Definition org_tasks (fuel : nat) (organizations : list value)
  : M (list task) :=
  tasks <- start_tasks fuel organizations ;;
  run_tasks (fuel * length organizations) tasks.

(** What a fetch contributes to the aggregate through its [catch]: its
    repositories, or the empty array when it failed. *)
Definition contribution (o : outcome (list value)) : list value :=
  match o with
  | Ret l => l
  | _ => []
  end.

Definition came_back (o : outcome (list value)) : bool :=
  match o with
  | Diverge => false
  | _ => true
  end.

(** [await Promise.all(orgReposPromises)]. *)
Definition orgReposArrays_of (fuel : nat) (organizations : list value)
  : M (list (list value)) :=
  tasks <- org_tasks fuel organizations ;;
  if forallb (λ t, came_back (settled t)) tasks
  then ret ((λ t, contribution (settled t)) <$> tasks)
  else diverge.

Definition fetchAllUserRepositories (fuel : nat) : M (list value) :=
  userRepos <- fetchUserRepositories fuel ;;
  organizations <- initOrganizations false ;;
  orgs <- or_TypeError (as_array organizations) ;;
  orgReposArrays <- orgReposArrays_of fuel orgs ;;
  let orgRepos := concat orgReposArrays in
  let allRepos := userRepos ++ orgRepos in
  or_TypeError (uniqueRepos_of allRepos).

Definition initRepositories (fuel : nat) (forceRefresh : bool) : M js :=
  ok <- requireAuth ;;
  if negb ok then ret (Some (VArr []))
  else
    valid <- (if forceRefresh then ret false else isRepositoriesCacheValid) ;;
    cached <-
      (if valid then
         storedRepos <- getStoredRepositories ;;
         ret (if truthy storedRepos then Some storedRepos else None)
       else ret None) ;;
    match cached with
    | Some storedRepos => ret storedRepos
    | None =>
        try_catch
          (repositories <- fetchAllUserRepositories fuel ;;
           storeRepositories (VArr repositories) ;;;
           ret (Some (VArr repositories)))
          (λ error,
             storedRepos <- getStoredRepositories ;;
             if truthy storedRepos then ret storedRepos
             else throw error)
    end.

End Program.

(** ** What a world holds

    Pure readings of the world, used to state the properties: each is what
    the function of the same purpose returns, as the lemmas below show. *)

Definition active (w : world) : area :=
  if text_truthy (localStorage w !! STORAGE_KEYS_PAT) then Local else Session.

Definition stored_pat (w : world) : option text :=
  text_or (localStorage w !! "github_pat") (sessionStorage w !! "github_pat").

Arguments active : simpl never.
Arguments stored_pat : simpl never.

(** What [JSON.parse] makes of a stored string inside a [try] whose handler
    returns [fallback], after the test for a missing or empty string. *)
Definition parsed_or (fallback : value) (t : option text) : value :=
  match t with
  | Some (Ser v) => v
  | _ => fallback
  end.

Definition cache_of (w : world) : value :=
  parsed_or (VObj ∅) (items (active w) w !! STORAGE_KEYS_CACHE).

Definition tracked_of (w : world) : value :=
  parsed_or (VArr []) (items (active w) w !! STORAGE_KEYS_TRACKED_REPOS).

Definition settings_of (w : world) : gmap string value :=
  match items (active w) w !! STORAGE_KEYS_DASHBOARD_SETTINGS with
  | Some (Ser settings) =>
      spread (Some (VObj DEFAULT_DASHBOARD_SETTINGS)) (Some settings)
  | _ => DEFAULT_DASHBOARD_SETTINGS
  end.

(** The browser accepts the write of [v] under [key] in the active area. *)
Definition accepts (E : env) (w : world) (key : string) (v : text) : Prop :=
  fits E (active w) (<[key := v]> (items (active w) w)) = true.

(** The world after such a write. *)
Definition written (w : world) (key : string) (v : text) : world :=
  with_items (active w) (<[key := v]> (items (active w) w)) w.

(** Every key but the cache is where it was. *)
Definition same_but_cache (w w' : world) : Prop :=
  ∀ a k, k ≠ STORAGE_KEYS_CACHE → items a w' !! k = items a w !! k.

(** The area a call of [safeSetItem] writes to. *)
Definition area_of (useSession : bool) (w : world) : area :=
  if useSession then Session else active w.

(** What a call of [safeSetItem] can throw once the browser has refused
    the item: the error of [handleQuotaExceeded], the overflow of the stack,
    or the [TypeError] of [clearStaleCache] on a [null] cache entry. *)
Definition thrown_on_quota (e : exn) : Prop :=
  e = Error "STORAGE_QUOTA_EXCEEDED" ∨ e = RangeError ∨ e = TypeError.

(** The request [githubAPI] sends for [endpoint] with the token [token]. *)
Definition request_of (endpoint : target) (token : text) : request :=
  {| req_url := if String.prefix "http" (path endpoint)
                then path endpoint
                else GITHUB_API_BASE +:+ path endpoint;
     req_query := query endpoint;
     req_token := token |}.

(** The world once a request is out and [d] milliseconds have passed. *)
Definition after_fetch (r : request) (d : N) (w : world) : world :=
  {| localStorage := localStorage w; sessionStorage := sessionStorage w;
     clock := clock w + Z.of_N d; sent := sent w ++ [r]; href := href w |}.

(** The keys [clearAuth] removes from both areas. *)
Definition auth_keys : list string :=
  [ "github_pat"; "user_info"; "organizations"; "organizations_timestamp" ]%string.

(** The world once the page is sent to the authentication form. *)
Definition redirected (w : world) : world :=
  {| localStorage := localStorage w; sessionStorage := sessionStorage w;
     clock := clock w; sent := sent w; href := "auth.html" |}.

Definition user_repos_params : list (string * string) :=
  [ ("type", "all"); ("sort", "updated");
    ("affiliation", "owner,collaborator,organization_member") ]%string.

(** The request for page [i] of [endpoint]. *)
Definition page_request (endpoint : string) (params : list (string * string))
    (token : text) (i : nat) : request :=
  request_of (page_target endpoint params (Z.of_nat i)) token.

(** After the requests [history], the network serves [pages] one by one to
    the requests for page 1, 2, ... of [endpoint], each with a status of
    success and the page as its body. *)
Definition serves (E : env) (history : list request) (endpoint : string)
    (params : list (string * string)) (token : text)
    (pages : list (list value)) : Prop :=
  ∀ i p, pages !! i = Some p →
    ∃ status remaining d,
      net E (history ++ (page_request endpoint params token <$> seq 1 i))
        (page_request endpoint params token (S i))
      = {| answered := Response status remaining (Some (VArr p)); elapsed := d |} ∧
      response_ok status = true.

(** *** Identities in a list of repositories *)

(** [r.id] for a repository that is not [null]. *)
Definition id_of (r : value) : js := own_props (Some r) !! "id".

(** No two of the identities are [===]. *)
Fixpoint distinct (ids : list js) : bool :=
  match ids with
  | [] => true
  | i :: rest => forallb (λ j, negb (strict_eq i j)) rest && distinct rest
  end.

Definition distinct_ids (l : list value) : bool := distinct (id_of <$> l).

(** The last repository of [l] whose id is [k]. *)
Fixpoint find_last (k : js) (l : list value) : option value :=
  match l with
  | [] => None
  | r :: rest =>
      match find_last k rest with
      | Some x => Some x
      | None => if same_value_zero (id_of r) k then Some r else None
      end
  end.

(** The entry of the [Map] for a repository. *)
Definition entry (r : value) : js * value := (id_of r, r).

(** What the fetch of each organization's repositories comes to, the
    fetches running together from the world [w], and the world they
    leave. *)
Definition org_outcomes (E : env) (fuel : nat) (organizations : list value)
    (w : world) : list (outcome (list value)) :=
  match (org_tasks E fuel organizations w).1 with
  | Ret tasks => settled <$> tasks
  | _ => []
  end.

Definition org_world (E : env) (fuel : nat) (organizations : list value)
    (w : world) : world :=
  (org_tasks E fuel organizations w).2.

(** The answers a fetch in flight may still take. *)
Definition turns_left (t : task) : nat :=
  match t with
  | Waiting _ _ _ _ fuel _ _ => S fuel
  | Settled _ => O
  end.

(** What a fulfilled fetch holds are objects, as [repository_of] builds
    them. *)
Definition mapped (t : task) : Prop :=
  match t with
  | Settled (Ret l) => Forall (λ r, r ≠ VNull) l
  | _ => True
  end.

(** The invariant of the tracked list: whenever the stored list is an
    array, no two of its entries have the same id. *)
Definition tracked_distinct (w : world) : Prop :=
  ∀ l, tracked_of w = VArr l → distinct_ids l = true.

(** ** The rest of the program

    The other functions of [storage.js] and of the GitHub utilities, and
    the parts of the authentication and selection pages that touch the
    storage.  What these pages draw on the screen is left out. *)

(** [array.find(r => r[k] === x)]: the first element whose property [k] is
    [x], [undefined] when there is none; the outer [None] is the
    [TypeError] of reading a property of [null]. *)
Fixpoint find_by (k : string) (l : list value) (x : js) : option js :=
  match l with
  | [] => Some undefined
  | r :: rest =>
      match prop (Some r) k with
      | None => None
      | Some v => if strict_eq v x then Some (Some r) else find_by k rest x
      end
  end.

(** [x || null]. *)
Definition or_null (x : js) : value :=
  match x with
  | Some v => if truthy x then v else VNull
  | None => VNull
  end.

(** [if (x) f(x)]. *)
Definition when_truthy (x : js) (f : value → M unit) : M unit :=
  match x with
  | Some v => if truthy x then f v else ret tt
  | None => ret tt
  end.

(** [s.split(c)] for a separator of one character. *)
Fixpoint split_on (c : Ascii.ascii) (s : string) : list string :=
  match s with
  | EmptyString => [EmptyString]
  | String x r =>
      if Ascii.eqb x c then EmptyString :: split_on c r
      else match split_on c r with
           | h :: t => String x h :: t
           | [] => [String x EmptyString]
           end
  end.

(** White space as [trim] knows it, in a string whose characters are bytes
    (the value of a header, which [headers.get] decodes byte by byte): the
    characters 9 to 13, the space, and the no-break space 160. *)
Definition is_space (a : Ascii.ascii) : bool :=
  let n := Ascii.nat_of_ascii a in
  ((9 <=? n) && (n <=? 13) || (n =? 32) || (n =? 160))%nat.

Fixpoint trim_start (s : string) : string :=
  match s with
  | EmptyString => EmptyString
  | String x r => if is_space x then trim_start r else s
  end.

Fixpoint trim_end (s : string) : string :=
  match s with
  | EmptyString => EmptyString
  | String x r =>
      match trim_end r with
      | EmptyString => if is_space x then EmptyString else String x EmptyString
      | r' => String x r'
      end
  end.

(** [s.trim()]. *)
Definition trim (s : string) : string := trim_end (trim_start s).

Section Program_rest.

Variable E : env.

(** *** storage.js, continued *)

Definition getTrackedRepoById (repoId : js) : M value :=
  repos <- getTrackedRepos ;;
  l <- or_TypeError (as_array repos) ;;
  found <- or_TypeError (find_by "id" l repoId) ;;
  ret (or_null found).

(** [null] is the outer [None], [NaN] the inner one. *)
Definition getLastRefresh : M (option (option Z)) :=
  storage <- getActiveStorage ;;
  timestamp <- getItem storage STORAGE_KEYS_LAST_REFRESH ;;
  match timestamp with
  | Some t => if text_truthy timestamp then ret (Some (parseInt E t)) else ret None
  | None => ret None
  end.

Definition setLastRefresh : M unit :=
  storage <- getActiveStorage ;;
  now <- Date_now ;;
  setItem E storage STORAGE_KEYS_LAST_REFRESH (Ser (VNum now)).

Definition importData (data : js) : M bool :=
  try_catch
    (user_info <- or_TypeError (prop data "user_info") ;;
     when_truthy user_info (storeUserInfo E) ;;;
     organizations <- or_TypeError (prop data "organizations") ;;
     when_truthy organizations (storeOrganizations E) ;;;
     tracked_repos <- or_TypeError (prop data "tracked_repos") ;;
     when_truthy tracked_repos (setTrackedRepos E) ;;;
     dashboard_settings <- or_TypeError (prop data "dashboard_settings") ;;
     when_truthy dashboard_settings (λ v, setDashboardSettings E (Some v)) ;;;
     ret true)
    (λ e, ret false).

(** The result [{valid, issues}] as a pair.  The third test of the source,
    [typeof settings !== 'object'], is on an object that
    [getDashboardSettings] has just built. *)
Definition validateDataIntegrity : M (bool * list string) :=
  userInfo <- getStoredUserInfo ;;
  login <- or_TypeError (if truthy (Some userInfo) then prop (Some userInfo) "login"
                         else Some undefined) ;;
  id <- or_TypeError (if truthy (Some userInfo) then prop (Some userInfo) "id"
                      else Some undefined) ;;
  let results1 :=
    if truthy (Some userInfo) && (negb (truthy login) || negb (truthy id))
    then (false, ["Invalid user info structure"%string])
    else (true, []) in
  repos <- getTrackedRepos ;;
  let results2 :=
    match repos with
    | VArr _ => results1
    | _ => (false, results1.2 ++ ["Tracked repos is not an array"%string])
    end in
  settings <- getDashboardSettings ;;
  ret results2.

(** *** The GitHub API utilities, continued *)

Definition getOrganizationByLogin (login : js) : M value :=
  organizations <- initOrganizations E false ;;
  l <- or_TypeError (as_array organizations) ;;
  found <- or_TypeError (find_by "login" l login) ;;
  ret (or_null found).

Definition getRepositoryByFullName (fuel : nat) (fullName : js) : M value :=
  repositories <- initRepositories E fuel false ;;
  l <- or_TypeError (repositories ≫= as_array) ;;
  found <- or_TypeError (find_by "full_name" l fullName) ;;
  ret (or_null found).

Definition getRepositoryById (fuel : nat) (id : js) : M value :=
  repositories <- initRepositories E fuel false ;;
  l <- or_TypeError (repositories ≫= as_array) ;;
  found <- or_TypeError (find_by "id" l id) ;;
  ret (or_null found).

(** *** The authentication page (auth.js) *)

(** [required.split(':')[1]]. *)
Definition second_part (required : string) : option string :=
  split_on ":"%char required !! 1%nat.

(** The test of the inner [some] of [validateScopes]; [startsWith] turns
    an [undefined] argument into the string ["undefined"]. *)
Definition scope_matches (required scope : string) : bool :=
  String.eqb scope required
  || match second_part required with
     | Some part => String.eqb scope part
     | None => false
     end
  || String.prefix (default "undefined"%string (second_part required)) scope.

Definition validateScopes (scopes : option string) : bool :=
  match scopes with
  | None => false
  | Some s =>
      if String.eqb s "" then false
      else
        let scopeList := trim <$> split_on ","%char s in
        let requiredScopes := [ "repo"; "read:user"; "read:org" ]%string in
        if existsb (String.eqb "repo") scopeList then true
        else forallb (λ required, existsb (scope_matches required) scopeList)
               requiredScopes
  end.

(** [storageType === 'local' ? localStorage : sessionStorage]. *)
Definition storage_of_type (storageType : string) : area :=
  if String.eqb storageType "local" then Local else Session.

Definition storePAT (pat : text) (storageType : string) : M unit :=
  setItem E (storage_of_type storageType) "github_pat" pat.

Definition clearStoredPAT : M unit :=
  removeItem Local "github_pat" ;;;
  removeItem Session "github_pat" ;;;
  removeItem Local "user_info" ;;;
  removeItem Session "user_info".

(** The [X-OAuth-Scopes] header of the reply to [r] sent after the requests
    [history]. *)
Variable oauth_scopes : list request → request → option string.

Definition validatePAT (pat : text) : M value :=
  try_catch
    (history <- (λ w, (Ret (sent w), w)) ;;
     let r := {| req_url := GITHUB_API_BASE +:+ "/user"; req_query := [];
                 req_token := pat |} in
     response <- fetch E r ;;
     let '(status, _, body) := response in
     if response_ok status then
       userData <- match body with
                   | Some v => ret v
                   | None => throw SyntaxError
                   end ;;
       if negb (validateScopes (oauth_scopes history r))
       then throw (Error "INSUFFICIENT_SCOPES")
       else
         let u := Some userData in
         login <- or_TypeError (prop u "login") ;;
         name <- or_TypeError (prop u "name") ;;
         avatar_url <- or_TypeError (prop u "avatar_url") ;;
         id <- or_TypeError (prop u "id") ;;
         ret (VObj (obj_of
           [ ("login", login); ("name", js_or name login);
             ("avatar_url", avatar_url); ("id", id) ]))
     else if status =? 401 then throw (Error "INVALID_TOKEN")
     else if status =? 403 then throw (Error "RATE_LIMIT")
     else throw (Error "API_ERROR"))
    (λ error,
       match error with
       | Error "INSUFFICIENT_SCOPES" | Error "INVALID_TOKEN"
       | Error "RATE_LIMIT" | Error "API_ERROR" => throw error
       | _ => throw (Error "NETWORK_ERROR")
       end).

Definition checkExistingAuth : M unit :=
  existingPat <- getStoredPAT ;;
  match existingPat with
  | Some pat =>
      if text_truthy existingPat then
        isValid <- validatePAT pat ;;
        if truthy (Some isValid) then set_href "dashboard.html"
        else clearStoredPAT
      else ret tt
  | None => ret tt
  end.

(** *** The selection page *)

(** [selectedRepoIds.has(x)], the set as the list of its members. *)
Definition Set_has (s : list js) (x : js) : bool :=
  existsb (λ y, same_value_zero y x) s.

(** [allRepositories.filter(repo => selectedRepoIds.has(repo.id))]. *)
Fixpoint selected_of (selectedRepoIds : list js) (allRepositories : list value)
  : option (list value) :=
  match allRepositories with
  | [] => Some []
  | repo :: rest =>
      match prop (Some repo) "id", selected_of selectedRepoIds rest with
      | Some id, Some kept =>
          Some (if Set_has selectedRepoIds id then repo :: kept else kept)
      | _, _ => None
      end
  end.

(** The entry [saveSelection] stores for a repository. *)
Definition selection_entry (repo : value) : option value :=
  let r := Some repo in
  id ← prop r "id";
  full_name ← prop r "full_name";
  name ← prop r "name";
  owner ← prop r "owner";
  owner_type ← prop r "owner_type";
  Some (VObj (obj_of
    [ ("id", id); ("full_name", full_name); ("name", name);
      ("owner", owner); ("owner_type", owner_type);
      ("pinned", Some (VBool false)); ("notes", Some (VStr "")) ])).

(** [saveSelection()], the two globals it reads as arguments. *)
Definition saveSelection (allRepositories : js) (selectedRepoIds : list js)
  : M unit :=
  l <- or_TypeError (allRepositories ≫= as_array) ;;
  kept <- or_TypeError (selected_of selectedRepoIds l) ;;
  selectedRepos <- or_TypeError (mapM selection_entry kept) ;;
  setTrackedRepos E (VArr selectedRepos) ;;;
  set_href "dashboard.html".

(** [getRelativeTime(date)], the date as its time in milliseconds;
    [toLocaleDateString] is the browser's. *)
Variable toLocaleDateString : Z → string.

Definition getRelativeTime (date : Z) : M string :=
  now <- Date_now ;;
  let diffMs := now - date in
  let diffSecs := diffMs / 1000 in
  let diffMins := diffSecs / 60 in
  let diffHours := diffMins / 60 in
  let diffDays := diffHours / 24 in
  if 30 <? diffDays then ret (toLocaleDateString date)
  else if 0 <? diffDays then ret (pretty diffDays +:+ "d ago")
  else if 0 <? diffHours then ret (pretty diffHours +:+ "h ago")
  else if 0 <? diffMins then ret (pretty diffMins +:+ "m ago")
  else ret "just now"%string.

End Program_rest.

(** The entry [addTrackedRepo] appends for [repo]. *)
Definition tracked_entry_of (repo : js) : value :=
  VObj (obj_of
    [ ("id"%string, own_props repo !! "id");
      ("full_name"%string, own_props repo !! "full_name");
      ("name"%string, own_props repo !! "name");
      ("owner"%string, own_props repo !! "owner");
      ("owner_type"%string, own_props repo !! "owner_type");
      ("pinned"%string, Some (VBool false)); ("notes"%string, Some (VStr "")) ]).

(** The entries of [l] whose id is not [id], in their order. *)
Definition without_id (id : js) (l : list value) : list value :=
  filter (λ r, strict_eq (id_of r) id = false) l.

(** What [getCachedValue] returns for a key under which the cache, an
    object, has no own property: [null], or [undefined] when the key names
    a member of [Object.prototype], which [cache[key]] then is. *)
Definition absent (key : string) : js :=
  if bool_decide (key ∈ Object_prototype) then undefined else Some VNull.

(** The own properties of the object [clearStaleCache] writes back at the
    time [now] for the cache [c]. *)
Definition swept (E : env) (now : Z) (c : gmap string value)
  : gmap string value :=
  delete "__proto__" (filter (λ kv, keeps E now kv.2 = true) c).

(** What [getCachedValue] makes of the entry it finds under the key, at
    the time [now]. *)
Definition read_entry (E : env) (entry : member) (now : Z) : outcome js :=
  if negb (member_truthy entry) then Ret (Some VNull)
  else match member_prop entry "expires" with
       | None => Throw TypeError
       | Some expires =>
           if truthy expires && now_gt E now expires then Ret (Some VNull)
           else match member_prop entry "data" with
                | Some data => Ret data
                | None => Throw TypeError
                end
       end.

(** A computation that comes back from every world: it returns or throws,
    it does not run forever. *)
Definition comes_back {A} (m : M A) : Prop := ∀ w, (m w).1 ≠ Diverge.

(** A browser in which every write finds room. *)
Definition always_fits (E : env) : Prop := ∀ a m, fits E a m = true.

(** The world after [if (x) write(key, JSON.stringify(x))]. *)
Definition put (x : js) (key : string) (w : world) : world :=
  match x with
  | Some v => if truthy x then written w key (JSON_stringify v) else w
  | None => w
  end.

(** The world after [if (x) storeOrganizations(x)] in a browser with
    room. *)
Definition put_organizations (x : js) (w : world) : world :=
  match x with
  | Some v =>
      if truthy x
      then written (written w "organizations" (JSON_stringify v))
             "organizations_timestamp" (Ser (VNum (clock w)))
      else w
  | None => w
  end.

(** The world after [if (x) setDashboardSettings(x)] in a browser with
    room. *)
Definition put_settings (x : js) (w : world) : world :=
  match x with
  | Some v =>
      if truthy x
      then written w STORAGE_KEYS_DASHBOARD_SETTINGS
             (JSON_stringify (VObj (spread (Some (VObj (settings_of w))) x)))
      else w
  | None => w
  end.

(** No key outside [keys] has changed, in either area. *)
Definition untouched (keys : list string) (w w' : world) : Prop :=
  ∀ a k, k ∉ keys → items a w' !! k = items a w !! k.

(** The keys [importData] may write. *)
Definition imported_keys : list string :=
  [ "user_info"; "organizations"; "organizations_timestamp";
    STORAGE_KEYS_TRACKED_REPOS; STORAGE_KEYS_DASHBOARD_SETTINGS ]%string.

(** The endpoints of the profile and of the organizations. *)
Definition user_endpoint : target := {| path := "/user"; query := [] |}.

Definition orgs_endpoint : target := {| path := "/user/orgs"; query := [] |}.

(** The strings [getStoredOrganizations] and [getStoredUserInfo] parse. *)
Definition stored_organizations (w : world) : option text :=
  text_or (localStorage w !! "organizations") (sessionStorage w !! "organizations").

Definition stored_user_info (w : world) : option text :=
  text_or (localStorage w !! "user_info") (sessionStorage w !! "user_info").

(** The reply to the request [githubAPI] sends for [endpoint] from the
    world [w], and the world once it has come. *)
Definition reply_to (E : env) (endpoint : target) (token : text) (w : world)
  : reply :=
  net E (sent w) (request_of endpoint token).

Definition after_request (E : env) (endpoint : target) (token : text)
    (w : world) : world :=
  after_fetch (request_of endpoint token) (elapsed (reply_to E endpoint token w)) w.

(** The answers on which [githubAPI] throws without touching the storage:
    no response, a status outside 200..299 other than 401, a body that is
    not JSON. *)
Definition fails_short_of_401 (a : answer) : bool :=
  match a with
  | NoResponse => true
  | Response status _ body =>
      negb (status =? 401)
      && (negb (response_ok status)
          || match body with Some _ => false | None => true end)
  end.

(** A storage area once the keys of [clearAuth] are removed, in the order
    in which it removes them. *)
Definition without_auth (m : gmap string text) : gmap string text :=
  fold_left (λ m k, delete k m) auth_keys m.

(** The world after [clearAuth] and the redirection that follows a 401. *)
Definition signed_off (w : world) : world :=
  {| localStorage := without_auth (localStorage w);
     sessionStorage := without_auth (sessionStorage w);
     clock := clock w; sent := sent w; href := "auth.html" |}.

(** The request of [validatePAT]. *)
Definition validation_request (pat : text) : request :=
  {| req_url := GITHUB_API_BASE +:+ "/user"; req_query := []; req_token := pat |}.

(** The messages of the errors [validatePAT] lets out. *)
Definition validation_errors : list string :=
  [ "INSUFFICIENT_SCOPES"; "INVALID_TOKEN"; "RATE_LIMIT"; "API_ERROR";
    "NETWORK_ERROR" ]%string.

(** The scopes of a header, as [validateScopes] lists them. *)
Definition scope_list (scopes : string) : list string :=
  trim <$> split_on ","%char scopes.

(** The first element of [l] whose property [k] is [x], or [null]: what
    [l.find(r => r[k] === x) || null] is on a list without [null]. *)
Definition first_with (k : string) (x : js) (l : list value) : value :=
  match List.find (λ r, strict_eq (own_props (Some r) !! k) x) l with
  | Some r => if truthy (Some r) then r else VNull
  | None => VNull
  end.

(** The entries [saveSelection] stores for the repositories [l] and the
    selected ids [ids]. *)
Definition selection_of (ids : list js) (l : list value) : list value :=
  (λ r, tracked_entry_of (Some r)) <$> filter (λ r, Set_has ids (id_of r) = true) l.

(** ** Environments and worlds used as examples *)

(** The methods of [Array.prototype], [String.prototype],
    [Number.prototype] and [Boolean.prototype] in ECMAScript 2023. *)
Definition es2023 (v : value) (k : string) : bool :=
  bool_decide (k ∈
    match v with
    | VArr _ =>
        [ "at"; "concat"; "copyWithin"; "entries"; "every"; "fill"; "filter";
          "find"; "findIndex"; "findLast"; "findLastIndex"; "flat"; "flatMap";
          "forEach"; "includes"; "indexOf"; "join"; "keys"; "lastIndexOf";
          "map"; "pop"; "push"; "reduce"; "reduceRight"; "reverse"; "shift";
          "slice"; "some"; "sort"; "splice"; "toReversed"; "toSorted";
          "toSpliced"; "unshift"; "values"; "with" ]
    | VStr _ =>
        [ "anchor"; "at"; "big"; "blink"; "bold"; "charAt"; "charCodeAt";
          "codePointAt"; "concat"; "endsWith"; "fixed"; "fontcolor";
          "fontsize"; "includes"; "indexOf"; "isWellFormed"; "italics";
          "lastIndexOf"; "link"; "localeCompare"; "match"; "matchAll";
          "normalize"; "padEnd"; "padStart"; "repeat"; "replace";
          "replaceAll"; "search"; "slice"; "small"; "split"; "startsWith";
          "strike"; "sub"; "substr"; "substring"; "sup"; "toLocaleLowerCase";
          "toLocaleUpperCase"; "toLowerCase"; "toUpperCase"; "toWellFormed";
          "trim"; "trimEnd"; "trimLeft"; "trimRight"; "trimStart" ]
    | VNum _ => [ "toExponential"; "toFixed"; "toPrecision" ]
    | _ => []
    end%string).

Definition silent : list request → request → reply :=
  λ _ _, {| answered := NoResponse; elapsed := 0 |}.

(** A browser with room for everything and no network. *)
Definition roomy : env :=
  {| net := silent; fits := λ _ _, true; stack := 8;
     to_number := λ _, None; parse_int := λ _, None;
     to_string := λ _, ""%string; inherits := es2023 |}.

(** A signed-in world with nothing else stored. *)
Definition signed_in : world :=
  {| localStorage := {[ "github_pat"%string := Raw "ghp_token" ]};
     sessionStorage := ∅; clock := 1700000000000; sent := [];
     href := "dashboard.html" |}.

Definition repo_stub (id : Z) (name : string) : value :=
  VObj (list_to_map [ ("id"%string, VNum id); ("name"%string, VStr name) ]).

(** Signed in, tracking repositories 1 and 2. *)
Definition tracking_two : world :=
  written signed_in STORAGE_KEYS_TRACKED_REPOS
    (JSON_stringify (VArr [repo_stub 1 "A"; repo_stub 2 "B"])).

(** A browser whose areas hold [quota] units: a raw string weighs its
    length, an object by the number of its properties (a crude stand-in for
    the length of its JSON text), anything else a constant. *)
Definition weight (t : text) : nat :=
  match t with
  | Raw s => String.length s
  | Ser (VObj o) => 2 + 40 * size o
  | Ser _ => 8
  end.

Definition used (m : gmap string text) : nat :=
  map_fold (λ k t acc, String.length k + weight t + acc)%nat 0%nat m.

Definition tight (quota : nat) : env :=
  {| net := silent; fits := λ _ m, (used m <=? quota)%nat; stack := 8;
     to_number := λ _, None; parse_int := λ _, None;
     to_string := λ _, ""%string; inherits := es2023 |}.

Definition cache_entry (data : value) (expires timestamp : Z) : value :=
  VObj (list_to_map [ ("data"%string, data); ("expires"%string, VNum expires);
                      ("timestamp"%string, VNum timestamp) ]).

(** Signed in, with a cache of one entry long expired and one still
    fresh. *)
Definition half_stale : world :=
  written signed_in STORAGE_KEYS_CACHE
    (JSON_stringify (VObj (list_to_map
       [ ("commits_a_b"%string, cache_entry (VNum 1) 1000 900);
         ("org_repos_x"%string,
          cache_entry (VNum 2) 1800000000000 1700000000000) ]))).

(** The same world once the expired entry is evicted. *)
Definition only_fresh : world :=
  written signed_in STORAGE_KEYS_CACHE
    (JSON_stringify (VObj (list_to_map
       [ ("org_repos_x"%string,
          cache_entry (VNum 2) 1800000000000 1700000000000) ]))).

(** The entry [setCachedValue] writes at time [now]. *)
Definition entry_of (data : js) (now ttlMinutes : Z) : value :=
  VObj (obj_of [ ("data"%string, data);
                 ("expires"%string, Some (VNum (now + ttlMinutes * 60 * 1000)));
                 ("timestamp"%string, Some (VNum now)) ]).

(** Signed in, with one cache entry whose [expires] is 0. *)
Definition unexpiring : world :=
  written signed_in STORAGE_KEYS_CACHE
    (JSON_stringify (VObj {[ "repositories_all"%string := cache_entry (VNum 1) 0 0 ]})).

(** Signed in at time 1000, with one cache entry expiring at 2000. *)
Definition expiring : world :=
  with_clock 1000
    (written signed_in STORAGE_KEYS_CACHE
       (JSON_stringify (VObj {[ "k"%string := cache_entry (VNum 7) 2000 1000 ]}))).

(** A browser with room for everything whose network gives the same
    answer to every request, after 120 ms. *)
Definition answering (a : answer) : env :=
  {| net := λ _ _, {| answered := a; elapsed := 120 |};
     fits := λ _ _, true; stack := 8;
     to_number := λ _, None; parse_int := λ _, None;
     to_string := λ _, ""%string; inherits := es2023 |}.

(** Nobody is signed in. *)
Definition signed_out : world :=
  {| localStorage := ∅; sessionStorage := ∅; clock := 1700000000000;
     sent := []; href := "dashboard.html" |}.

(** Signed in, with a profile and a list of organizations stored. *)
Definition profiled : world :=
  {| localStorage :=
       list_to_map
         [ ("github_pat"%string, Raw "ghp_token");
           ("user_info"%string, Ser (VObj {[ "login"%string := VStr "octocat" ]}));
           ("organizations"%string, Ser (VArr []));
           ("organizations_timestamp"%string, Ser (VNum 1699999990000)) ];
     sessionStorage := ∅; clock := 1700000000000; sent := [];
     href := "dashboard.html" |}.

(** Signed in, with a repository list cached that expired long ago. *)
Definition stale_repos : world :=
  written signed_in STORAGE_KEYS_CACHE
    (JSON_stringify (VObj {[ "repositories_all"%string :=
       cache_entry (VArr [repo_stub 1 "A"]) 1000 900 ]})).

(** A page of [n] repositories. *)
Definition page_of (n : nat) : list value := replicate n (repo_stub 7 "r").

(** A browser with room for everything whose network answers the [i]-th
    request it sees with the [i]-th of [pages]. *)
Definition paging (pages : list (list value)) : env :=
  {| net := λ history _,
       {| answered := match pages !! length history with
                      | Some p => Response 200 None (Some (VArr p))
                      | None => NoResponse
                      end;
          elapsed := 120 |};
     fits := λ _ _, true; stack := 8;
     to_number := λ _, None; parse_int := λ _, None;
     to_string := λ _, ""%string; inherits := es2023 |}.

(** A repository as the API sends it. *)
Definition api_repo (id : Z) (name owner : string) : value :=
  VObj (list_to_map
    [ ("id"%string, VNum id); ("name"%string, VStr name);
      ("owner"%string,
       VObj (list_to_map [ ("login"%string, VStr owner);
                           ("type"%string, VStr "Organization") ])) ]).

(** GitHub for a user with one repository who belongs to two
    organizations: the repositories of [org-x] cannot be fetched (status
    500), [org-y] has one repository. *)
Definition two_orgs : env :=
  {| net := λ _ r,
       {| answered :=
            if String.eqb (req_url r) "https://api.github.com/user/repos"
            then Response 200 None (Some (VArr [api_repo 1 "mine" "octocat"]))
            else if String.eqb (req_url r) "https://api.github.com/user/orgs"
            then Response 200 None
                   (Some (VArr [ VObj {[ "login"%string := VStr "org-x" ]};
                                 VObj {[ "login"%string := VStr "org-y" ]} ]))
            else if String.eqb (req_url r) "https://api.github.com/orgs/org-y/repos"
            then Response 200 None (Some (VArr [api_repo 3 "theirs" "org-y"]))
            else Response 500 None None;
          elapsed := 120 |};
     fits := λ _ _, true; stack := 8;
     to_number := λ _, None; parse_int := λ _, None;
     to_string := λ _, ""%string; inherits := es2023 |}.

(** The same user, the token no longer accepted for the repositories of
    [org-x] (status 401). *)
Definition revoked_for_one : env :=
  {| net := λ _ r,
       {| answered :=
            if String.eqb (req_url r) "https://api.github.com/user/repos"
            then Response 200 None (Some (VArr [api_repo 1 "mine" "octocat"]))
            else if String.eqb (req_url r) "https://api.github.com/user/orgs"
            then Response 200 None
                   (Some (VArr [ VObj {[ "login"%string := VStr "org-x" ]};
                                 VObj {[ "login"%string := VStr "org-y" ]} ]))
            else if String.eqb (req_url r) "https://api.github.com/orgs/org-y/repos"
            then Response 200 None (Some (VArr [api_repo 3 "theirs" "org-y"]))
            else Response 401 None None;
          elapsed := 120 |};
     fits := λ _ _, true; stack := 8;
     to_number := λ _, None; parse_int := λ _, None;
     to_string := λ _, ""%string; inherits := es2023 |}.

(** GitHub for a user with the repositories A (id 1) and B (id 2) who
    belongs to [org-y], whose repositories are B2 (id 2) and C (id 3). *)
Definition shared_repo : env :=
  {| net := λ _ r,
       {| answered :=
            if String.eqb (req_url r) "https://api.github.com/user/repos"
            then Response 200 None
                   (Some (VArr [ api_repo 1 "A" "octocat";
                                 api_repo 2 "B" "octocat" ]))
            else if String.eqb (req_url r) "https://api.github.com/user/orgs"
            then Response 200 None
                   (Some (VArr [ VObj {[ "login"%string := VStr "org-y" ]} ]))
            else if String.eqb (req_url r) "https://api.github.com/orgs/org-y/repos"
            then Response 200 None
                   (Some (VArr [ api_repo 2 "B2" "org-y";
                                 api_repo 3 "C" "org-y" ]))
            else Response 404 None None;
          elapsed := 120 |};
     fits := λ _ _, true; stack := 8;
     to_number := λ _, None; parse_int := λ _, None;
     to_string := λ _, ""%string; inherits := es2023 |}.

(** The name of a repository. *)
Definition name_of (r : value) : js := own_props (Some r) !! "name".

(** The array a computation returned, if it returned one. *)
Definition returned_array (o : outcome value) : list value :=
  match o with
  | Ret (VArr l) => l
  | _ => []
  end.

(** Signed in, with a list of organizations stored long ago. *)
Definition stale_orgs : world :=
  {| localStorage :=
       list_to_map
         [ ("github_pat"%string, Raw "ghp_token");
           ("organizations"%string,
            Ser (VArr [VObj {[ "login"%string := VStr "org-x" ]}]));
           ("organizations_timestamp"%string, Ser (VNum 1000)) ];
     sessionStorage := ∅; clock := 1700000000000; sent := [];
     href := "dashboard.html" |}.

(** Signed in for the session only, with a repository list cached that
    never expires. *)
Definition session_only : world :=
  {| localStorage := ∅;
     sessionStorage :=
       list_to_map
         [ ("github_pat"%string, Raw "ghp_token");
           ("api_cache"%string,
            Ser (VObj {[ "repositories_all"%string :=
                           cache_entry (VArr [repo_stub 1 "A"]) 0 0 ]})) ];
     clock := 1700000000000; sent := []; href := "dashboard.html" |}.

(** A network on which every page is full. *)
Definition endless : env :=
  answering (Response 200 None (Some (VArr (page_of 100)))).

(** * Properties *)

(** ** Basic facts about the storage wrapper *)

Lemma getActiveStorage_run w : getActiveStorage w = (Ret (active w), w).
Proof. reflexivity. Qed.

Lemma getStoredPAT_run w : getStoredPAT w = (Ret (stored_pat w), w).
Proof. reflexivity. Qed.

Lemma text_truthy_Ser v : text_truthy (Some (Ser v)) = true.
Proof. reflexivity. Qed.

Lemma getCache_run w : getCache w = (Ret (cache_of w), w).
Proof.
  unfold getCache, cache_of, bind, getItem; rewrite getActiveStorage_run.
  destruct (items (active w) w !! STORAGE_KEYS_CACHE) as [[s|v]|]; simpl; try done.
  by destruct (negb (String.eqb s "")).
Qed.

Lemma getTrackedRepos_run w : getTrackedRepos w = (Ret (tracked_of w), w).
Proof.
  unfold getTrackedRepos, tracked_of, bind, getItem; rewrite getActiveStorage_run.
  destruct (items (active w) w !! STORAGE_KEYS_TRACKED_REPOS) as [[s|v]|];
    simpl; try done.
  by destruct (negb (String.eqb s "")).
Qed.

Lemma getDashboardSettings_run w :
  getDashboardSettings w = (Ret (settings_of w), w).
Proof.
  unfold getDashboardSettings, settings_of, bind, getItem;
    rewrite getActiveStorage_run.
  destruct (items (active w) w !! STORAGE_KEYS_DASHBOARD_SETTINGS) as [[s|v]|];
    simpl; try done.
  by destruct (negb (String.eqb s "")).
Qed.

Lemma safeSetItem_at_accepted E d key v w :
  accepts E w key v →
  safeSetItem_at E d key v false w = (Ret tt, written w key v).
Proof.
  unfold accepts, written. intros Hfit.
  destruct d; simpl; unfold bind, try_catch, setItem;
    rewrite getActiveStorage_run; by rewrite Hfit.
Qed.

Lemma safeSetItem_accepted E key v w :
  accepts E w key v → safeSetItem E key v false w = (Ret tt, written w key v).
Proof. apply safeSetItem_at_accepted. Qed.

Lemma items_written_same w key v :
  items (active w) (written w key v) = <[key := v]> (items (active w) w).
Proof. unfold written. by destruct (active w). Qed.

Lemma localStorage_written_pat w key v :
  key ≠ STORAGE_KEYS_PAT →
  localStorage (written w key v) !! STORAGE_KEYS_PAT
  = localStorage w !! STORAGE_KEYS_PAT.
Proof.
  intros Hne. unfold written. destruct (active w); simpl; [|done].
  by rewrite lookup_insert_ne.
Qed.

Lemma active_written w key v :
  key ≠ STORAGE_KEYS_PAT → active (written w key v) = active w.
Proof. intros Hne. unfold active. by rewrite localStorage_written_pat. Qed.

Lemma lookup_written w key v :
  key ≠ STORAGE_KEYS_PAT →
  items (active (written w key v)) (written w key v) !! key = Some v.
Proof.
  intros Hne. rewrite active_written by done.
  rewrite items_written_same. apply lookup_insert_eq.
Qed.

Lemma lookup_written_ne w key v k :
  key ≠ STORAGE_KEYS_PAT → k ≠ key →
  items (active (written w key v)) (written w key v) !! k
  = items (active w) w !! k.
Proof.
  intros Hne Hk. rewrite active_written by done.
  rewrite items_written_same. by apply lookup_insert_ne.
Qed.

(** ** C9: dashboard settings are merged, never replaced *)

Lemma settings_of_covers_defaults w f :
  settings_of w !! f = None → DEFAULT_DASHBOARD_SETTINGS !! f = None.
Proof.
  unfold settings_of, spread.
  destruct (items (active w) w !! STORAGE_KEYS_DASHBOARD_SETTINGS) as [[s|v]|];
    try done.
  rewrite lookup_union_None. by intros [_ H].
Qed.

Lemma settings_of_written w (new : gmap string value) f :
  settings_of (written w STORAGE_KEYS_DASHBOARD_SETTINGS (JSON_stringify (VObj new))) !! f
  = match new !! f with
    | Some v => Some v
    | None => DEFAULT_DASHBOARD_SETTINGS !! f
    end.
Proof.
  unfold settings_of. rewrite lookup_written by done.
  unfold JSON_stringify, spread; simpl.
  destruct (new !! f) as [v|] eqn:Hf.
  - by apply lookup_union_Some_l.
  - rewrite lookup_union_r; done.
Qed.

(** C9.  For every world and every update object [upd], when the browser
    accepts the write, [setDashboardSettings upd] returns, and the settings
    read afterwards hold, for every field, the value of [upd] where [upd]
    has the field and the value read before where it has not.  In
    particular [setDashboardSettings({theme: 'dark'})] changes the theme and
    nothing else. *)
Theorem setDashboardSettings_shallow_merge (E : env) (w : world)
    (upd : gmap string value) :
  accepts E w STORAGE_KEYS_DASHBOARD_SETTINGS
    (JSON_stringify (VObj (spread (Some (VObj (settings_of w))) (Some (VObj upd))))) →
  ∃ w',
    setDashboardSettings E (Some (VObj upd)) w = (Ret tt, w') ∧
    getDashboardSettings w' = (Ret (settings_of w'), w') ∧
    (∀ f v, upd !! f = Some v → settings_of w' !! f = Some v) ∧
    (∀ f, upd !! f = None → settings_of w' !! f = settings_of w !! f) ∧
    (upd = {[ "theme" := VStr "dark" ]} →
     settings_of w' = <[ "theme" := VStr "dark" ]> (settings_of w)).
Proof.
  intros Hacc. eexists. split.
  { unfold setDashboardSettings, bind. rewrite getDashboardSettings_run.
    by apply safeSetItem_accepted. }
  split; [apply getDashboardSettings_run|].
  assert (Hget : ∀ f,
    settings_of (written w STORAGE_KEYS_DASHBOARD_SETTINGS
      (JSON_stringify (VObj (spread (Some (VObj (settings_of w))) (Some (VObj upd))))))
      !! f
    = match upd !! f with Some v => Some v | None => settings_of w !! f end).
  { intros f. rewrite settings_of_written. unfold spread; simpl.
    destruct (upd !! f) as [v|] eqn:Hf.
    - by rewrite (lookup_union_Some_l _ _ _ _ Hf).
    - rewrite lookup_union_r by done.
      destruct (settings_of w !! f) eqn:Hs; [done|].
      by apply settings_of_covers_defaults in Hs. }
  split; [|split].
  - intros f v Hf. by rewrite Hget, Hf.
  - intros f Hf. by rewrite Hget, Hf.
  - intros ->. apply map_eq. intros f. rewrite Hget.
    destruct (decide (f = "theme")) as [->|Hne].
    + by rewrite lookup_singleton_eq, lookup_insert_eq.
    + by rewrite lookup_singleton_ne, lookup_insert_ne.
Qed.

(** Witness of C9 in a browser with room, from the default settings. *)
Lemma setDashboardSettings_shallow_merge_witness :
  ∃ w',
    setDashboardSettings roomy (Some (VObj {[ "theme" := VStr "dark" ]})) signed_in
    = (Ret tt, w') ∧
    settings_of w' !! "theme" = Some (VStr "dark") ∧
    settings_of w' !! "view_mode" = Some (VStr "grid").
Proof.
  destruct (setDashboardSettings_shallow_merge roomy signed_in
              {[ "theme" := VStr "dark" ]}) as (w' & Hrun & _ & Hin & Hout & _).
  - reflexivity.
  - exists w'. split; [exact Hrun|]. split.
    + apply Hin. reflexivity.
    + rewrite Hout; reflexivity.
Defined.

(** ** What a write leaves alone *)

Lemma same_but_cache_refl w : same_but_cache w w.
Proof. by intros a k _. Qed.

Lemma same_but_cache_trans w1 w2 w3 :
  same_but_cache w1 w2 → same_but_cache w2 w3 → same_but_cache w1 w3.
Proof. intros H12 H23 a k Hk. rewrite H23, H12; done. Qed.

Lemma items_with_items a b m w :
  items a (with_items b m w) = if decide (a = b) then m else items a w.
Proof. by destruct a, b. Qed.

Lemma same_but_cache_insert b v w :
  same_but_cache w (with_items b (<[STORAGE_KEYS_CACHE := v]> (items b w)) w).
Proof.
  intros a k Hk. rewrite items_with_items. case_decide; [subst|done].
  by rewrite lookup_insert_ne.
Qed.

Lemma same_but_cache_delete b w :
  same_but_cache w (with_items b (delete STORAGE_KEYS_CACHE (items b w)) w).
Proof.
  intros a k Hk. rewrite items_with_items. case_decide; [subst|done].
  by rewrite lookup_delete_ne.
Qed.

Lemma same_but_cache_active w w' : same_but_cache w w' → active w' = active w.
Proof.
  intros H. unfold active.
  change (localStorage w') with (items Local w').
  by rewrite (H Local STORAGE_KEYS_PAT).
Qed.

Lemma same_but_cache_tracked w w' :
  same_but_cache w w' → tracked_of w' = tracked_of w.
Proof.
  intros H. unfold tracked_of. rewrite (same_but_cache_active _ _ H).
  by rewrite H.
Qed.

Lemma storage_choice (useSession : bool) w :
  (if useSession then ret Session else getActiveStorage) w
  = (Ret (area_of useSession w), w).
Proof. by destruct useSession. Qed.

(** A call of [safeSetItem] either returns, having written the item at the
    first attempt, or throws, having touched nothing but the cache. *)
Lemma safeSetItem_at_cases E d key v useSession w :
  (fits E (area_of useSession w) (<[key := v]> (items (area_of useSession w) w)) = true ∧
   safeSetItem_at E d key v useSession w
   = (Ret tt, with_items (area_of useSession w)
                (<[key := v]> (items (area_of useSession w) w)) w))
  ∨ (fits E (area_of useSession w) (<[key := v]> (items (area_of useSession w) w)) = false ∧
     ∃ e w', safeSetItem_at E d key v useSession w = (Throw e, w') ∧
             thrown_on_quota e ∧ same_but_cache w w').
Proof.
  revert key v useSession w. induction d as [|d IH]; intros key v useSession w.
  - destruct (fits E (area_of useSession w) _) eqn:Hfit; [left|right];
      (split; [done|]).
    + simpl. unfold bind, try_catch, setItem.
      rewrite storage_choice. by rewrite Hfit.
    + exists RangeError, w. split; [|split; [by right; left|apply same_but_cache_refl]].
      simpl. unfold bind, try_catch, setItem.
      rewrite storage_choice. by rewrite Hfit.
  - destruct (fits E (area_of useSession w) _) eqn:Hfit; [left|right];
      (split; [done|]).
    + simpl. unfold bind, try_catch, setItem.
      rewrite storage_choice. by rewrite Hfit.
    + assert (Hstep : safeSetItem_at E (S d) key v useSession w
        = bind (handleQuotaExceeded_with E
                  (λ cache, safeSetItem_at E d STORAGE_KEYS_CACHE
                              (JSON_stringify cache) false))
               (λ _, setItem E (area_of useSession w) key v) w).
      { simpl. unfold bind at 1, try_catch, setItem at 1.
        rewrite storage_choice. by rewrite Hfit. }
      rewrite Hstep. clear Hstep.
      unfold handleQuotaExceeded_with, clearStaleCache_with, bind.
      rewrite getCache_run. unfold Date_now.
      destruct (existsb _ _).
      { exists TypeError, w.
        split; [done|split; [by right; right|apply same_but_cache_refl]]. }
      destruct (IH STORAGE_KEYS_CACHE
                  (JSON_stringify (VObj (delete "__proto__" (filter
                     (λ kv : string * value, keeps E (clock w) kv.2 = true)
                     (own_props (Some (cache_of w))))))) false w)
        as [[_ Hrun]|[_ (e & w' & Hrun & He & Hsame)]]; rewrite Hrun.
      * rewrite getActiveStorage_run. unfold removeItem, throw.
        eexists _, _. split; [done|]. split; [by left|].
        eapply same_but_cache_trans; [apply same_but_cache_insert|].
        apply same_but_cache_delete.
      * by exists e, w'.
Qed.

Lemma setTrackedRepos_cases E repos w :
  (setTrackedRepos E repos w
   = (Ret tt, written w STORAGE_KEYS_TRACKED_REPOS (JSON_stringify repos)))
  ∨ (∃ e w', setTrackedRepos E repos w = (Throw e, w') ∧ same_but_cache w w').
Proof.
  unfold setTrackedRepos, safeSetItem.
  destruct (safeSetItem_at_cases E (stack E) STORAGE_KEYS_TRACKED_REPOS
              (JSON_stringify repos) false w)
    as [[_ H]|[_ (e & w' & H & _ & Hsame)]]; [left|right]; [done|].
  by exists e, w'.
Qed.

Lemma tracked_of_written w repos :
  tracked_of (written w STORAGE_KEYS_TRACKED_REPOS (JSON_stringify repos)) = repos.
Proof. unfold tracked_of. by rewrite lookup_written. Qed.

(** ** C10: the ids of the tracked list *)

Lemma strict_eq_sym a b : strict_eq a b = strict_eq b a.
Proof.
  destruct a as [[]|], b as [[]|]; simpl; try done.
  - by destruct b, b0.
  - apply Z.eqb_sym.
  - apply String.eqb_sym.
Qed.

Lemma prop_id_of r : r ≠ VNull → prop (Some r) "id" = Some (id_of r).
Proof. by destruct r. Qed.

Lemma prop_Some_inv (x : js) k y : prop x k = Some y → y = own_props x !! k.
Proof. unfold prop. destruct (is_nullish x); congruence. Qed.

Lemma prop_Some_not_null r k y : prop (Some r) k = Some y → r ≠ VNull.
Proof. by destruct r. Qed.

Lemma distinct_cons i ids :
  distinct (i :: ids) = true
  ↔ Forall (λ j, strict_eq i j = false) ids ∧ distinct ids = true.
Proof.
  simpl. rewrite andb_true_iff, forallb_forall, Forall_forall.
  split; intros [H1 H2]; (split; [|done]); intros j Hj.
  - apply list_elem_of_In, H1 in Hj. by apply negb_true_iff.
  - apply negb_true_iff, H1. by apply list_elem_of_In.
Qed.

Lemma distinct_snoc ids i :
  distinct ids = true → Forall (λ j, strict_eq j i = false) ids →
  distinct (ids ++ [i]) = true.
Proof.
  induction ids as [|j ids IH]; intros Hd Hall; [done|].
  apply distinct_cons in Hd as [Hj Hd]. inversion Hall as [|? ? Hji Hrest]; subst.
  rewrite <- app_comm_cons. apply distinct_cons. split; [|by apply IH].
  apply Forall_app. split; [done|]. by repeat constructor.
Qed.

Lemma some_id_false l repo id :
  prop repo "id" = Some id → some_id l repo = Some false →
  Forall (λ r, strict_eq (id_of r) id = false) l.
Proof.
  intros Hid. induction l as [|r l IH]; intros Hsome; [constructor|].
  simpl in Hsome. rewrite Hid in Hsome.
  destruct (prop (Some r) "id") as [rid|] eqn:Hr; [|done].
  pose proof (prop_Some_inv _ _ _ Hr) as ->.
  destruct (strict_eq _ id) eqn:Heq; [done|].
  constructor; [done|by apply IH].
Qed.

Lemma some_id_true l repo r :
  Forall (λ x, x ≠ VNull) l → is_nullish repo = false → r ∈ l →
  strict_eq (id_of r) (own_props repo !! "id") = true →
  some_id l repo = Some true.
Proof.
  intros Hnn Hrepo Hin Heq.
  assert (Hid : prop repo "id" = Some (own_props repo !! "id")).
  { unfold prop. by rewrite Hrepo. }
  induction l as [|x l IH]; [by apply elem_of_nil in Hin|].
  inversion Hnn as [|? ? Hx Hl]; subst.
  simpl. rewrite Hid, (prop_id_of x Hx).
  destruct (strict_eq (id_of x) _) eqn:Hxeq; [done|].
  apply elem_of_cons in Hin as [->|Hin]; [congruence|by apply IH].
Qed.

Lemma filter_id_distinct l repoId kept :
  filter_id l repoId = Some kept → distinct_ids l = true →
  distinct_ids kept = true ∧ ∀ P, Forall P (id_of <$> l) → Forall P (id_of <$> kept).
Proof.
  revert kept. induction l as [|r l IH]; intros kept Hf Hd.
  - injection Hf as <-. by split.
  - simpl in Hf. destruct (prop (Some r) "id") as [rid|]; [|done].
    destruct (filter_id l repoId) as [k|] eqn:Hk; [|done].
    injection Hf as <-.
    unfold distinct_ids in Hd. rewrite fmap_cons in Hd.
    apply distinct_cons in Hd as [Hr Hd].
    destruct (IH k eq_refl Hd) as [IHd IHP].
    destruct (strict_eq rid repoId).
    + split; [done|]. intros P HP. rewrite fmap_cons in HP.
      inversion HP; subst. by apply IHP.
    + split.
      * unfold distinct_ids. rewrite fmap_cons. apply distinct_cons.
        split; [by apply IHP|done].
      * intros P HP. rewrite !fmap_cons in *. inversion HP; subst.
        constructor; [done|by apply IHP].
Qed.

Lemma findIndex_id_found l repoId i :
  findIndex_id l repoId = Some (Some i) → ∃ r, l !! i = Some r ∧ r ≠ VNull.
Proof.
  revert i. induction l as [|x l IH]; intros i Hf; [done|].
  simpl in Hf. destruct (prop (Some x) "id") as [rid|] eqn:Hx; [|done].
  destruct (strict_eq rid repoId).
  - injection Hf as <-. exists x. split; [done|by eapply prop_Some_not_null].
  - destruct (findIndex_id l repoId) as [[j|]|]; try done.
    injection Hf as <-. by apply IH.
Qed.

Lemma lookup_obj_of_cons k k' (x : js) fields :
  obj_of ((k', x) :: fields) !! k
  = if decide (k' = k) then match x with
                            | Some v => Some v
                            | None => obj_of fields !! k
                            end
    else obj_of fields !! k.
Proof.
  unfold obj_of. simpl. destruct x as [v|]; simpl.
  - case_decide; [subst; apply lookup_insert_eq|by apply lookup_insert_ne].
  - by case_decide.
Qed.

Lemma id_of_spread_no_id r updates :
  own_props updates !! "id" = None →
  id_of (VObj (spread (Some r) updates)) = id_of r.
Proof.
  intros Hno. unfold id_of, spread. simpl. by rewrite lookup_union_r.
Qed.

Lemma addTrackedRepo_preserves E repo w :
  tracked_distinct w → tracked_distinct (addTrackedRepo E repo w).2.
Proof.
  intros Hinv. unfold addTrackedRepo, bind. rewrite getTrackedRepos_run.
  destruct (tracked_of w) as [| | | |l|] eqn:Ht; try exact Hinv.
  simpl. destruct (some_id l repo) as [[|]|] eqn:Hsome; try exact Hinv.
  simpl. unfold prop. destruct (is_nullish repo) eqn:Hnn; [exact Hinv|].
  unfold or_TypeError, ret.
  match goal with
  | |- context [setTrackedRepos E ?repos w] =>
      destruct (setTrackedRepos_cases E repos w)
        as [Hrun|(e & w' & Hrun & Hsame)]; rewrite Hrun; simpl
  end.
  - intros l' Hl'. rewrite tracked_of_written in Hl'. injection Hl' as <-.
    unfold distinct_ids. rewrite fmap_app. apply distinct_snoc.
    + by apply Hinv.
    + apply Forall_fmap. simpl.
      assert (Hid : prop repo "id" = Some (own_props repo !! "id")).
      { unfold prop. by rewrite Hnn. }
      pose proof (some_id_false _ _ _ Hid Hsome) as Hall.
      eapply Forall_impl; [exact Hall|]. intros r Hr. simpl.
      unfold id_of at 2. simpl. rewrite lookup_obj_of_cons.
      rewrite decide_True by done.
      destruct (own_props repo !! "id") as [v|] eqn:Hv; [done|].
      repeat (rewrite lookup_obj_of_cons, decide_False by discriminate).
      exact Hr.
  - intros l' Hl'. apply Hinv. by rewrite <- (same_but_cache_tracked _ _ Hsame).
Qed.

Lemma removeTrackedRepo_preserves E repoId w :
  tracked_distinct w → tracked_distinct (removeTrackedRepo E repoId w).2.
Proof.
  intros Hinv. unfold removeTrackedRepo, bind. rewrite getTrackedRepos_run.
  destruct (tracked_of w) as [| | | |l|] eqn:Ht; try exact Hinv.
  simpl. destruct (filter_id l repoId) as [kept|] eqn:Hf; [|exact Hinv].
  simpl. destruct (length kept =? length l)%nat; [exact Hinv|].
  destruct (setTrackedRepos_cases E (VArr kept) w)
    as [Hrun|(e & w' & Hrun & Hsame)]; rewrite Hrun; simpl.
  - intros l' Hl'. rewrite tracked_of_written in Hl'. injection Hl' as <-.
    by apply (filter_id_distinct l repoId kept Hf), Hinv.
  - intros l' Hl'. apply Hinv. by rewrite <- (same_but_cache_tracked _ _ Hsame).
Qed.

Lemma updateTrackedRepo_preserves E repoId updates w :
  own_props updates !! "id" = None →
  tracked_distinct w → tracked_distinct (updateTrackedRepo E repoId updates w).2.
Proof.
  intros Hno Hinv. unfold updateTrackedRepo, bind. rewrite getTrackedRepos_run.
  destruct (tracked_of w) as [| | | |l|] eqn:Ht; try exact Hinv.
  simpl. destruct (findIndex_id l repoId) as [[i|]|] eqn:Hf; try exact Hinv.
  simpl. destruct (findIndex_id_found _ _ _ Hf) as (r & Hr & _).
  destruct (setTrackedRepos_cases E
              (VArr (<[i := VObj (spread (l !! i) updates)]> l)) w)
    as [Hrun|(e & w' & Hrun & Hsame)]; rewrite Hrun; simpl.
  - intros l' Hl'. rewrite tracked_of_written in Hl'. injection Hl' as <-.
    unfold distinct_ids. rewrite list_fmap_insert, Hr, id_of_spread_no_id by done.
    rewrite list_insert_id; [by apply Hinv|].
    by rewrite list_lookup_fmap, Hr.
  - intros l' Hl'. apply Hinv. by rewrite <- (same_but_cache_tracked _ _ Hsame).
Qed.

Lemma addTrackedRepo_known E repo w l r :
  tracked_of w = VArr l → Forall (λ x, x ≠ VNull) l →
  is_nullish repo = false → r ∈ l →
  strict_eq (id_of r) (own_props repo !! "id") = true →
  addTrackedRepo E repo w = (Ret false, w).
Proof.
  intros Ht Hnn Hrepo Hin Heq.
  unfold addTrackedRepo, bind. rewrite getTrackedRepos_run, Ht. simpl.
  by rewrite (some_id_true l repo r).
Qed.

Lemma tracked_of_tracking_two :
  tracked_of tracking_two = VArr [repo_stub 1 "A"; repo_stub 2 "B"].
Proof. reflexivity. Qed.

Lemma tracking_two_distinct : tracked_distinct tracking_two.
Proof.
  intros l Hl. rewrite tracked_of_tracking_two in Hl. injection Hl as <-.
  reflexivity.
Qed.

(** C10, as the code has it.  In every world whose tracked list has
    pairwise different ids: [addTrackedRepo] of a repository whose id is
    the id of an entry of the stored list (an array without [null]
    entries) returns [false] and leaves the world as it was; whatever
    [addTrackedRepo] and [removeTrackedRepo] do, returning or throwing, the
    ids of the stored list are pairwise different afterwards; and so they
    are after [updateTrackedRepo], when the update has no [id] property. *)
Theorem tracked_ids_stay_distinct (E : env) (w : world) :
  tracked_distinct w →
  (∀ l repo r,
     tracked_of w = VArr l → Forall (λ x, x ≠ VNull) l →
     is_nullish repo = false → r ∈ l →
     strict_eq (id_of r) (own_props repo !! "id") = true →
     addTrackedRepo E repo w = (Ret false, w)) ∧
  (∀ repo, tracked_distinct (addTrackedRepo E repo w).2) ∧
  (∀ repoId, tracked_distinct (removeTrackedRepo E repoId w).2) ∧
  (∀ repoId updates,
     own_props updates !! "id" = None →
     tracked_distinct (updateTrackedRepo E repoId updates w).2).
Proof.
  intros Hinv. split; [|split; [|split]].
  - intros l repo r. apply addTrackedRepo_known.
  - intros repo. by apply addTrackedRepo_preserves.
  - intros repoId. by apply removeTrackedRepo_preserves.
  - intros repoId updates Hno. by apply updateTrackedRepo_preserves.
Qed.

(** Witness of C10: tracking repositories 1 and 2, adding 2 again is
    refused, and adding 3, removing 1 or pinning 2 keeps the ids apart. *)
Lemma tracked_ids_stay_distinct_witness :
  tracked_distinct tracking_two ∧
  addTrackedRepo roomy (Some (repo_stub 2 "B")) tracking_two
  = (Ret false, tracking_two) ∧
  tracked_distinct (addTrackedRepo roomy (Some (repo_stub 3 "C")) tracking_two).2 ∧
  tracked_distinct (removeTrackedRepo roomy (Some (VNum 1)) tracking_two).2 ∧
  tracked_distinct
    (updateTrackedRepo roomy (Some (VNum 2))
       (Some (VObj {[ "pinned" := VBool true ]})) tracking_two).2.
Proof.
  split; [exact tracking_two_distinct|].
  destruct (tracked_ids_stay_distinct roomy tracking_two tracking_two_distinct)
    as (Hknown & Hadd & Hremove & Hupdate).
  split; [|split; [|split]].
  - apply (Hknown [repo_stub 1 "A"; repo_stub 2 "B"] _ (repo_stub 2 "B")).
    + reflexivity.
    + repeat constructor; discriminate.
    + reflexivity.
    + apply elem_of_cons. right. apply elem_of_cons. by left.
    + reflexivity.
  - apply Hadd.
  - apply Hremove.
  - apply Hupdate. reflexivity.
Defined.

(** Counterexample to C10 as stated: an update that carries an [id] makes
    two entries of the tracked list share it. *)
Lemma updateTrackedRepo_can_duplicate_ids :
  tracked_distinct tracking_two ∧
  ¬ tracked_distinct
      (updateTrackedRepo roomy (Some (VNum 1))
         (Some (VObj {[ "id" := VNum 2 ]})) tracking_two).2.
Proof.
  split; [exact tracking_two_distinct|].
  intros H. specialize (H _ eq_refl). vm_compute in H. discriminate H.
Qed.

(** ** C2: a write that hits the quota *)

(** C2, where the code departs from it.  Whenever the browser refuses the
    item at the first attempt, [safeSetItem] throws: the error of
    [handleQuotaExceeded] (or a stack overflow, or a [TypeError]) reaches
    the caller, and every key but the cache is as it was, so the item is
    not written, whatever room the eviction made. *)
Theorem safeSetItem_never_retries (E : env) (key : string) (v : text)
    (useSession : bool) (w : world) :
  fits E (area_of useSession w)
    (<[key := v]> (items (area_of useSession w) w)) = false →
  ∃ e w',
    safeSetItem E key v useSession w = (Throw e, w') ∧
    thrown_on_quota e ∧ same_but_cache w w'.
Proof.
  intros Hfit. unfold safeSetItem.
  destruct (safeSetItem_at_cases E (stack E) key v useSession w)
    as [[Hyes _]|[_ H]]; [congruence|exact H].
Qed.

(** Witness of C2: with a quota of 120 the world [half_stale] has no room
    for an empty tracked list, and would have it once the expired cache
    entry is evicted. *)
Lemma safeSetItem_never_retries_witness :
  fits (tight 120) (active half_stale)
    (<[STORAGE_KEYS_TRACKED_REPOS := JSON_stringify (VArr [])]>
       (items (active half_stale) half_stale)) = false ∧
  fits (tight 120) (active only_fresh)
    (<[STORAGE_KEYS_TRACKED_REPOS := JSON_stringify (VArr [])]>
       (items (active only_fresh) only_fresh)) = true ∧
  ∃ e w',
    safeSetItem (tight 120) STORAGE_KEYS_TRACKED_REPOS (JSON_stringify (VArr []))
      false half_stale = (Throw e, w') ∧
    thrown_on_quota e ∧ same_but_cache half_stale w'.
Proof.
  split; [reflexivity|]. split; [reflexivity|].
  apply (safeSetItem_never_retries (tight 120) STORAGE_KEYS_TRACKED_REPOS
           (JSON_stringify (VArr [])) false half_stale).
  reflexivity.
Defined.

(** The run at that input: the error is thrown, the whole cache is gone
    (the fresh entry with it), and the tracked list is not stored. *)
Lemma safeSetItem_at_half_stale :
  safeSetItem (tight 120) STORAGE_KEYS_TRACKED_REPOS (JSON_stringify (VArr []))
    false half_stale
  = (Throw (Error "STORAGE_QUOTA_EXCEEDED"), signed_in).
Proof. vm_compute. reflexivity. Qed.

(** ** C3: freshness of the cache *)

Lemma getCachedValue_obj E key w c :
  cache_of w = VObj c →
  getCachedValue E key w = (read_entry E (obj_member c key) (clock w), w).
Proof.
  intros Hc. unfold getCachedValue, bind. rewrite getCache_run, Hc.
  cbn [member_of or_TypeError ret]. unfold read_entry.
  destruct (negb (member_truthy (obj_member c key))); [done|].
  destruct (member_prop (obj_member c key) "expires") as [expires|];
    cbn [or_TypeError ret throw]; [|done].
  unfold Date_now.
  destruct (truthy expires && now_gt E (clock w) expires); [done|].
  by destruct (member_prop (obj_member c key) "data").
Qed.

Lemma getCachedValue_entry E w key c en expires :
  cache_of w = VObj c → c !! key = Some (VObj en) →
  en !! "expires" = Some (VNum expires) →
  getCachedValue E key w
  = (Ret (if negb (expires =? 0) && (expires <? clock w)
          then Some VNull else en !! "data"), w).
Proof.
  intros Hc Hk He. rewrite (getCachedValue_obj E key w c Hc).
  unfold read_entry, obj_member. rewrite Hk. simpl. rewrite He. simpl.
  unfold now_gt; simpl.
  by destruct (negb (expires =? 0) && (expires <? clock w)).
Qed.

Lemma getCachedValue_missing E w key c :
  cache_of w = VObj c → c !! key = None → key ∉ Object_prototype →
  getCachedValue E key w = (Ret (Some VNull), w).
Proof.
  intros Hc Hk Hno. rewrite (getCachedValue_obj E key w c Hc).
  unfold read_entry, obj_member. rewrite Hk.
  by rewrite bool_decide_eq_false_2.
Qed.

Lemma repositories_all_plain : "repositories_all"%string ∉ Object_prototype.
Proof.
  unfold Object_prototype. intros Hin.
  repeat (apply elem_of_cons in Hin as [Hin|Hin]; [discriminate Hin|]).
  by apply elem_of_nil in Hin.
Qed.

Lemma getCachedValue_inherited E w key c :
  cache_of w = VObj c → c !! key = None → key ∈ Object_prototype →
  getCachedValue E key w = (Ret undefined, w).
Proof.
  intros Hc Hk Hin. rewrite (getCachedValue_obj E key w c Hc).
  unfold read_entry, obj_member. rewrite Hk.
  by rewrite bool_decide_eq_true_2.
Qed.

Lemma getCachedValue_absent E w key c :
  cache_of w = VObj c → c !! key = None →
  getCachedValue E key w = (Ret (absent key), w).
Proof.
  intros Hc Hk. unfold absent. case_bool_decide.
  - by apply (getCachedValue_inherited E w key c).
  - by apply (getCachedValue_missing E w key c).
Qed.

Lemma read_entry_absent E (c : gmap string value) key now :
  c !! key = None → read_entry E (obj_member c key) now = Ret (absent key).
Proof.
  intros Hk. unfold read_entry, obj_member, absent. rewrite Hk.
  by case_bool_decide.
Qed.

Lemma assigned_insert (o : gmap string value) key entry :
  key ≠ "__proto__"%string ∨ is_Some (o !! key) →
  assigned o key entry = <[key := entry]> o.
Proof.
  intros Hkey. unfold assigned.
  destruct (String.eqb key "__proto__") eqn:Heq; [|done].
  apply String.eqb_eq in Heq. destruct Hkey as [Hne|Hown]; [done|].
  by rewrite bool_decide_eq_true_2.
Qed.

Lemma assigned_proto (o : gmap string value) entry :
  o !! "__proto__" = None → assigned o "__proto__" entry = o.
Proof.
  intros Hnone. unfold assigned. cbn [String.eqb Ascii.eqb Bool.eqb andb].
  rewrite bool_decide_eq_false_2; [done|].
  rewrite Hnone. by intros [? ?].
Qed.

Lemma cache_of_written w cache :
  cache_of (written w STORAGE_KEYS_CACHE (JSON_stringify cache)) = cache.
Proof. unfold cache_of. by rewrite lookup_written. Qed.

Lemma active_with_clock now w : active (with_clock now w) = active w.
Proof. reflexivity. Qed.

Lemma cache_of_with_clock now w : cache_of (with_clock now w) = cache_of w.
Proof. unfold cache_of. rewrite active_with_clock. by destruct (active w). Qed.

Lemma setCachedValue_stored E key data ttl w c :
  cache_of w = VObj c →
  accepts E w STORAGE_KEYS_CACHE
    (JSON_stringify (VObj (assigned c key (entry_of data (clock w) ttl)))) →
  setCachedValue E key data ttl w
  = (Ret tt, written w STORAGE_KEYS_CACHE
               (JSON_stringify (VObj (assigned c key (entry_of data (clock w) ttl))))).
Proof.
  intros Hc Hacc. unfold setCachedValue, bind. rewrite getCache_run, Hc.
  unfold Date_now. cbn [assign ret]. unfold setCache.
  by apply safeSetItem_accepted.
Qed.

Lemma setCachedValue_accepted E key data ttl w c :
  cache_of w = VObj c → key ≠ "__proto__"%string →
  accepts E w STORAGE_KEYS_CACHE
    (JSON_stringify (VObj (<[key := entry_of data (clock w) ttl]> c))) →
  setCachedValue E key data ttl w
  = (Ret tt, written w STORAGE_KEYS_CACHE
               (JSON_stringify (VObj (<[key := entry_of data (clock w) ttl]> c)))).
Proof.
  intros Hc Hkey Hacc.
  rewrite <- (assigned_insert c key (entry_of data (clock w) ttl)) in * by (by left).
  by apply setCachedValue_stored.
Qed.

Lemma entry_of_data (data : js) (e now : Z) :
  obj_of [ ("data", data); ("expires", Some (VNum e)); ("timestamp", Some (VNum now)) ]
  !! "data" = data.
Proof.
  rewrite lookup_obj_of_cons, decide_True by done.
  destruct data; [done|].
  by repeat (rewrite lookup_obj_of_cons, decide_False by discriminate).
Qed.

(** C3, as the code has it.  For every key and every current time, the
    cache being an object.  With no entry under the key the fresh read
    returns [null], unless the key is a name of [Object.prototype]
    ([constructor], [toString], [__proto__], ...): then [cache[key]] is
    the inherited member and the read returns [undefined].  With an entry
    whose [expires] is the number [e], it returns [null] if and only if [e]
    is not 0 and [now > e], or the payload itself is [null], and returns
    the payload otherwise (an entry whose [expires] is 0 never expires).
    A value written by [setCachedValue] with a TTL of [t] minutes, the
    browser accepting the write, is returned unchanged by every read at a
    time [now <= write-time + t * 60000], when the key is not [__proto__]
    (or [__proto__] is an own property of the cache already); under
    [__proto__] otherwise nothing is stored and the read returns
    [undefined]. *)
Theorem cache_freshness (E : env) (w : world) (key : string)
    (c : gmap string value) :
  cache_of w = VObj c →
  (c !! key = None →
   getCachedValue E key w
   = (Ret (if bool_decide (key ∈ Object_prototype) then undefined else Some VNull),
      w)) ∧
  (∀ en e,
     c !! key = Some (VObj en) → en !! "expires" = Some (VNum e) →
     (getCachedValue E key w = (Ret (Some VNull), w)
      ↔ (e ≠ 0 ∧ clock w > e) ∨ en !! "data" = Some VNull) ∧
     (¬ (e ≠ 0 ∧ clock w > e) →
      getCachedValue E key w = (Ret (en !! "data"), w))) ∧
  (∀ data t,
     accepts E w STORAGE_KEYS_CACHE
       (JSON_stringify (VObj (assigned c key (entry_of data (clock w) t)))) →
     ∃ w',
       setCachedValue E key data t w = (Ret tt, w') ∧
       (key ≠ "__proto__"%string ∨ is_Some (c !! key) →
        ∀ now, now ≤ clock w + t * 60 * 1000 →
          getCachedValue E key (with_clock now w') = (Ret data, with_clock now w')) ∧
       (key = "__proto__"%string → c !! key = None →
        cache_of w' = VObj c ∧
        ∀ now, getCachedValue E key (with_clock now w')
               = (Ret undefined, with_clock now w'))).
Proof.
  intros Hc. split; [|split].
  - intros Hk. case_bool_decide.
    + by apply (getCachedValue_inherited E w key c).
    + by apply (getCachedValue_missing E w key c).
  - intros en e Hk He.
    rewrite (getCachedValue_entry E w key c en e Hc Hk He).
    destruct (negb (e =? 0) && (e <? clock w)) eqn:Hexp.
    + apply andb_true_iff in Hexp as [Hz Hlt].
      apply negb_true_iff, Z.eqb_neq in Hz. apply Z.ltb_lt in Hlt.
      assert (Hyes : e ≠ 0 ∧ clock w > e) by (split; [done|lia]).
      split; [|done]. split; [by left|done].
    + assert (Hnot : ¬ (e ≠ 0 ∧ clock w > e)).
      { intros [Hz Hlt]. apply andb_false_iff in Hexp as [Hexp|Hexp].
        - by apply negb_false_iff, Z.eqb_eq in Hexp.
        - apply Z.ltb_ge in Hexp. lia. }
      split; [|done]. split.
      * intros Heq. right. congruence.
      * intros [Hyes|Hnull]; [done|by rewrite Hnull].
  - intros data t Hacc. eexists. split.
    { by apply setCachedValue_stored. }
    split.
    + intros Hkey now Hnow. rewrite (assigned_insert c key _ Hkey).
      rewrite (getCachedValue_entry E _ key (<[key := entry_of data (clock w) t]> c)
                 (obj_of [ ("data", data);
                           ("expires", Some (VNum (clock w + t * 60 * 1000)));
                           ("timestamp", Some (VNum (clock w))) ])
                 (clock w + t * 60 * 1000)).
      * simpl. replace (clock w + t * 60 * 1000 <? now) with false
          by (symmetry; apply Z.ltb_ge; lia).
        rewrite andb_false_r. by rewrite entry_of_data.
      * by rewrite cache_of_with_clock, cache_of_written.
      * apply lookup_insert_eq.
      * rewrite lookup_obj_of_cons, decide_False by discriminate.
        by rewrite lookup_obj_of_cons, decide_True.
    + intros -> Hnone. rewrite (assigned_proto c _ Hnone).
      split; [apply cache_of_written|].
      intros now. apply (getCachedValue_inherited E _ _ c); [|done|].
      * by rewrite cache_of_with_clock, cache_of_written.
      * unfold Object_prototype. set_solver.
Qed.

(** Witness of C3: one entry, expiring at 2000, read at 1500 and at 2500;
    and a write at the clock of [signed_in] read five minutes later. *)
Lemma cache_freshness_witness :
  getCachedValue roomy "k" (with_clock 1500 expiring)
  = (Ret (Some (VNum 7)), with_clock 1500 expiring) ∧
  getCachedValue roomy "k" (with_clock 2500 expiring)
  = (Ret (Some VNull), with_clock 2500 expiring) ∧
  ∃ w',
    setCachedValue roomy "k" (Some (VNum 7)) 5 signed_in = (Ret tt, w') ∧
    getCachedValue roomy "k" (with_clock (clock signed_in + 300000) w')
    = (Ret (Some (VNum 7)), with_clock (clock signed_in + 300000) w').
Proof.
  split; [|split].
  - destruct (cache_freshness roomy (with_clock 1500 expiring) "k"
                {[ "k" := cache_entry (VNum 7) 2000 1000 ]} eq_refl)
      as (_ & Hentry & _).
    destruct (Hentry (list_to_map [ ("data", VNum 7); ("expires", VNum 2000);
                                    ("timestamp", VNum 1000) ]) 2000
                eq_refl eq_refl) as [_ Hfresh].
    apply Hfresh. simpl. lia.
  - destruct (cache_freshness roomy (with_clock 2500 expiring) "k"
                {[ "k" := cache_entry (VNum 7) 2000 1000 ]} eq_refl)
      as (_ & Hentry & _).
    destruct (Hentry (list_to_map [ ("data", VNum 7); ("expires", VNum 2000);
                                    ("timestamp", VNum 1000) ]) 2000
                eq_refl eq_refl) as [Hiff _].
    apply Hiff. left. simpl. lia.
  - destruct (cache_freshness roomy signed_in "k" ∅ eq_refl) as (_ & _ & Hwrite).
    destruct (Hwrite (Some (VNum 7)) 5 eq_refl) as (w' & Hset & Hget & _).
    exists w'. split; [exact Hset|]. apply Hget; [by left|simpl; lia].
Defined.

(** Counterexample to C3 as stated, in both directions: an entry whose
    [expires], 0, lies before the current time is returned by the fresh
    read; and a [null] payload, written with five minutes to live and read
    at once, comes back as [null] long before it expires. *)
Lemma getCachedValue_not_iff_expired :
  (cache_of unexpiring = VObj {[ "repositories_all" := cache_entry (VNum 1) 0 0 ]} ∧
   ¬ (getCachedValue roomy "repositories_all" unexpiring
      = (Ret (Some VNull), unexpiring)
      ↔ clock unexpiring > 0)) ∧
  (cache_of (setCachedValue roomy "k" (Some VNull) 5 signed_in).2
   = VObj {[ "k" := cache_entry VNull (clock signed_in + 300000) (clock signed_in) ]} ∧
   ¬ (getCachedValue roomy "k" (setCachedValue roomy "k" (Some VNull) 5 signed_in).2
      = (Ret (Some VNull), (setCachedValue roomy "k" (Some VNull) 5 signed_in).2)
      ↔ clock (setCachedValue roomy "k" (Some VNull) 5 signed_in).2
        > clock signed_in + 300000)).
Proof.
  split; (split; [vm_compute; reflexivity|]).
  - intros [_ Hexpired].
    assert (Hnow : clock unexpiring > 0) by reflexivity.
    specialize (Hexpired Hnow). vm_compute in Hexpired. discriminate Hexpired.
  - intros [Hfresh _].
    assert (Hnull : getCachedValue roomy "k"
                      (setCachedValue roomy "k" (Some VNull) 5 signed_in).2
                    = (Ret (Some VNull),
                       (setCachedValue roomy "k" (Some VNull) 5 signed_in).2))
      by (vm_compute; reflexivity).
    specialize (Hfresh Hnull). vm_compute in Hfresh. discriminate Hfresh.
Qed.

(** ** C8: a 401 clears the credential *)

Lemma githubAPI_fetches E endpoint w token :
  stored_pat w = Some token → text_truthy (Some token) = true →
  githubAPI E endpoint w
  = bind (fetch E (request_of endpoint token))
      (λ response,
         let '(status, rateLimitRemaining, body) := response in
         if status =? 401 then
           clearAuth ;;;
           set_href "auth.html" ;;;
           throw (Error "INVALID_TOKEN")
         else if status =? 403 then
           match rateLimitRemaining with
           | Some "0"%string => throw (Error "RATE_LIMIT_EXCEEDED")
           | _ => throw (Error "FORBIDDEN")
           end
         else if negb (response_ok status) then
           throw (Error ("API_ERROR: " +:+ pretty status))
         else
           match body with
           | Some v => ret v
           | None => throw SyntaxError
           end) w.
Proof.
  intros Hpat Htruthy. unfold githubAPI, githubAPI_request.
  unfold bind at 1. unfold bind at 1.
  rewrite getStoredPAT_run, Hpat, Htruthy. reflexivity.
Qed.

Lemma fetch_run E r w :
  fetch E r w
  = match answered (net E (sent w) r) with
    | NoResponse =>
        (Throw NetworkError, after_fetch r (elapsed (net E (sent w) r)) w)
    | Response status remaining body =>
        (Ret (status, remaining, body),
         after_fetch r (elapsed (net E (sent w) r)) w)
    end.
Proof. reflexivity. Qed.

(** C8.  For every request of [githubAPI] that is answered with status
    401: the call throws [INVALID_TOKEN], and in the world in which it
    throws the token, the profile, the organizations and their timestamp
    are absent from both storage areas, so that no credential is stored,
    and the page is sent to [auth.html]. *)
Theorem githubAPI_401_clears_credential (E : env) (endpoint : target)
    (w : world) (token : text) (remaining : option string)
    (body : option value) :
  stored_pat w = Some token → text_truthy (Some token) = true →
  answered (net E (sent w) (request_of endpoint token))
  = Response 401 remaining body →
  ∃ w',
    githubAPI E endpoint w = (Throw (Error "INVALID_TOKEN"), w') ∧
    (∀ a k, k ∈ auth_keys → items a w' !! k = None) ∧
    getStoredPAT w' = (Ret None, w') ∧
    href w' = "auth.html"%string.
Proof.
  intros Hpat Htruthy Hans.
  rewrite (githubAPI_fetches E endpoint w token Hpat Htruthy).
  unfold bind at 1. rewrite fetch_run, Hans. simpl.
  eexists. split; [reflexivity|]. split; [|split; [|reflexivity]].
  - intros a k Hk. unfold auth_keys in Hk.
    repeat (apply elem_of_cons in Hk as [->|Hk]);
      try (by apply elem_of_nil in Hk);
      destruct a; simpl; by simplify_map_eq.
  - rewrite getStoredPAT_run. f_equal. unfold stored_pat, text_or. simpl.
    by simplify_map_eq.
Qed.

(** Witness of C8: a signed-in world with a profile, and a network that
    answers 401. *)
Lemma githubAPI_401_clears_credential_witness :
  ∃ w',
    githubAPI (answering (Response 401 None None))
      {| path := "/user"; query := [] |} profiled
    = (Throw (Error "INVALID_TOKEN"), w') ∧
    items Local w' !! "user_info" = None ∧
    getStoredPAT w' = (Ret None, w').
Proof.
  destruct (githubAPI_401_clears_credential (answering (Response 401 None None))
              {| path := "/user"; query := [] |} profiled (Raw "ghp_token")
              None None eq_refl eq_refl eq_refl)
    as (w' & Hrun & Hkeys & Hpat & _).
  exists w'. split; [exact Hrun|]. split; [|exact Hpat].
  apply Hkeys. apply elem_of_cons. right. apply elem_of_cons. by left.
Defined.

(** ** C7: a sync without a credential *)

Lemma requireAuth_run w :
  requireAuth w
  = if text_truthy (stored_pat w) then (Ret true, w) else (Ret false, redirected w).
Proof.
  unfold requireAuth, bind. rewrite getStoredPAT_run.
  by destruct (text_truthy (stored_pat w)).
Qed.

(** C7, as the code has it.  For every sync called while no credential is
    stored: the page is sent to [auth.html], the sync returns to its
    caller (an empty list for the repositories and the organizations,
    [null] for the profile) and no request is sent. *)
Theorem sync_without_credential (E : env) (fuel : nat) (forceRefresh : bool)
    (w : world) :
  text_truthy (stored_pat w) = false →
  initRepositories E fuel forceRefresh w = (Ret (Some (VArr [])), redirected w) ∧
  initOrganizations E forceRefresh w = (Ret (VArr []), redirected w) ∧
  initUserInfo E forceRefresh w = (Ret VNull, redirected w) ∧
  sent (redirected w) = sent w ∧
  href (redirected w) = "auth.html"%string.
Proof.
  intros Hno.
  unfold initRepositories, initOrganizations, initUserInfo, bind.
  rewrite requireAuth_run, Hno. done.
Qed.

(** Witness of C7 in the world where nobody is signed in. *)
Lemma sync_without_credential_witness :
  initRepositories roomy 1 false signed_out
  = (Ret (Some (VArr [])), redirected signed_out) ∧
  sent (redirected signed_out) = [].
Proof.
  destruct (sync_without_credential roomy 1 false signed_out eq_refl)
    as (Hrepos & _ & _ & Hsent & _).
  split; [exact Hrepos|exact Hsent].
Defined.

(** Counterexample to C7 as stated: without a credential
    [initRepositories] signals nothing to its caller. *)
Lemma initRepositories_signed_out_does_not_throw :
  text_truthy (stored_pat signed_out) = false ∧
  ¬ ∃ e w', initRepositories roomy 1 false signed_out = (Throw e, w').
Proof.
  split; [reflexivity|]. intros (e & w' & H). vm_compute in H. discriminate H.
Qed.

(** ** C1: the fallback to the expired repository list *)

Lemma fetchAllRepositories_from_unanswered E fuel endpoint params repos page w token :
  stored_pat w = Some token → text_truthy (Some token) = true →
  answered (net E (sent w) (request_of (page_target endpoint params page) token))
  = NoResponse →
  fetchAllRepositories_from E (S fuel) endpoint params repos page w
  = (Throw NetworkError,
     after_fetch (request_of (page_target endpoint params page) token)
       (elapsed (net E (sent w) (request_of (page_target endpoint params page) token)))
       w).
Proof.
  intros Hpat Htruthy Hans. simpl. unfold bind at 1.
  fold (page_target endpoint params page).
  rewrite (githubAPI_fetches E _ w token Hpat Htruthy).
  unfold bind at 1. by rewrite fetch_run, Hans.
Qed.

Lemma cache_of_after_fetch r d w : cache_of (after_fetch r d w) = cache_of w.
Proof. unfold cache_of, active. simpl. by destruct (text_truthy _). Qed.

Lemma isRepositoriesCacheValid_run E w :
  isRepositoriesCacheValid E w
  = bind (getCachedValue E "repositories_all")
         (λ cachedData, ret (negb (strict_eq cachedData (Some VNull)))) w.
Proof. reflexivity. Qed.

(** C1, where the code departs from it.  With a credential stored and the
    cached repository list expired ([expires] not 0 and in the past), when
    the first request of the refresh gets no response, [initRepositories]
    hands the [NetworkError] to its caller: the fallback reads the cache
    through [getCachedValue], which hides the expired entry. *)
Theorem initRepositories_expired_no_fallback (E : env) (fuel : nat)
    (forceRefresh : bool) (w : world) (token : text)
    (c en : gmap string value) (e : Z) :
  stored_pat w = Some token → text_truthy (Some token) = true →
  cache_of w = VObj c → c !! "repositories_all" = Some (VObj en) →
  en !! "expires" = Some (VNum e) → e ≠ 0 → e < clock w →
  answered (net E (sent w)
              (request_of (page_target "/user/repos" user_repos_params 1) token))
  = NoResponse →
  ∃ w', initRepositories E (S fuel) forceRefresh w = (Throw NetworkError, w').
Proof.
  intros Hpat Htruthy Hc Hk He Hz Hlt Hans.
  assert (Hexp : ∀ w0, cache_of w0 = cache_of w → clock w ≤ clock w0 →
                       getCachedValue E "repositories_all" w0 = (Ret (Some VNull), w0)).
  { intros w0 Hc0 Hclock.
    rewrite (getCachedValue_entry E w0 _ c en e); [|congruence|done|done].
    replace (e =? 0) with false by (symmetry; by apply Z.eqb_neq).
    replace (e <? clock w0) with true by (symmetry; apply Z.ltb_lt; lia).
    done. }
  unfold initRepositories. unfold bind at 1.
  rewrite requireAuth_run, Hpat, Htruthy. cbn [negb].
  assert (Hvalid :
    (if forceRefresh then ret false else isRepositoriesCacheValid E) w
    = (Ret false, w)).
  { destruct forceRefresh; [done|].
    rewrite isRepositoriesCacheValid_run. unfold bind.
    by rewrite (Hexp w eq_refl (Z.le_refl _)). }
  unfold bind at 1. rewrite Hvalid. unfold bind at 1. simpl.
  unfold try_catch, fetchAllUserRepositories, fetchUserRepositories,
    fetchAllRepositories.
  unfold bind at 1. unfold bind at 1. unfold bind at 1.
  fold user_repos_params.
  rewrite (fetchAllRepositories_from_unanswered E fuel "/user/repos"
             user_repos_params [] 1 w token Hpat Htruthy Hans).
  unfold getStoredRepositories, bind.
  rewrite Hexp.
  - simpl. by eexists.
  - apply cache_of_after_fetch.
  - simpl. lia.
Qed.

(** Witness of C1: the repository list cached in [stale_repos] expired at
    time 1000, and the network is silent. *)
Lemma initRepositories_expired_no_fallback_witness :
  ∃ w', initRepositories roomy 1 false stale_repos = (Throw NetworkError, w').
Proof.
  apply (initRepositories_expired_no_fallback roomy 0 false stale_repos
           (Raw "ghp_token")
           {[ "repositories_all" := cache_entry (VArr [repo_stub 1 "A"]) 1000 900 ]}
           (list_to_map [ ("data", VArr [repo_stub 1 "A"]); ("expires", VNum 1000);
                          ("timestamp", VNum 900) ])
           1000);
    reflexivity || discriminate.
Defined.

(** The run at that input, next to what a stale read of the same cache
    holds. *)
Lemma initRepositories_at_stale_repos :
  (initRepositories roomy 1 false stale_repos).1 = Throw NetworkError ∧
  prop (own_props (Some (cache_of stale_repos)) !! "repositories_all") "data"
  = Some (Some (VArr [repo_stub 1 "A"])).
Proof. split; vm_compute; reflexivity. Qed.

(** The sibling synchronizer does fall back: with the stored list of
    organizations long out of date and the network silent,
    [initOrganizations] returns the stored list. *)
Lemma initOrganizations_at_stale_orgs :
  (initOrganizations roomy false stale_orgs).1
  = Ret (VArr [VObj {[ "login" := VStr "org-x" ]}]) ∧
  (isOrganizationsCacheValid roomy stale_orgs).1 = Ret false.
Proof. split; vm_compute; reflexivity. Qed.

(** ** C6: the pagination collector *)

Lemma githubAPI_success E endpoint w token status remaining v d :
  stored_pat w = Some token → text_truthy (Some token) = true →
  net E (sent w) (request_of endpoint token)
  = {| answered := Response status remaining (Some v); elapsed := d |} →
  response_ok status = true →
  githubAPI E endpoint w = (Ret v, after_fetch (request_of endpoint token) d w).
Proof.
  intros Hpat Htruthy Hnet Hok.
  rewrite (githubAPI_fetches E endpoint w token Hpat Htruthy).
  unfold bind. rewrite fetch_run, Hnet. simpl.
  unfold response_ok in Hok. apply andb_true_iff in Hok as [Hlo Hhi].
  apply Z.leb_le in Hlo. apply Z.leb_le in Hhi.
  replace (status =? 401) with false by (symmetry; apply Z.eqb_neq; lia).
  replace (status =? 403) with false by (symmetry; apply Z.eqb_neq; lia).
  unfold response_ok.
  replace (200 <=? status) with true by (symmetry; apply Z.leb_le; lia).
  replace (status <=? 299) with true by (symmetry; apply Z.leb_le; lia).
  reflexivity.
Qed.

Lemma stored_pat_after_fetch r d w : stored_pat (after_fetch r d w) = stored_pat w.
Proof. reflexivity. Qed.

Lemma fetchAllRepositories_from_collects E endpoint params token history
    (full : list (list value)) :
  ∀ (last : list value) (k : nat) (repos : list value) (w : world) (fuel : nat),
    stored_pat w = Some token → text_truthy (Some token) = true →
    sent w = history ++ (page_request endpoint params token <$> seq 1 k) →
    (∀ i p, (full ++ [last]) !! i = Some p →
       ∃ status remaining d,
         net E (history ++ (page_request endpoint params token <$> seq 1 (k + i)))
           (page_request endpoint params token (S (k + i)))
         = {| answered := Response status remaining (Some (VArr p)); elapsed := d |} ∧
         response_ok status = true) →
    Forall (λ p, (100 ≤ length p)%nat) full → (length last < 100)%nat →
    (length full < fuel)%nat →
    ∃ w',
      fetchAllRepositories_from E fuel endpoint params repos (Z.of_nat (S k)) w
      = (Ret (repos ++ concat full ++ last), w') ∧
      sent w' = history ++ (page_request endpoint params token
                              <$> seq 1 (S (k + length full))).
Proof.
  induction full as [|p full IH];
    intros last k repos w fuel Hpat Htruthy Hsent Hnet Hfull Hlast Hfuel.
  - destruct fuel as [|fuel]; [lia|].
    destruct (Hnet O last eq_refl) as (status & remaining & d & Hrep & Hok).
    rewrite Nat.add_0_r in Hrep. rewrite <- Hsent in Hrep.
    simpl. unfold bind at 1. fold (page_target endpoint params (Z.of_nat (S k))).
    rewrite (githubAPI_success E _ w token status remaining (VArr last) d
               Hpat Htruthy Hrep Hok).
    unfold bind; simpl.
    eexists. split.
    + destruct (Z.of_nat (length last) =? 0) eqn:Hz.
      * apply Z.eqb_eq in Hz. destruct last; [|simpl in Hz; lia].
        by rewrite app_nil_r.
      * replace (Z.of_nat (length last) <? perPage) with true
          by (symmetry; apply Z.ltb_lt; unfold perPage; lia).
        reflexivity.
    + assert (Hsent' : sent (after_fetch
                 (request_of (page_target endpoint params (Z.of_nat (S k))) token) d w)
               = history ++ (page_request endpoint params token <$> seq 1 (S k))).
      { simpl sent. rewrite Hsent, seq_S, fmap_app, app_assoc. reflexivity. }
      rewrite Nat.add_0_r.
      destruct (Z.of_nat (length last) =? 0);
        [|destruct (Z.of_nat (length last) <? perPage)]; simpl; exact Hsent'.
  - destruct fuel as [|fuel]; [simpl in Hfuel; lia|].
    destruct (Hnet O p eq_refl) as (status & remaining & d & Hrep & Hok).
    rewrite Nat.add_0_r in Hrep. rewrite <- Hsent in Hrep.
    inversion Hfull as [|? ? Hp Hfull']; subst.
    cbn [fetchAllRepositories_from]. unfold bind at 1.
    fold (page_target endpoint params (Z.of_nat (S k))).
    rewrite (githubAPI_success E _ w token status remaining (VArr p) d
               Hpat Htruthy Hrep Hok).
    unfold bind at 1. cbn [or_TypeError length_of ret strict_eq].
    replace (Z.of_nat (length p) =? 0) with false
      by (symmetry; apply Z.eqb_neq; lia).
    unfold bind at 1. cbn [or_TypeError iter_items ret].
    replace (Z.of_nat (length p) <? perPage) with false
      by (symmetry; apply Z.ltb_ge; unfold perPage; lia).
    replace (Z.of_nat (S k) + 1) with (Z.of_nat (S (S k))) by lia.
    destruct (IH last (S k) (repos ++ p)
                (after_fetch
                   (request_of (page_target endpoint params (Z.of_nat (S k))) token)
                   d w) fuel) as (w' & Hrun & Hsent').
    + by rewrite stored_pat_after_fetch.
    + done.
    + simpl sent. rewrite Hsent, seq_S, fmap_app, app_assoc. reflexivity.
    + intros i q Hq. specialize (Hnet (S i) q Hq).
      by replace (k + S i)%nat with (S k + i)%nat in Hnet by lia.
    + done.
    + done.
    + simpl in Hfuel. lia.
    + exists w'. split.
      * rewrite Hrun. simpl concat. by rewrite !app_assoc.
      * rewrite Hsent'. simpl length.
        by replace (S k + length full)%nat with (k + S (length full))%nat by lia.
Qed.

(** C6.  For every sequence of pages the network serves, all of at least
    100 items but the last, which has fewer: [fetchAllRepositories] returns
    the concatenation of the pages in the order of their arrival, having
    sent exactly one request for each of them, for the pages 1, 2, ... with
    100 items per page; it stops after the first page of fewer than 100
    items, and after a page of exactly 100 it asks for the next one. *)
Theorem fetchAllRepositories_collects (E : env) (endpoint : string)
    (params : list (string * string)) (w : world) (token : text)
    (full : list (list value)) (last : list value) (fuel : nat) :
  stored_pat w = Some token → text_truthy (Some token) = true →
  serves E (sent w) endpoint params token (full ++ [last]) →
  Forall (λ p, (100 ≤ length p)%nat) full → (length last < 100)%nat →
  (length full < fuel)%nat →
  ∃ w',
    fetchAllRepositories E fuel endpoint params w
    = (Ret (concat full ++ last), w') ∧
    sent w' = sent w ++ (page_request endpoint params token
                           <$> seq 1 (S (length full))) ∧
    (∀ i r, (page_request endpoint params token <$> seq 1 (S (length full))) !! i
            = Some r →
            req_query r
            = set_param "per_page" "100"
                (set_param "page" (pretty (Z.of_nat (S i))) params)).
Proof.
  intros Hpat Htruthy Hserves Hfull Hlast Hfuel.
  destruct (fetchAllRepositories_from_collects E endpoint params token (sent w)
              full last O [] w fuel) as (w' & Hrun & Hsent); try done.
  - by rewrite app_nil_r.
  - exists w'. split; [exact Hrun|]. split; [exact Hsent|].
    intros i r Hr. rewrite list_lookup_fmap in Hr.
    destruct (seq 1 (S (length full)) !! i) as [j|] eqn:Hj; [|done].
    apply lookup_seq in Hj as [-> _]. injection Hr as <-. reflexivity.
Qed.

(** Witness of C6, the case of the design document: pages of 100, 100 and
    37 repositories give 237 repositories after exactly 3 requests. *)
Lemma fetchAllRepositories_collects_witness :
  ∃ w',
    fetchAllRepositories (paging [page_of 100; page_of 100; page_of 37]) 5
      "/user/repos" user_repos_params signed_in
    = (Ret (concat [page_of 100; page_of 100] ++ page_of 37), w') ∧
    length (concat [page_of 100; page_of 100] ++ page_of 37) = 237%nat ∧
    length (sent w') = 3%nat.
Proof.
  destruct (fetchAllRepositories_collects
              (paging [page_of 100; page_of 100; page_of 37])
              "/user/repos" user_repos_params signed_in (Raw "ghp_token")
              [page_of 100; page_of 100] (page_of 37) 5 eq_refl eq_refl)
    as (w' & Hrun & Hsent & _).
  - intros i p Hp. exists 200, None, 120%N.
    destruct i as [|[|[|i]]]; simpl in Hp; try discriminate Hp;
      injection Hp as <-; split; reflexivity.
  - repeat constructor; unfold page_of; rewrite length_replicate; lia.
  - unfold page_of. rewrite length_replicate. lia.
  - simpl. lia.
  - exists w'. split; [exact Hrun|]. split; [reflexivity|].
    rewrite Hsent. reflexivity.
Defined.

(** ** C4: merging and deduplicating by id *)

Lemma strict_eq_true a b : strict_eq a b = true → a = b.
Proof.
  destruct a as [[]|], b as [[]|]; simpl; try done.
  - intros H. apply Bool.eqb_prop in H. by subst.
  - intros H. apply Z.eqb_eq in H. by subst.
  - intros H. apply String.eqb_eq in H. by subst.
Qed.

Lemma Map_set_new m k v : (k, v) ∈ Map_set m k v.
Proof.
  induction m as [|[k' v'] m IH]; simpl.
  - by apply list_elem_of_singleton.
  - destruct (same_value_zero k' k) eqn:Hs.
    + apply strict_eq_true in Hs as ->. apply elem_of_cons. by left.
    + apply elem_of_cons. by right.
Qed.

Lemma Map_set_old m k0 v0 k v :
  (k, v) ∈ m → same_value_zero k k0 = false → (k, v) ∈ Map_set m k0 v0.
Proof.
  induction m as [|[k' v'] m IH]; intros Hin Hs; [by apply elem_of_nil in Hin|].
  simpl. apply elem_of_cons in Hin as [Heq|Hin].
  - injection Heq as <- <-. rewrite Hs. apply elem_of_cons. by left.
  - destruct (same_value_zero k' k0); apply elem_of_cons; right; [done|by apply IH].
Qed.

Lemma Map_set_keys m k v :
  (Map_set m k v).*1
  = if existsb (λ k', same_value_zero k' k) m.*1 then m.*1 else m.*1 ++ [k].
Proof.
  induction m as [|[k' v'] m IH]; [done|].
  cbn [Map_set]. rewrite fmap_cons. cbn [existsb fst].
  destruct (same_value_zero k' k); [by rewrite fmap_cons|].
  rewrite fmap_cons, IH. cbn [orb fst]. by destruct (existsb _ _).
Qed.

Lemma Map_set_distinct m k v :
  distinct m.*1 = true → distinct (Map_set m k v).*1 = true.
Proof.
  intros Hd. rewrite Map_set_keys.
  destruct (existsb _ _) eqn:Hex; [done|].
  apply distinct_snoc; [done|].
  apply Forall_forall. intros j Hj.
  destruct (strict_eq j k) eqn:Hjk; [|done].
  assert (existsb (λ k', same_value_zero k' k) m.*1 = true); [|congruence].
  apply existsb_exists. exists j. split; [by apply list_elem_of_In|done].
Qed.

Lemma elem_of_Map_set m k0 v0 k v :
  distinct m.*1 = true → (k, v) ∈ Map_set m k0 v0 →
  ((k, v) ∈ m ∧ same_value_zero k k0 = false) ∨ (k = k0 ∧ v = v0).
Proof.
  induction m as [|[k' v'] m IH]; simpl; intros Hd Hin.
  - apply list_elem_of_singleton in Hin. injection Hin as -> ->. by right.
  - apply distinct_cons in Hd as [Hk' Hd].
    destruct (same_value_zero k' k0) eqn:Hs.
    + apply elem_of_cons in Hin as [Heq|Hin].
      * injection Heq as -> ->. right. split; [by apply strict_eq_true|done].
      * left. split; [apply elem_of_cons; by right|].
        apply strict_eq_true in Hs as ->.
        rewrite Forall_forall in Hk'. unfold same_value_zero.
        rewrite strict_eq_sym. apply Hk'.
        apply list_elem_of_fmap. by exists (k, v).
    + apply elem_of_cons in Hin as [Heq|Hin].
      * injection Heq as -> ->. left. split; [apply elem_of_cons; by left|done].
      * destruct (IH Hd Hin) as [[Hm Hne]|Heq]; [left|by right].
        split; [apply elem_of_cons; by right|done].
Qed.

Lemma Map_of_snoc entries k v :
  Map_of (entries ++ [(k, v)]) = Map_set (Map_of entries) k v.
Proof. unfold Map_of. by rewrite fold_left_app. Qed.

Lemma Map_of_entries_snoc l r :
  Map_of (entry <$> (l ++ [r])) = Map_set (Map_of (entry <$> l)) (id_of r) r.
Proof. rewrite fmap_app. apply Map_of_snoc. Qed.

Lemma find_last_snoc k l r :
  find_last k (l ++ [r])
  = if same_value_zero (id_of r) k then Some r else find_last k l.
Proof.
  induction l as [|x l IH]; simpl.
  - by destruct (same_value_zero (id_of r) k).
  - rewrite IH. by destruct (same_value_zero (id_of r) k).
Qed.

Lemma find_last_app k l1 l2 :
  find_last k (l1 ++ l2)
  = match find_last k l2 with
    | Some x => Some x
    | None => find_last k l1
    end.
Proof.
  induction l1 as [|x l1 IH]; simpl.
  - by destruct (find_last k l2).
  - rewrite IH. by destruct (find_last k l2).
Qed.

Lemma find_last_elem_of k l x : find_last k l = Some x → x ∈ l.
Proof.
  induction l as [|r l IH]; simpl; [done|].
  destruct (find_last k l) as [y|].
  - intros [= ->]. apply elem_of_cons. right. by apply IH.
  - destruct (same_value_zero (id_of r) k); [|done].
    intros [= ->]. apply elem_of_cons. by left.
Qed.

Lemma find_last_is_Some k l r :
  r ∈ l → same_value_zero (id_of r) k = true → is_Some (find_last k l).
Proof.
  induction l as [|x l IH]; intros Hin Hs; [by apply elem_of_nil in Hin|].
  simpl. destruct (find_last k l) as [y|] eqn:Hl; [by eexists|].
  apply elem_of_cons in Hin as [->|Hin].
  - rewrite Hs. by eexists.
  - destruct (IH Hin Hs) as [? ?]. done.
Qed.

(** What the [Map] built from a list of repositories holds. *)
Lemma Map_of_entries_spec (l : list value) :
  distinct (Map_of (entry <$> l)).*1 = true ∧
  (∀ k v, (k, v) ∈ Map_of (entry <$> l) →
     k = id_of v ∧ v ∈ l ∧
     (same_value_zero k k = true → find_last k l = Some v)) ∧
  (∀ r, r ∈ l → ∃ v, (id_of r, v) ∈ Map_of (entry <$> l)).
Proof.
  induction l as [|r l IH] using rev_ind.
  - split; [done|]. split.
    + intros k v Hin. by apply elem_of_nil in Hin.
    + intros r Hin. by apply elem_of_nil in Hin.
  - destruct IH as (Hd & Hval & Hkey).
    rewrite Map_of_entries_snoc.
    split; [by apply Map_set_distinct|]. split.
    + intros k v Hin.
      apply elem_of_Map_set in Hin as [[Hin Hne]|[-> ->]]; [| |done].
      * destruct (Hval k v Hin) as (Hk & Hv & Hlast).
        split; [done|]. split; [apply elem_of_app; by left|].
        intros Hrefl. rewrite find_last_snoc.
        unfold same_value_zero in *. rewrite strict_eq_sym, Hne. by apply Hlast.
      * split; [done|]. split; [apply elem_of_app; right; by apply list_elem_of_singleton|].
        intros Hrefl. by rewrite find_last_snoc, Hrefl.
    + intros x Hin. apply elem_of_app in Hin as [Hin|Hin].
      * destruct (Hkey x Hin) as [v Hv].
        destruct (same_value_zero (id_of x) (id_of r)) eqn:Hs.
        -- apply strict_eq_true in Hs. rewrite Hs. exists r. apply Map_set_new.
        -- exists v. by apply Map_set_old.
      * apply list_elem_of_singleton in Hin as ->. exists r. apply Map_set_new.
Qed.

Lemma mapM_entries (l : list value) :
  Forall (λ r, r ≠ VNull) l →
  mapM (λ repo, id ← prop (Some repo) "id"; Some (id, repo)) l = Some (entry <$> l).
Proof.
  intros Hnn. apply mapM_Some. induction Hnn as [|r l Hr Hl IH]; simpl.
  - constructor.
  - constructor; [|done]. by rewrite (prop_id_of r Hr).
Qed.

Lemma uniqueRepos_of_run (l : list value) :
  Forall (λ r, r ≠ VNull) l →
  uniqueRepos_of l = Some (Map_of (entry <$> l)).*2.
Proof. intros Hnn. unfold uniqueRepos_of. by rewrite mapM_entries. Qed.

(** What the deduplicated list holds, for repositories none of which is
    [null]. *)
Lemma uniqueRepos_of_spec (l : list value) :
  Forall (λ r, r ≠ VNull) l →
  ∃ unique,
    uniqueRepos_of l = Some unique ∧
    distinct_ids unique = true ∧
    (∀ r, r ∈ l → ∃ r', r' ∈ unique ∧ id_of r' = id_of r) ∧
    (∀ r', r' ∈ unique →
       r' ∈ l ∧
       (same_value_zero (id_of r') (id_of r') = true →
        find_last (id_of r') l = Some r')).
Proof.
  intros Hnn. exists (Map_of (entry <$> l)).*2.
  destruct (Map_of_entries_spec l) as (Hd & Hval & Hkey).
  split; [by apply uniqueRepos_of_run|].
  assert (Hids : id_of <$> (Map_of (entry <$> l)).*2 = (Map_of (entry <$> l)).*1).
  { rewrite <- list_fmap_compose. apply Forall_fmap_ext, Forall_forall.
    intros [k v] Hin. simpl. by destruct (Hval k v Hin) as [-> _]. }
  split; [unfold distinct_ids; by rewrite Hids|]. split.
  - intros r Hr. destruct (Hkey r Hr) as [v Hv]. exists v.
    split; [apply list_elem_of_fmap; by exists (id_of r, v)|].
    by destruct (Hval _ _ Hv) as [<- _].
  - intros r' Hr'. apply list_elem_of_fmap in Hr' as ([k v] & -> & Hin).
    simpl. destruct (Hval k v Hin) as (-> & Hv & Hlast). done.
Qed.

(** The last copy in merge order is the organization's, when there is
    one. *)
Lemma org_copy_wins (userRepos orgRepos unique : list value) :
  (∀ r', r' ∈ unique →
     r' ∈ userRepos ++ orgRepos ∧
     (same_value_zero (id_of r') (id_of r') = true →
      find_last (id_of r') (userRepos ++ orgRepos) = Some r')) →
  ∀ r' ro, r' ∈ unique → ro ∈ orgRepos →
    strict_eq (id_of ro) (id_of r') = true →
    r' ∈ orgRepos ∧ find_last (id_of r') orgRepos = Some r'.
Proof.
  intros Hout r' ro Hr' Hro Heq.
  destruct (Hout r' Hr') as [_ Hlast].
  pose proof (strict_eq_true _ _ Heq) as Hid.
  assert (Hrefl : same_value_zero (id_of r') (id_of r') = true).
  { unfold same_value_zero. by rewrite <- Hid at 1. }
  specialize (Hlast Hrefl). rewrite find_last_app in Hlast.
  destruct (find_last_is_Some (id_of r') orgRepos ro Hro Heq) as [x Hx].
  rewrite Hx in Hlast. injection Hlast as ->.
  split; [by eapply find_last_elem_of|done].
Qed.

(** The merge of [{id:1, A}, {id:2, B}] with [{id:2, B2}, {id:3, C}]. *)
Lemma uniqueRepos_of_example :
  uniqueRepos_of ([repo_stub 1 "A"; repo_stub 2 "B"]
                  ++ [repo_stub 2 "B2"; repo_stub 3 "C"])
  = Some [repo_stub 1 "A"; repo_stub 2 "B2"; repo_stub 3 "C"].
Proof. vm_compute. reflexivity. Qed.

(** ** The fetches of the organizations' repositories *)

Lemma prop_not_null r k : r ≠ VNull → prop (Some r) k = Some (own_props (Some r) !! k).
Proof. by destruct r. Qed.

Lemma repository_of_not_null repo v : repository_of repo = Some v → v ≠ VNull.
Proof.
  unfold repository_of. intros H. simplify_option_eq. discriminate.
Qed.

Lemma mapM_repository_of_not_null repos l :
  mapM repository_of repos = Some l → Forall (λ r, r ≠ VNull) l.
Proof.
  intros H. apply mapM_Some_1 in H.
  induction H as [|repo v repos l Hv _ IH]; constructor; [|done].
  by eapply repository_of_not_null.
Qed.

Lemma fetchOrganizationRepositories_not_null E fuel login w l w' :
  fetchOrganizationRepositories E fuel login w = (Ret l, w') →
  Forall (λ r, r ≠ VNull) l.
Proof.
  unfold fetchOrganizationRepositories, bind.
  destruct (fetchAllRepositories E fuel _ _ w) as [[repos|e|] w1]; try done.
  destruct (mapM repository_of repos) as [k|] eqn:Hk; simpl; [|done].
  intros [= <- _]. by eapply mapM_repository_of_not_null.
Qed.

Lemma fetchUserRepositories_not_null E fuel w l w' :
  fetchUserRepositories E fuel w = (Ret l, w') → Forall (λ r, r ≠ VNull) l.
Proof.
  unfold fetchUserRepositories, bind.
  destruct (fetchAllRepositories E fuel _ _ w) as [[repos|e|] w1]; try done.
  destruct (mapM repository_of repos) as [k|] eqn:Hk; simpl; [|done].
  intros [= <- _]. by eapply mapM_repository_of_not_null.
Qed.

Lemma githubAPI_request_comes_back endpoint w :
  (∃ r, githubAPI_request endpoint w = (Ret r, w)) ∨
  githubAPI_request endpoint w = (Throw (Error "NO_TOKEN"), w).
Proof.
  unfold githubAPI_request, bind. rewrite getStoredPAT_run.
  destruct (stored_pat w) as [token|]; [|by right].
  destruct (text_truthy (Some token)); [left; by eexists|by right].
Qed.

Lemma begin_page_returns E fuel endpoint params repos page w :
  ∃ t w', begin_page E fuel endpoint params repos page w = (Ret t, w') ∧
          (turns_left t ≤ fuel)%nat ∧ mapped t.
Proof.
  destruct fuel as [|fuel']; [by eexists _, _|].
  cbn [begin_page]. unfold try_catch, bind.
  destruct (githubAPI_request_comes_back (page_target endpoint params page) w)
    as [[r ->]| ->].
  - eexists _, _. split; [reflexivity|]. split; [simpl; lia|exact I].
  - eexists _, _. split; [reflexivity|]. split; [simpl; lia|exact I].
Qed.

Lemma githubAPI_response_comes_back response w :
  (githubAPI_response response w).1 ≠ Diverge.
Proof.
  destruct response as [[status remaining] body]. unfold githubAPI_response.
  destruct (status =? 401);
    [by cbv [bind clearAuth removeItem set_href throw fst]|].
  destruct (status =? 403).
  { by destruct remaining as [[|[[] [] [] [] [] [] [] []] [|]]|]. }
  destruct (negb (response_ok status)); [done|].
  by destruct body.
Qed.

Lemma resume_returns E t w :
  ∃ t' w', resume E t w = (Ret t', w') ∧
           (turns_left t' ≤ pred (turns_left t))%nat ∧
           (mapped t → mapped t').
Proof.
  destruct t as [endpoint params repos page fuel a due|o];
    [|eexists _, _; split; [reflexivity|split; [simpl; lia|done]]].
  cbn [resume turns_left pred]. unfold bind at 1. cbn [wait_until].
  set (w0 := {| localStorage := localStorage w; sessionStorage := sessionStorage w;
                clock := due; sent := sent w; href := href w |}).
  unfold try_catch. unfold bind at 1.
  destruct a as [|status remaining body]; cbn [receive throw ret].
  { eexists _, _. split; [reflexivity|]. split; [simpl; lia|done]. }
  unfold bind at 1.
  pose proof (githubAPI_response_comes_back (status, remaining, body) w0) as Hback.
  destruct (githubAPI_response (status, remaining, body) w0) as [[pageRepos|e|] w1];
    [| |done].
  2:{ eexists _, _. split; [reflexivity|]. split; [simpl; lia|done]. }
  unfold bind at 1.
  destruct (after_page pageRepos repos) as [[repos'|repos']|];
    cbn [or_TypeError ret throw].
  - unfold bind.
    destruct (mapM repository_of repos') as [l|] eqn:Hl; cbn [or_TypeError ret throw].
    + eexists _, _. split; [reflexivity|]. split; [simpl; lia|].
      intros _. by eapply mapM_repository_of_not_null.
    + eexists _, _. split; [reflexivity|]. split; [simpl; lia|done].
  - destruct (begin_page_returns E fuel endpoint params repos' (page + 1) w1)
      as (t' & w' & -> & Hle & Hm).
    eexists _, _. split; [reflexivity|]. by split.
  - eexists _, _. split; [reflexivity|]. split; [simpl; lia|done].
Qed.

Lemma next_due_None tasks :
  next_due tasks = None → Forall (λ t, ∃ o, t = Settled o) tasks.
Proof.
  induction tasks as [|t tasks IH]; [done|]. cbn [next_due].
  destruct t as [endpoint params repos page fuel a due|o].
  - destruct (next_due tasks) as [[i d]|]; cbn [fmap option_fmap option_map];
      [by destruct (d <? due)|done].
  - destruct (next_due tasks) as [[i d]|]; [done|].
    intros _. constructor; [by eexists|by apply IH].
Qed.

Lemma next_due_Some tasks i d :
  next_due tasks = Some (i, d) →
  ∃ t, tasks !! i = Some t ∧ (0 < turns_left t)%nat.
Proof.
  revert i d. induction tasks as [|t tasks IH]; intros i d; [done|].
  cbn [next_due].
  destruct t as [endpoint params repos page fuel a due|o].
  - destruct (next_due tasks) as [[j e]|]; cbn [fmap option_fmap option_map].
    + destruct (e <? due); intros [= <- <-].
      * destruct (IH j e eq_refl) as (t & Ht & Hpos). by exists t.
      * eexists. split; [reflexivity|simpl; lia].
    + intros [= <- <-]. eexists. split; [reflexivity|simpl; lia].
  - destruct (next_due tasks) as [[j e]|]; cbn [fmap option_fmap option_map];
      [|done].
    intros [= <- <-]. destruct (IH j e eq_refl) as (t & Ht & Hpos). by exists t.
Qed.

Lemma turns_left_insert tasks i t t' :
  tasks !! i = Some t →
  (sum_list (turns_left <$> <[i := t']> tasks) + turns_left t
   = sum_list (turns_left <$> tasks) + turns_left t')%nat.
Proof.
  revert i. induction tasks as [|x tasks IH]; intros i Hi; [done|].
  destruct i as [|i]; simpl in *.
  - injection Hi as ->. lia.
  - specialize (IH i Hi). unfold fmap in IH. lia.
Qed.

Lemma run_tasks_returns E steps tasks w :
  (sum_list (turns_left <$> tasks) ≤ steps)%nat →
  Forall mapped tasks →
  ∃ tasks' w',
    run_tasks E steps tasks w = (Ret tasks', w') ∧
    length tasks' = length tasks ∧
    Forall (λ t, ∃ o, t = Settled o) tasks' ∧
    Forall mapped tasks'.
Proof.
  revert tasks w. induction steps as [|steps IH]; intros tasks w Hsum Hm.
  - exists tasks, w. split; [done|]. split; [done|]. split; [|done].
    apply Forall_forall. intros t Ht.
    assert (turns_left t = 0)%nat as Hz.
    { apply list_elem_of_lookup in Ht as [i Hi].
      pose proof (turns_left_insert tasks i t (Settled Diverge) Hi). simpl in *. lia. }
    destruct t; [done|by eexists].
  - cbn [run_tasks].
    destruct (next_due tasks) as [[i d]|] eqn:Hnext.
    + destruct (next_due_Some tasks i d Hnext) as (t & Hi & Hpos).
      rewrite Hi. unfold bind.
      destruct (resume_returns E t w) as (t' & w' & -> & Hle & Hmt).
      pose proof (turns_left_insert tasks i t t' Hi) as Hins.
      destruct (IH (<[i := t']> tasks) w') as (tasks' & w'' & Hrun & Hlen & Hs & Hm').
      * lia.
      * apply Forall_insert; [done|]. apply Hmt.
        rewrite Forall_forall in Hm. apply Hm. by eapply list_elem_of_lookup_2.
      * exists tasks', w''. rewrite length_insert in Hlen. done.
    + exists tasks, w. split; [done|]. split; [done|].
      split; [by apply next_due_None|done].
Qed.

Lemma start_tasks_returns E fuel orgs w :
  Forall (λ org, org ≠ VNull) orgs →
  ∃ tasks w',
    start_tasks E fuel orgs w = (Ret tasks, w') ∧
    length tasks = length orgs ∧
    (sum_list (turns_left <$> tasks) ≤ fuel * length orgs)%nat ∧
    Forall mapped tasks.
Proof.
  revert w. induction orgs as [|org orgs IH]; intros w Hnn.
  - exists [], w. split; [done|]. split; [done|]. split; [simpl; lia|done].
  - apply Forall_cons in Hnn as [Horg Hnn].
    cbn [start_tasks]. unfold bind at 1. rewrite (prop_not_null org "login" Horg).
    cbn [or_TypeError ret]. unfold bind at 1.
    match goal with |- context [begin_page E fuel ?ep ?ps ?rs ?pg w] =>
      destruct (begin_page_returns E fuel ep ps rs pg w) as (t & w1 & -> & Hle & Hm)
    end.
    unfold bind at 1.
    destruct (IH w1 Hnn) as (tasks & w' & -> & Hlen & Hsum & Hms).
    exists (t :: tasks), w'. split; [done|]. split; [simpl; by rewrite Hlen|].
    split; [|by constructor].
    rewrite fmap_cons. cbn [sum_list length]. rewrite Nat.mul_succ_r.
    rewrite (Nat.add_comm (fuel * _)). by apply Nat.add_le_mono.
Qed.

Lemma org_tasks_returns E fuel orgs w :
  Forall (λ org, org ≠ VNull) orgs →
  ∃ tasks,
    org_tasks E fuel orgs w = (Ret tasks, org_world E fuel orgs w) ∧
    org_outcomes E fuel orgs w = settled <$> tasks ∧
    length tasks = length orgs ∧
    Forall (λ t, ∃ o, t = Settled o) tasks ∧
    Forall mapped tasks.
Proof.
  intros Hnn. unfold org_outcomes, org_world, org_tasks, bind.
  destruct (start_tasks_returns E fuel orgs w Hnn) as (tasks & w1 & -> & Hlen & Hsum & Hm).
  destruct (run_tasks_returns E (fuel * length orgs) tasks w1 Hsum Hm)
    as (tasks' & w' & -> & Hlen' & Hs & Hm').
  exists tasks'. cbn [fst snd]. repeat split; try done. congruence.
Qed.

Lemma org_outcomes_length E fuel orgs w :
  Forall (λ org, org ≠ VNull) orgs →
  length (org_outcomes E fuel orgs w) = length orgs.
Proof.
  intros Hnn. destruct (org_tasks_returns E fuel orgs w Hnn) as (tasks & _ & -> & Hlen & _).
  by rewrite length_fmap.
Qed.

Lemma org_outcomes_not_null E fuel orgs w l :
  Forall (λ org, org ≠ VNull) orgs →
  Ret l ∈ org_outcomes E fuel orgs w → Forall (λ r, r ≠ VNull) l.
Proof.
  intros Hnn Hin.
  destruct (org_tasks_returns E fuel orgs w Hnn) as (tasks & _ & Ho & _ & _ & Hm).
  rewrite Ho in Hin. apply list_elem_of_fmap in Hin as (t & Ht & Hin).
  rewrite Forall_forall in Hm. specialize (Hm t Hin).
  destruct t as [| [l'| |]]; try done. simpl in Ht. by injection Ht as ->.
Qed.

Lemma orgReposArrays_of_run E fuel orgs w :
  Forall (λ org, org ≠ VNull) orgs →
  Forall (λ o, o ≠ Diverge) (org_outcomes E fuel orgs w) →
  orgReposArrays_of E fuel orgs w
  = (Ret (contribution <$> org_outcomes E fuel orgs w), org_world E fuel orgs w).
Proof.
  intros Hnn Hterm.
  destruct (org_tasks_returns E fuel orgs w Hnn) as (tasks & Hrun & Ho & _).
  unfold orgReposArrays_of, bind. rewrite Hrun, Ho in *.
  replace (forallb (λ t, came_back (settled t)) tasks) with true.
  - unfold ret. f_equal. f_equal. by rewrite <- list_fmap_compose.
  - symmetry. apply forallb_forall. intros t Ht.
    rewrite Forall_fmap, Forall_forall in Hterm.
    apply list_elem_of_In in Ht. specialize (Hterm t Ht). simpl in Hterm.
    by destruct (settled t).
Qed.

Lemma elem_of_contributions (outs : list (outcome (list value))) r :
  r ∈ concat (contribution <$> outs) ↔ ∃ l, Ret l ∈ outs ∧ r ∈ l.
Proof.
  induction outs as [|o outs IH]; simpl.
  - split; [intros H; by apply elem_of_nil in H|].
    intros (l & H & _). by apply elem_of_nil in H.
  - rewrite elem_of_app, IH. split.
    + intros [Hr|(l & Hl & Hr)].
      * destruct o as [l| |]; simpl in Hr; try by apply elem_of_nil in Hr.
        exists l. split; [apply elem_of_cons; by left|done].
      * exists l. split; [apply elem_of_cons; by right|done].
    + intros (l & Hl & Hr). apply elem_of_cons in Hl as [<-|Hl].
      * by left.
      * right. by exists l.
Qed.

(** The aggregate, when the user's repositories and the list of
    organizations are fetched and every organization's fetch comes back. *)
Lemma fetchAllUserRepositories_run E fuel w w1 w2 userRepos orgs :
  fetchUserRepositories E fuel w = (Ret userRepos, w1) →
  initOrganizations E false w1 = (Ret (VArr orgs), w2) →
  Forall (λ org, org ≠ VNull) orgs →
  Forall (λ o, o ≠ Diverge) (org_outcomes E fuel orgs w2) →
  ∃ unique,
    fetchAllUserRepositories E fuel w = (Ret unique, org_world E fuel orgs w2) ∧
    uniqueRepos_of
      (userRepos ++ concat (contribution <$> org_outcomes E fuel orgs w2))
    = Some unique ∧
    distinct_ids unique = true ∧
    (∀ r, r ∈ userRepos ++ concat (contribution <$> org_outcomes E fuel orgs w2) →
       ∃ r', r' ∈ unique ∧ id_of r' = id_of r) ∧
    (∀ r', r' ∈ unique →
       r' ∈ userRepos ++ concat (contribution <$> org_outcomes E fuel orgs w2) ∧
       (same_value_zero (id_of r') (id_of r') = true →
        find_last (id_of r')
          (userRepos ++ concat (contribution <$> org_outcomes E fuel orgs w2))
        = Some r')).
Proof.
  intros Huser Horgs Hnn Hterm.
  destruct (uniqueRepos_of_spec
              (userRepos ++ concat (contribution <$> org_outcomes E fuel orgs w2)))
    as (unique & Hrun & Hd & Hin & Hout).
  { apply Forall_app. split; [by eapply fetchUserRepositories_not_null|].
    apply Forall_forall. intros r Hr.
    apply elem_of_contributions in Hr as (l & Hl & Hr).
    apply org_outcomes_not_null in Hl; [|done].
    rewrite Forall_forall in Hl. by apply Hl. }
  exists unique. split; [|done].
  unfold fetchAllUserRepositories, bind.
  rewrite Huser, Horgs. simpl.
  rewrite (orgReposArrays_of_run E fuel orgs w2 Hnn Hterm).
  by rewrite Hrun.
Qed.

Lemma run_tasks_settled E steps o w :
  run_tasks E steps [Settled o] w = (Ret [Settled o], w).
Proof. by destruct steps. Qed.

(** A fetch alone in flight is [fetchAllRepositories] followed by the
    mapping of [fetchOrganizationRepositories], call by call. *)
Lemma lone_task E fuel endpoint params repos page w :
  (t <- begin_page E fuel endpoint params repos page ;; run_tasks E fuel [t]) w
  = ( Ret [Settled
             ((collected <- fetchAllRepositories_from E fuel endpoint params repos page ;;
               or_TypeError (mapM repository_of collected)) w).1],
      ((collected <- fetchAllRepositories_from E fuel endpoint params repos page ;;
        or_TypeError (mapM repository_of collected)) w).2 ).
Proof.
  revert repos page w. induction fuel as [|fuel IH]; intros repos page w; [done|].
  cbn [begin_page fetchAllRepositories_from].
  unfold githubAPI. fold (page_target endpoint params page).
  unfold bind, try_catch.
  destruct (githubAPI_request_comes_back (page_target endpoint params page) w)
    as [[r Hr]|Hr]; rewrite Hr; [|reflexivity].
  cbn [send Date_now ret run_tasks next_due fmap option_fmap option_map
       lookup list_lookup resume wait_until insert list_insert].
  unfold bind, try_catch, fetch, wait_until.
  destruct (net E (sent w) r) as [a d]. cbn [answered elapsed localStorage sessionStorage clock sent href].
  destruct a as [|status remaining body]; cbn [receive throw ret];
    [cbn [ret throw or_TypeError]; by rewrite ?run_tasks_settled|].
  match goal with |- context [githubAPI_response ?x ?w0] =>
    pose proof (githubAPI_response_comes_back x w0) as Hback;
    destruct (githubAPI_response x w0) as [[pageRepos|e|] w1]
  end; [|cbn [ret throw or_TypeError]; by rewrite ?run_tasks_settled|done].
  unfold after_page.
  destruct (length_of pageRepos) as [len|]; cbn [mbind option_bind or_TypeError ret throw];
    [|cbn [ret throw or_TypeError]; by rewrite ?run_tasks_settled].
  destruct (strict_eq len (Some (VNum 0))).
  { cbn [or_TypeError ret].
    destruct (mapM repository_of repos); cbn [or_TypeError ret throw];
      cbn [ret throw or_TypeError]; by rewrite ?run_tasks_settled. }
  destruct (iter_items pageRepos) as [received|];
    cbn [mbind option_bind or_TypeError ret throw]; [|cbn [ret throw or_TypeError]; by rewrite ?run_tasks_settled].
  destruct (Z.of_nat (length received) <? perPage).
  { cbn [or_TypeError ret].
    destruct (mapM repository_of (repos ++ received)); cbn [or_TypeError ret throw];
      cbn [ret throw or_TypeError]; by rewrite ?run_tasks_settled. }
  cbn [or_TypeError ret].
  specialize (IH (repos ++ received) (page + 1) w1). unfold bind in IH.
  destruct (begin_page_returns E fuel endpoint params (repos ++ received) (page + 1) w1)
    as (t' & w2 & Hb & _).
  rewrite Hb in IH |- *. exact IH.
Qed.

(** With one organization the aggregate's fetches are
    [fetchOrganizationRepositories] with its [catch]. *)
Lemma one_organization E fuel org w :
  org ≠ VNull →
  orgReposArrays_of E fuel [org] w
  = (repos <- try_catch
                (fetchOrganizationRepositories E fuel (own_props (Some org) !! "login"))
                (λ _, ret []) ;;
     ret [repos]) w.
Proof.
  intros Horg. unfold orgReposArrays_of, org_tasks. cbn [start_tasks length].
  rewrite Nat.mul_1_r.
  unfold bind at 1. unfold bind at 1. unfold bind at 1.
  rewrite (prop_not_null org "login" Horg). cbn [or_TypeError ret].
  match goal with |- context [begin_page E fuel ?ep ?ps [] 1] =>
    pose proof (lone_task E fuel ep ps [] 1 w) as Hlone;
    destruct (begin_page_returns E fuel ep ps [] 1 w) as (t & w1 & Hb & _)
  end.
  unfold bind in Hlone |- *. rewrite Hb in Hlone |- *. cbn [ret]. rewrite Hlone.
  unfold try_catch, fetchOrganizationRepositories, fetchAllRepositories, bind.
  match goal with |- context [fetchAllRepositories_from E fuel ?ep ?ps [] 1 w] =>
    destruct (fetchAllRepositories_from E fuel ep ps [] 1 w) as [[collected|e|] w2]
  end; cbn [fst snd forallb settled came_back]; try reflexivity.
  by destruct (mapM repository_of collected).
Qed.

(** ** C4: merging and deduplicating by id *)

(** C4.  When the user's repositories and the list of organizations are
    fetched, and every organization's fetch comes back:
    [fetchAllUserRepositories] returns a list that holds no two entries
    with the same id; every repository of the user's list and of the
    organizations' lists has an entry with its id, and every entry is one
    of these repositories; when an entry's id is the id of a repository of
    an organization list, the entry is the last repository with that id in
    the organization lists, in the order of the organizations (so the
    organization copy shadows the user's own). *)
Theorem aggregate_deduplicates (E : env) (fuel : nat) (w w1 w2 : world)
    (userRepos orgs : list value) :
  fetchUserRepositories E fuel w = (Ret userRepos, w1) →
  initOrganizations E false w1 = (Ret (VArr orgs), w2) →
  Forall (λ org, org ≠ VNull) orgs →
  Forall (λ o, o ≠ Diverge) (org_outcomes E fuel orgs w2) →
  ∃ unique,
    (fetchAllUserRepositories E fuel w).1 = Ret unique ∧
    distinct_ids unique = true ∧
    (∀ r, r ∈ userRepos ++ concat (contribution <$> org_outcomes E fuel orgs w2) →
       ∃ r', r' ∈ unique ∧ id_of r' = id_of r) ∧
    (∀ r', r' ∈ unique →
       r' ∈ userRepos ++ concat (contribution <$> org_outcomes E fuel orgs w2)) ∧
    (∀ r' ro, r' ∈ unique →
       ro ∈ concat (contribution <$> org_outcomes E fuel orgs w2) →
       strict_eq (id_of ro) (id_of r') = true →
       r' ∈ concat (contribution <$> org_outcomes E fuel orgs w2) ∧
       find_last (id_of r')
         (concat (contribution <$> org_outcomes E fuel orgs w2))
       = Some r').
Proof.
  intros Huser Horgs Hnn Hterm.
  destruct (fetchAllUserRepositories_run E fuel w w1 w2 userRepos orgs
              Huser Horgs Hnn Hterm)
    as (unique & Hrun & _ & Hd & Hin & Hout).
  exists unique. split; [by rewrite Hrun|]. split; [done|]. split; [done|].
  split; [intros r' Hr'; by apply Hout|].
  exact (org_copy_wins userRepos _ unique Hout).
Qed.

(** Witness of C4, the case of the design document: the user's list is
    [{id:1, A}, {id:2, B}], the list of the organization [{id:2, B2},
    {id:3, C}]; the aggregate has the three entries A, B2 and C. *)
Lemma aggregate_deduplicates_witness :
  ∃ unique,
    (fetchAllUserRepositories shared_repo 2 signed_in).1 = Ret unique ∧
    id_of <$> unique = [Some (VNum 1); Some (VNum 2); Some (VNum 3)] ∧
    name_of <$> unique = [Some (VStr "A"); Some (VStr "B2"); Some (VStr "C")].
Proof.
  destruct (aggregate_deduplicates shared_repo 2 signed_in
              (fetchUserRepositories shared_repo 2 signed_in).2
              (initOrganizations shared_repo false
                 (fetchUserRepositories shared_repo 2 signed_in).2).2
              (contribution (fetchUserRepositories shared_repo 2 signed_in).1)
              (returned_array
                 (initOrganizations shared_repo false
                    (fetchUserRepositories shared_repo 2 signed_in).2).1))
    as (unique & Hrun & _).
  - vm_compute. reflexivity.
  - vm_compute. reflexivity.
  - vm_compute. repeat constructor; discriminate.
  - vm_compute. repeat constructor; discriminate.
  - exists unique. split; [done|].
    vm_compute in Hrun. injection Hrun as <-. split; vm_compute; reflexivity.
Defined.

(** ** C5: an organization whose fetch fails *)

(** C5.  When the user's repositories and the list of organizations are
    fetched, and every organization's fetch comes back, fulfilled or
    rejected: [fetchAllUserRepositories] returns; there is one outcome for
    each organization; an organization whose fetch fails contributes the
    empty list; every entry of the result is a repository of the user or
    of an organization whose fetch succeeded, and every such repository
    has an entry with its id. *)
Theorem partial_org_failure (E : env) (fuel : nat) (w w1 w2 : world)
    (userRepos orgs : list value) :
  fetchUserRepositories E fuel w = (Ret userRepos, w1) →
  initOrganizations E false w1 = (Ret (VArr orgs), w2) →
  Forall (λ org, org ≠ VNull) orgs →
  Forall (λ o, o ≠ Diverge) (org_outcomes E fuel orgs w2) →
  ∃ unique,
    fetchAllUserRepositories E fuel w = (Ret unique, org_world E fuel orgs w2) ∧
    uniqueRepos_of
      (userRepos ++ concat (contribution <$> org_outcomes E fuel orgs w2))
    = Some unique ∧
    length (org_outcomes E fuel orgs w2) = length orgs ∧
    (∀ e, contribution (Throw e) = []) ∧
    (∀ r, r ∈ unique →
       r ∈ userRepos ∨ ∃ l, Ret l ∈ org_outcomes E fuel orgs w2 ∧ r ∈ l) ∧
    (∀ r, (r ∈ userRepos ∨ ∃ l, Ret l ∈ org_outcomes E fuel orgs w2 ∧ r ∈ l) →
       ∃ r', r' ∈ unique ∧ id_of r' = id_of r).
Proof.
  intros Huser Horgs Hnn Hterm.
  destruct (fetchAllUserRepositories_run E fuel w w1 w2 userRepos orgs
              Huser Horgs Hnn Hterm)
    as (unique & Hrun & Hunique & _ & Hin & Hout).
  exists unique. split; [done|]. split; [done|].
  split; [by apply org_outcomes_length|]. split; [done|]. split.
  - intros r Hr. destruct (Hout r Hr) as [Hr' _].
    apply elem_of_app in Hr' as [Hr'|Hr']; [by left|right].
    by apply elem_of_contributions.
  - intros r Hr. apply Hin. apply elem_of_app.
    destruct Hr as [Hr|Hr]; [by left|right]. by apply elem_of_contributions.
Qed.

(** Witness of C5: the fetch for [org-x] is answered with status 401, the
    one for [org-y] succeeds; both requests are out before either answer,
    and the aggregate holds the user's repository and the repository of
    [org-y]. *)
Lemma partial_org_failure_witness :
  ∃ unique,
    (fetchAllUserRepositories revoked_for_one 2 signed_in).1 = Ret unique ∧
    id_of <$> unique = [Some (VNum 1); Some (VNum 3)].
Proof.
  destruct (partial_org_failure revoked_for_one 2 signed_in
              (fetchUserRepositories revoked_for_one 2 signed_in).2
              (initOrganizations revoked_for_one false
                 (fetchUserRepositories revoked_for_one 2 signed_in).2).2
              (contribution (fetchUserRepositories revoked_for_one 2 signed_in).1)
              (returned_array
                 (initOrganizations revoked_for_one false
                    (fetchUserRepositories revoked_for_one 2 signed_in).2).1))
    as (unique & Hrun & Hunique & _).
  - vm_compute. reflexivity.
  - vm_compute. reflexivity.
  - vm_compute. repeat constructor; discriminate.
  - vm_compute. repeat constructor; discriminate.
  - exists unique. split; [by rewrite Hrun|].
    vm_compute in Hunique. injection Hunique as <-. vm_compute. reflexivity.
Defined.

(** The same run in full: the four requests in the order they were sent,
    the outcome of each organization's fetch, and the world the aggregate
    returns in, the token removed by the 401 and the page sent to the
    authentication form. *)
Lemma fetches_run_together :
  let run := fetchAllUserRepositories revoked_for_one 2 signed_in in
  (id_of <$> contribution run.1) = [Some (VNum 1); Some (VNum 3)] ∧
  req_url <$> sent run.2
  = [ "https://api.github.com/user/repos"; "https://api.github.com/user/orgs";
      "https://api.github.com/orgs/org-x/repos";
      "https://api.github.com/orgs/org-y/repos" ]%string ∧
  stored_pat run.2 = None ∧
  href run.2 = "auth.html"%string.
Proof. vm_compute. repeat split; reflexivity. Qed.

(** The run in which the fetch for [org-x] is answered with status 500. *)
Lemma fetch_fails_for_one :
  (id_of <$> contribution (fetchAllUserRepositories two_orgs 2 signed_in).1)
  = [Some (VNum 1); Some (VNum 3)].
Proof. vm_compute. reflexivity. Qed.

(** * Further properties of the storage layer *)

(** ** Dashboard settings *)

(** X1.  [getDashboardSettings] never throws and changes nothing; what it
    returns has every field of the defaults; a stored object gives its own
    value for each field it has and the default for each field it lacks;
    with nothing stored, or a string that is not JSON, the result is the
    defaults. *)
Theorem getDashboardSettings_fills_defaults (w : world) :
  ∃ settings,
    getDashboardSettings w = (Ret settings, w) ∧
    (∀ f, is_Some (DEFAULT_DASHBOARD_SETTINGS !! f) → is_Some (settings !! f)) ∧
    (∀ o, items (active w) w !! STORAGE_KEYS_DASHBOARD_SETTINGS = Some (Ser (VObj o)) →
       ∀ f, settings !! f = match o !! f with
                            | Some v => Some v
                            | None => DEFAULT_DASHBOARD_SETTINGS !! f
                            end) ∧
    (items (active w) w !! STORAGE_KEYS_DASHBOARD_SETTINGS = None →
     settings = DEFAULT_DASHBOARD_SETTINGS) ∧
    (∀ s, items (active w) w !! STORAGE_KEYS_DASHBOARD_SETTINGS = Some (Raw s) →
     settings = DEFAULT_DASHBOARD_SETTINGS).
Proof.
  exists (settings_of w). split; [apply getDashboardSettings_run|].
  split; [|split; [|split]].
  - intros f [v Hv]. destruct (settings_of w !! f) eqn:Hs; [by eexists|].
    apply settings_of_covers_defaults in Hs. congruence.
  - intros o Ho f. unfold settings_of. rewrite Ho. unfold spread; simpl.
    destruct (o !! f) as [v|] eqn:Hf.
    + by apply lookup_union_Some_l.
    + by rewrite lookup_union_r.
  - intros Hnone. unfold settings_of. by rewrite Hnone.
  - intros s Hraw. unfold settings_of. by rewrite Hraw.
Qed.

(** After [resetDashboardSettings] the settings read are the
    defaults, whatever was stored, and no other key of the storage has
    changed. *)
Theorem resetDashboardSettings_restores_defaults (w : world) :
  ∃ w',
    resetDashboardSettings w = (Ret tt, w') ∧
    getDashboardSettings w' = (Ret DEFAULT_DASHBOARD_SETTINGS, w') ∧
    (∀ a k, k ≠ STORAGE_KEYS_DASHBOARD_SETTINGS →
       items a w' !! k = items a w !! k).
Proof.
  exists (with_items (active w)
            (delete STORAGE_KEYS_DASHBOARD_SETTINGS (items (active w) w)) w).
  split; [reflexivity|].
  assert (Hother : ∀ a k, k ≠ STORAGE_KEYS_DASHBOARD_SETTINGS →
    items a (with_items (active w)
               (delete STORAGE_KEYS_DASHBOARD_SETTINGS (items (active w) w)) w) !! k
    = items a w !! k).
  { intros a k Hk. rewrite items_with_items. case_decide; [subst|done].
    by rewrite lookup_delete_ne. }
  split; [|exact Hother].
  rewrite getDashboardSettings_run. f_equal. unfold settings_of.
  assert (Hact : active (with_items (active w)
               (delete STORAGE_KEYS_DASHBOARD_SETTINGS (items (active w) w)) w)
               = active w).
  { unfold active.
    change (localStorage ?x) with (items Local x).
    by rewrite Hother. }
  rewrite Hact, items_with_items, decide_True by done.
  by rewrite lookup_delete_eq.
Qed.

(** X2.  A stored string that is not JSON never makes the readers of
    [storage.js] throw: the cache reads as the empty object, so that the
    fresh read of every key returns what it returns for an absent entry
    ([null]; [undefined] for the names of [Object.prototype]); the
    tracked list reads as the empty array, the settings as the
    defaults. *)
Theorem storage_readers_tolerate_corruption (E : env) (w : world) :
  (∀ s, items (active w) w !! STORAGE_KEYS_CACHE = Some (Raw s) →
     getCache w = (Ret (VObj ∅), w) ∧
     (∀ key, getCachedValue E key w = (Ret (absent key), w)) ∧
     (∀ key, key ∉ Object_prototype →
        getCachedValue E key w = (Ret (Some VNull), w)) ∧
     getCachedValue E "constructor" w = (Ret undefined, w)) ∧
  (∀ s, items (active w) w !! STORAGE_KEYS_TRACKED_REPOS = Some (Raw s) →
     getTrackedRepos w = (Ret (VArr []), w)) ∧
  (∀ s, items (active w) w !! STORAGE_KEYS_DASHBOARD_SETTINGS = Some (Raw s) →
     getDashboardSettings w = (Ret DEFAULT_DASHBOARD_SETTINGS, w)).
Proof.
  split; [|split].
  - intros s Hs.
    assert (Hc : cache_of w = VObj ∅) by (unfold cache_of; by rewrite Hs).
    split; [by rewrite getCache_run, Hc|]. split; [|split].
    + intros key. by apply (getCachedValue_absent E w key ∅).
    + intros key Hkey. by apply (getCachedValue_missing E w key ∅).
    + apply (getCachedValue_inherited E w _ ∅); [done..|].
      unfold Object_prototype. set_solver.
  - intros s Hs. rewrite getTrackedRepos_run. unfold tracked_of. by rewrite Hs.
  - intros s Hs. rewrite getDashboardSettings_run. unfold settings_of. by rewrite Hs.
Qed.

(** ** The tracked list *)

Lemma filter_id_run l repoId :
  Forall (λ r, r ≠ VNull) l → filter_id l repoId = Some (without_id repoId l).
Proof.
  induction 1 as [|r l Hr _ IH]; [done|].
  simpl. rewrite (prop_id_of r Hr), IH. unfold without_id.
  rewrite filter_cons. destruct (strict_eq (id_of r) repoId) eqn:Hs.
  - by rewrite decide_False by congruence.
  - by rewrite decide_True.
Qed.

Lemma without_id_length id l :
  (length (without_id id l) ≤ length l)%nat ∧
  (length (without_id id l) = length l →
   Forall (λ r, strict_eq (id_of r) id = false) l).
Proof.
  unfold without_id. induction l as [|r l [IHle IHeq]]; [by split|].
  rewrite filter_cons. case_decide; simpl; split; try lia.
  intros Hlen. constructor; [done|]. apply IHeq. lia.
Qed.

Lemma without_id_all id l :
  Forall (λ r, strict_eq (id_of r) id = false) l → without_id id l = l.
Proof.
  unfold without_id. induction 1 as [|r l Hr _ IH]; [done|].
  by rewrite filter_cons, decide_True, IH.
Qed.

Lemma without_id_none id l :
  Forall (λ r, strict_eq (id_of r) id = false) (without_id id l).
Proof.
  apply Forall_forall. intros r Hr. unfold without_id in Hr.
  by apply list_elem_of_filter in Hr as [Hr _].
Qed.

Lemma find_by_id_none l id :
  Forall (λ r, r ≠ VNull) l → Forall (λ r, strict_eq (id_of r) id = false) l →
  find_by "id" l id = Some undefined.
Proof.
  induction 1 as [|r l Hr _ IH]; intros Hall; [done|].
  apply Forall_cons in Hall as [Hno Hall].
  simpl. rewrite (prop_id_of r Hr), Hno. by apply IH.
Qed.

Lemma find_by_id_app_last l id r :
  Forall (λ x, x ≠ VNull) l → Forall (λ x, strict_eq (id_of x) id = false) l →
  r ≠ VNull → strict_eq (id_of r) id = true →
  find_by "id" (l ++ [r]) id = Some (Some r).
Proof.
  intros Hnn Hall Hr Heq. induction Hnn as [|x l Hx _ IH]; simpl.
  - by rewrite (prop_id_of r Hr), Heq.
  - apply Forall_cons in Hall as [Hno Hall].
    rewrite (prop_id_of x Hx), Hno. by apply IH.
Qed.

Lemma findIndex_id_none l id :
  Forall (λ r, r ≠ VNull) l → Forall (λ r, strict_eq (id_of r) id = false) l →
  findIndex_id l id = Some None.
Proof.
  induction 1 as [|r l Hr _ IH]; intros Hall; [done|].
  apply Forall_cons in Hall as [Hno Hall].
  simpl. rewrite (prop_id_of r Hr), Hno. by rewrite IH.
Qed.

Lemma findIndex_id_first l id i r :
  Forall (λ x, x ≠ VNull) l → l !! i = Some r →
  strict_eq (id_of r) id = true →
  (∀ j x, (j < i)%nat → l !! j = Some x → strict_eq (id_of x) id = false) →
  findIndex_id l id = Some (Some i).
Proof.
  intros Hnn. revert i. induction Hnn as [|x l Hx _ IH]; intros i Hi Heq Hbefore;
    [done|].
  simpl. rewrite (prop_id_of x Hx). destruct i as [|i].
  - injection Hi as ->. by rewrite Heq.
  - rewrite (Hbefore O x) by (done || lia).
    rewrite (IH i); [done|done|done|].
    intros j y Hj Hy. apply (Hbefore (S j) y); [lia|done].
Qed.

Lemma setTrackedRepos_accepted E repos w :
  accepts E w STORAGE_KEYS_TRACKED_REPOS (JSON_stringify repos) →
  setTrackedRepos E repos w
  = (Ret tt, written w STORAGE_KEYS_TRACKED_REPOS (JSON_stringify repos)).
Proof. apply safeSetItem_accepted. Qed.

Lemma getTrackedRepoById_run id w l :
  tracked_of w = VArr l →
  getTrackedRepoById id w
  = match find_by "id" l id with
    | Some found => (Ret (or_null found), w)
    | None => (Throw TypeError, w)
    end.
Proof.
  intros Ht. unfold getTrackedRepoById, bind.
  rewrite getTrackedRepos_run, Ht. simpl.
  by destruct (find_by "id" l id).
Qed.

(** Reading a field of an object literal whose keys are closed strings. *)
Ltac obj_of_lookup :=
  repeat (rewrite lookup_obj_of_cons;
          match goal with
          | |- context [decide (?a = ?b)] =>
              first [ rewrite (decide_True (P := a = b)) by reflexivity
                    | rewrite (decide_False (P := a = b)) by discriminate ]
          end).

Lemma tracked_entry_of_fields (repo : js) (k : string) :
  own_props (Some (tracked_entry_of repo)) !! k
  = if decide (k ∈ ["id"; "full_name"; "name"; "owner"; "owner_type"]%string)
    then own_props repo !! k
    else if decide (k = "pinned"%string) then Some (VBool false)
    else if decide (k = "notes"%string) then Some (VStr "")
    else None.
Proof.
  unfold tracked_entry_of. cbn [own_props].
  destruct (decide (k ∈ ["id"; "full_name"; "name"; "owner"; "owner_type"]%string))
    as [Hin|Hnin].
  - repeat (apply elem_of_cons in Hin as [->|Hin]);
      try (by apply elem_of_nil in Hin);
      obj_of_lookup; by destruct (own_props repo !! _).
  - assert (Hne : ∀ x, x ∈ ["id"; "full_name"; "name"; "owner"; "owner_type"]%string
                       → x ≠ k) by (intros x Hx ->; done).
    do 5 (rewrite lookup_obj_of_cons, decide_False by (apply Hne; set_solver)).
    destruct (decide (k = "pinned"%string)) as [->|Hp]; [by obj_of_lookup|].
    rewrite lookup_obj_of_cons, decide_False by done.
    destruct (decide (k = "notes"%string)) as [->|Hn]; [by obj_of_lookup|].
    by rewrite lookup_obj_of_cons, decide_False by done.
Qed.

(** X3.  Adding a repository whose id no entry of the stored list has:
    when the browser accepts the write, [addTrackedRepo] returns [true] and
    the stored list is the old one followed by one entry that copies [id],
    [full_name], [name], [owner] and [owner_type] from the repository, has
    [pinned] false and [notes] empty, and has no other field; looking the
    id up afterwards returns that entry. *)
Theorem addTrackedRepo_appends (E : env) (w : world) (l : list value)
    (repo : js) :
  tracked_of w = VArr l → Forall (λ r, r ≠ VNull) l →
  is_nullish repo = false →
  Forall (λ r, strict_eq (id_of r) (own_props repo !! "id") = false) l →
  accepts E w STORAGE_KEYS_TRACKED_REPOS
    (JSON_stringify (VArr (l ++ [tracked_entry_of repo]))) →
  ∃ w',
    addTrackedRepo E repo w = (Ret true, w') ∧
    getTrackedRepos w' = (Ret (VArr (l ++ [tracked_entry_of repo])), w') ∧
    (∀ k, own_props (Some (tracked_entry_of repo)) !! k
          = if decide (k ∈ ["id"; "full_name"; "name"; "owner"; "owner_type"]%string)
            then own_props repo !! k
            else if decide (k = "pinned"%string) then Some (VBool false)
            else if decide (k = "notes"%string) then Some (VStr "")
            else None) ∧
    (strict_eq (own_props repo !! "id") (own_props repo !! "id") = true →
     getTrackedRepoById (own_props repo !! "id") w'
     = (Ret (tracked_entry_of repo), w')).
Proof.
  intros Ht Hnn Hrepo Hnew Hacc.
  assert (Hfields : ∀ k, own_props (Some (tracked_entry_of repo)) !! k
          = if decide (k ∈ ["id"; "full_name"; "name"; "owner"; "owner_type"]%string)
            then own_props repo !! k
            else if decide (k = "pinned"%string) then Some (VBool false)
            else if decide (k = "notes"%string) then Some (VStr "")
            else None).
  { intros k. apply tracked_entry_of_fields. }
  exists (written w STORAGE_KEYS_TRACKED_REPOS
            (JSON_stringify (VArr (l ++ [tracked_entry_of repo])))).
  assert (Hsome : some_id l repo = Some false).
  { clear Hacc Ht. induction Hnn as [|r l Hr _ IH]; [done|].
    apply Forall_cons in Hnew as [Hno Hnew]. simpl.
    rewrite (prop_id_of r Hr). unfold prop at 1. rewrite Hrepo, Hno. by apply IH. }
  split; [|split; [|split; [exact Hfields|]]].
  - unfold addTrackedRepo, bind. rewrite getTrackedRepos_run, Ht. simpl.
    rewrite Hsome. simpl. unfold prop. rewrite Hrepo.
    unfold or_TypeError, ret.
    match goal with
    | |- context [setTrackedRepos E ?v w] =>
        change v with (VArr (l ++ [tracked_entry_of repo]))
    end.
    by rewrite (setTrackedRepos_accepted E _ w Hacc).
  - by rewrite getTrackedRepos_run, tracked_of_written.
  - intros Hrefl.
    rewrite (getTrackedRepoById_run _ _ (l ++ [tracked_entry_of repo]))
      by apply tracked_of_written.
    rewrite (find_by_id_app_last l _ (tracked_entry_of repo)); try done.
    unfold id_of. rewrite Hfields. by rewrite decide_True by set_solver.
Qed.

(** Witness of X3: a third repository added to [tracking_two]. *)
Lemma addTrackedRepo_appends_witness :
  ∃ w',
    addTrackedRepo roomy (Some (repo_stub 3 "C")) tracking_two = (Ret true, w') ∧
    getTrackedRepoById (Some (VNum 3)) w'
    = (Ret (tracked_entry_of (Some (repo_stub 3 "C"))), w').
Proof.
  destruct (addTrackedRepo_appends roomy tracking_two
              [repo_stub 1 "A"; repo_stub 2 "B"] (Some (repo_stub 3 "C")))
    as (w' & Hadd & _ & _ & Hfind).
  - reflexivity.
  - repeat constructor; discriminate.
  - reflexivity.
  - repeat constructor.
  - reflexivity.
  - exists w'. split; [exact Hadd|]. apply Hfind. reflexivity.
Defined.

(** X4.  Removing an id from a stored list without [null] entries: when
    no entry has the id, [removeTrackedRepo] returns [false] and changes
    nothing; when some entry has it and the browser accepts the write, it
    returns [true], the stored list is the old one without the entries of
    that id, the others in their order, and looking the id up afterwards
    returns [null]. *)
Theorem removeTrackedRepo_removes (E : env) (w : world) (l : list value)
    (repoId : js) :
  tracked_of w = VArr l → Forall (λ r, r ≠ VNull) l →
  (Forall (λ r, strict_eq (id_of r) repoId = false) l →
   removeTrackedRepo E repoId w = (Ret false, w)) ∧
  (Exists (λ r, strict_eq (id_of r) repoId = true) l →
   accepts E w STORAGE_KEYS_TRACKED_REPOS
     (JSON_stringify (VArr (without_id repoId l))) →
   ∃ w',
     removeTrackedRepo E repoId w = (Ret true, w') ∧
     getTrackedRepos w' = (Ret (VArr (without_id repoId l)), w') ∧
     getTrackedRepoById repoId w' = (Ret VNull, w')).
Proof.
  intros Ht Hnn. split.
  - intros Hnone. unfold removeTrackedRepo, bind.
    rewrite getTrackedRepos_run, Ht. simpl.
    rewrite (filter_id_run l repoId Hnn), (without_id_all _ _ Hnone). simpl.
    by rewrite Nat.eqb_refl.
  - intros Hsome Hacc.
    exists (written w STORAGE_KEYS_TRACKED_REPOS
              (JSON_stringify (VArr (without_id repoId l)))).
    split; [|split].
    + unfold removeTrackedRepo, bind.
      rewrite getTrackedRepos_run, Ht. simpl.
      rewrite (filter_id_run l repoId Hnn). simpl.
      destruct (length (without_id repoId l) =? length l)%nat eqn:Hlen.
      * apply Nat.eqb_eq, without_id_length in Hlen.
        apply Exists_exists in Hsome as (r & Hr & Heq).
        rewrite Forall_forall in Hlen. specialize (Hlen r Hr). congruence.
      * by rewrite (setTrackedRepos_accepted E _ w Hacc).
    + by rewrite getTrackedRepos_run, tracked_of_written.
    + rewrite (getTrackedRepoById_run _ _ (without_id repoId l))
        by apply tracked_of_written.
      rewrite find_by_id_none; [done| |apply without_id_none].
      apply Forall_forall. intros r Hr. unfold without_id in Hr.
      apply list_elem_of_filter in Hr as [_ Hr].
      rewrite Forall_forall in Hnn. by apply Hnn.
Qed.

(** Witness of X4: removing 1 from [tracking_two] leaves 2, and removing 5
    changes nothing. *)
Lemma removeTrackedRepo_removes_witness :
  removeTrackedRepo roomy (Some (VNum 5)) tracking_two = (Ret false, tracking_two) ∧
  ∃ w',
    removeTrackedRepo roomy (Some (VNum 1)) tracking_two = (Ret true, w') ∧
    getTrackedRepos w' = (Ret (VArr [repo_stub 2 "B"]), w').
Proof.
  split.
  - destruct (removeTrackedRepo_removes roomy tracking_two
                [repo_stub 1 "A"; repo_stub 2 "B"] (Some (VNum 5)) eq_refl)
      as [Hnone _].
    + repeat constructor; discriminate.
    + apply Hnone. repeat constructor.
  - destruct (removeTrackedRepo_removes roomy tracking_two
                [repo_stub 1 "A"; repo_stub 2 "B"] (Some (VNum 1)) eq_refl)
      as [_ Hsome].
    + repeat constructor; discriminate.
    + destruct Hsome as (w' & Hrun & Hget & _).
      * apply Exists_cons_hd. reflexivity.
      * reflexivity.
      * exists w'. split; [exact Hrun|exact Hget].
Defined.

(** X5.  Updating an id in a stored list without [null] entries: when no
    entry has the id, [updateTrackedRepo] returns [false] and changes
    nothing; otherwise, the browser accepting the write, it returns [true]
    and the stored list differs from the old one only at the first entry
    with that id, which holds the fields of the update and, for the
    fields the update lacks, its own. *)
Theorem updateTrackedRepo_merges_first (E : env) (w : world) (l : list value)
    (repoId updates : js) :
  tracked_of w = VArr l → Forall (λ r, r ≠ VNull) l →
  (Forall (λ r, strict_eq (id_of r) repoId = false) l →
   updateTrackedRepo E repoId updates w = (Ret false, w)) ∧
  (∀ i r,
     l !! i = Some r → strict_eq (id_of r) repoId = true →
     (∀ j x, (j < i)%nat → l !! j = Some x → strict_eq (id_of x) repoId = false) →
     accepts E w STORAGE_KEYS_TRACKED_REPOS
       (JSON_stringify (VArr (<[i := VObj (spread (Some r) updates)]> l))) →
     ∃ w' l',
       updateTrackedRepo E repoId updates w = (Ret true, w') ∧
       getTrackedRepos w' = (Ret (VArr l'), w') ∧
       length l' = length l ∧
       (∀ j, j ≠ i → l' !! j = l !! j) ∧
       ∃ merged,
         l' !! i = Some (VObj merged) ∧
         ∀ k, merged !! k = match own_props updates !! k with
                            | Some v => Some v
                            | None => own_props (Some r) !! k
                            end).
Proof.
  intros Ht Hnn. split.
  - intros Hnone. unfold updateTrackedRepo, bind.
    rewrite getTrackedRepos_run, Ht. simpl.
    by rewrite (findIndex_id_none l repoId Hnn Hnone).
  - intros i r Hi Heq Hfirst Hacc.
    exists (written w STORAGE_KEYS_TRACKED_REPOS
              (JSON_stringify (VArr (<[i := VObj (spread (Some r) updates)]> l)))),
           (<[i := VObj (spread (Some r) updates)]> l).
    split; [|split; [|split; [|split]]].
    + unfold updateTrackedRepo, bind.
      rewrite getTrackedRepos_run, Ht. simpl.
      rewrite (findIndex_id_first l repoId i r Hnn Hi Heq Hfirst). simpl.
      rewrite Hi. by rewrite (setTrackedRepos_accepted E _ w Hacc).
    + by rewrite getTrackedRepos_run, tracked_of_written.
    + apply length_insert.
    + intros j Hj. by apply list_lookup_insert_ne.
    + exists (spread (Some r) updates). split.
      * apply list_lookup_insert_eq. by eapply lookup_lt_Some.
      * intros k. unfold spread.
        destruct (own_props updates !! k) as [v|] eqn:Hk.
        -- by apply lookup_union_Some_l.
        -- by rewrite lookup_union_r.
Qed.

(** Witness of X5: pinning repository 2 of [tracking_two]. *)
Lemma updateTrackedRepo_merges_first_witness :
  ∃ w' l',
    updateTrackedRepo roomy (Some (VNum 2))
      (Some (VObj {[ "pinned" := VBool true ]})) tracking_two = (Ret true, w') ∧
    getTrackedRepos w' = (Ret (VArr l'), w') ∧
    l' !! 0%nat = Some (repo_stub 1 "A").
Proof.
  destruct (updateTrackedRepo_merges_first roomy tracking_two
              [repo_stub 1 "A"; repo_stub 2 "B"] (Some (VNum 2))
              (Some (VObj {[ "pinned" := VBool true ]})) eq_refl)
    as [_ Hfound].
  - repeat constructor; discriminate.
  - destruct (Hfound 1%nat (repo_stub 2 "B")) as (w' & l' & Hrun & Hget & _ & Hother & _).
    + reflexivity.
    + reflexivity.
    + intros j x Hj Hx. destruct j as [|j]; [|lia].
      injection Hx as <-. reflexivity.
    + reflexivity.
    + exists w', l'. split; [exact Hrun|]. split; [exact Hget|].
      rewrite Hother by lia. reflexivity.
Defined.

(** ** The cache, key by key *)

Lemma obj_member_assigned (c : gmap string value) key entry key' :
  key' ≠ key → obj_member (assigned c key entry) key' = obj_member c key'.
Proof.
  intros Hne. unfold assigned.
  destruct (String.eqb key "__proto__" && negb (bool_decide (is_Some (c !! key))));
    [done|].
  unfold obj_member. by rewrite lookup_insert_ne.
Qed.

Lemma clock_written w key v : clock (written w key v) = clock w.
Proof. unfold written. by destruct (active w). Qed.

Lemma same_but_cache_written w v :
  same_but_cache w (written w STORAGE_KEYS_CACHE v).
Proof. apply same_but_cache_insert. Qed.

Lemma setCache_accepted E cache w :
  accepts E w STORAGE_KEYS_CACHE (JSON_stringify cache) →
  setCache E cache w = (Ret tt, written w STORAGE_KEYS_CACHE (JSON_stringify cache)).
Proof. apply safeSetItem_accepted. Qed.

(** X6.  Writing a key of the cache leaves the others alone: when the
    browser accepts the write, [setCachedValue key] returns, the fresh read
    of every other key returns at every time what it returned before, and
    no key of the storage but the cache has changed. *)
Theorem setCachedValue_frame (E : env) (w : world) (key : string) (data : js)
    (t : Z) (c : gmap string value) :
  cache_of w = VObj c →
  accepts E w STORAGE_KEYS_CACHE
    (JSON_stringify (VObj (assigned c key (entry_of data (clock w) t)))) →
  ∃ w',
    setCachedValue E key data t w = (Ret tt, w') ∧
    (∀ key' now, key' ≠ key →
       (getCachedValue E key' (with_clock now w')).1
       = (getCachedValue E key' (with_clock now w)).1) ∧
    same_but_cache w w'.
Proof.
  intros Hc Hacc. eexists. split; [by apply setCachedValue_stored|].
  split; [|apply same_but_cache_written].
  intros key' now Hne.
  rewrite (getCachedValue_obj E key' _ (assigned c key (entry_of data (clock w) t)))
    by (by rewrite cache_of_with_clock, cache_of_written).
  rewrite (getCachedValue_obj E key' _ c) by (by rewrite cache_of_with_clock).
  simpl. by rewrite obj_member_assigned.
Qed.

(** Witness of X6: a second key written into the cache of [expiring]. *)
Lemma setCachedValue_frame_witness :
  ∃ w',
    setCachedValue roomy "other" (Some (VNum 9)) 5 expiring = (Ret tt, w') ∧
    (getCachedValue roomy "k" (with_clock 1500 w')).1 = Ret (Some (VNum 7)).
Proof.
  destruct (setCachedValue_frame roomy expiring "other" (Some (VNum 9)) 5
              {[ "k" := cache_entry (VNum 7) 2000 1000 ]} eq_refl eq_refl)
    as (w' & Hset & Hframe & _).
  exists w'. split; [exact Hset|]. rewrite Hframe by discriminate. reflexivity.
Defined.

(** X7.  After [removeCachedValue key], the browser accepting the write,
    the fresh read of [key] returns at every time what it returns for an
    absent entry: [null], except for a key that names a member of
    [Object.prototype], which [delete] does not remove and for which the
    read returns [undefined]; the fresh read of every other key returns
    what it returned before. *)
Theorem removeCachedValue_removes (E : env) (w : world) (key : string)
    (c : gmap string value) :
  cache_of w = VObj c →
  accepts E w STORAGE_KEYS_CACHE (JSON_stringify (VObj (delete key c))) →
  ∃ w',
    removeCachedValue E key w = (Ret tt, w') ∧
    (∀ now, (getCachedValue E key (with_clock now w')).1 = Ret (absent key)) ∧
    (key ∉ Object_prototype →
     ∀ now, (getCachedValue E key (with_clock now w')).1 = Ret (Some VNull)) ∧
    (∀ key' now, key' ≠ key →
       (getCachedValue E key' (with_clock now w')).1
       = (getCachedValue E key' (with_clock now w)).1).
Proof.
  intros Hc Hacc.
  exists (written w STORAGE_KEYS_CACHE (JSON_stringify (VObj (delete key c)))).
  assert (Hgone : ∀ now,
    (getCachedValue E key
       (with_clock now
          (written w STORAGE_KEYS_CACHE (JSON_stringify (VObj (delete key c)))))).1
    = Ret (absent key)).
  { intros now.
    rewrite (getCachedValue_obj E key _ (delete key c))
      by (by rewrite cache_of_with_clock, cache_of_written).
    cbn [fst]. apply read_entry_absent, lookup_delete_eq. }
  split; [|split; [|split]].
  - unfold removeCachedValue, bind. rewrite getCache_run, Hc. simpl.
    by apply setCache_accepted.
  - exact Hgone.
  - intros Hkey now. rewrite Hgone. unfold absent.
    by rewrite bool_decide_eq_false_2.
  - intros key' now Hne.
    rewrite (getCachedValue_obj E key' _ (delete key c))
      by (by rewrite cache_of_with_clock, cache_of_written).
    rewrite (getCachedValue_obj E key' _ c) by (by rewrite cache_of_with_clock).
    simpl. unfold obj_member. by rewrite lookup_delete_ne.
Qed.

(** Witness of X7: the only entry of [expiring] removed. *)
Lemma removeCachedValue_removes_witness :
  ∃ w',
    removeCachedValue roomy "k" expiring = (Ret tt, w') ∧
    (getCachedValue roomy "k" (with_clock 1500 w')).1 = Ret (Some VNull).
Proof.
  destruct (removeCachedValue_removes roomy expiring "k"
              {[ "k" := cache_entry (VNum 7) 2000 1000 ]} eq_refl eq_refl)
    as (w' & Hrun & _ & Hgone & _).
  exists w'. split; [exact Hrun|]. apply Hgone.
  unfold Object_prototype. intros Hin.
  repeat (apply elem_of_cons in Hin as [Hin|Hin]; [discriminate Hin|]).
  by apply elem_of_nil in Hin.
Defined.

(** After [clearAllCache] the fresh read of every key returns at every
    time what it returns for an absent entry, and no key of the storage
    but the cache has changed. *)
Theorem clearAllCache_empties (E : env) (w : world) :
  ∃ w',
    clearAllCache w = (Ret tt, w') ∧
    (∀ key now, getCachedValue E key (with_clock now w')
                = (Ret (absent key), with_clock now w')) ∧
    same_but_cache w w'.
Proof.
  exists (with_items (active w) (delete STORAGE_KEYS_CACHE (items (active w) w)) w).
  split; [reflexivity|].
  assert (Hsame : same_but_cache w
            (with_items (active w) (delete STORAGE_KEYS_CACHE (items (active w) w)) w))
    by apply same_but_cache_delete.
  split; [|exact Hsame].
  intros key now. apply (getCachedValue_absent E _ key ∅); [|done].
  rewrite cache_of_with_clock. unfold cache_of.
  rewrite (same_but_cache_active _ _ Hsame), items_with_items, decide_True by done.
  by rewrite lookup_delete_eq.
Qed.

Lemma keeps_numeric E now en e :
  en !! "expires" = Some (VNum e) →
  keeps E now (VObj en) = (e =? 0) || (now <? e).
Proof.
  intros He. unfold keeps, prop. simpl. rewrite He. simpl.
  unfold gt_now. simpl. by rewrite negb_involutive.
Qed.

Lemma clearStaleCache_accepted E w c :
  cache_of w = VObj c → (∀ k v, c !! k = Some v → v ≠ VNull) →
  accepts E w STORAGE_KEYS_CACHE (JSON_stringify (VObj (swept E (clock w) c))) →
  clearStaleCache E w
  = (Ret tt, written w STORAGE_KEYS_CACHE
               (JSON_stringify (VObj (swept E (clock w) c)))).
Proof.
  intros Hc Hnn Hacc. unfold clearStaleCache, clearStaleCache_with, bind.
  rewrite getCache_run, Hc. unfold Date_now. simpl.
  destruct (existsb _ (map_to_list c)) eqn:Hex.
  - apply existsb_exists in Hex as ([k v] & Hin & Hnull). simpl in Hnull.
    apply list_elem_of_In, elem_of_map_to_list in Hin.
    specialize (Hnn k v Hin). by destruct v.
  - by apply setCache_accepted.
Qed.

Lemma read_entry_numeric E en e now :
  en !! "expires" = Some (VNum e) →
  read_entry E (Plain (Some (VObj en))) now
  = if negb (e =? 0) && (e <? now) then Ret (Some VNull) else Ret (en !! "data").
Proof.
  intros He. unfold read_entry. simpl. rewrite He. simpl.
  unfold now_gt. simpl. by destruct (negb (e =? 0) && (e <? now)).
Qed.

Lemma lookup_swept E now (c : gmap string value) key en e :
  c !! key = Some (VObj en) → en !! "expires" = Some (VNum e) →
  swept E now c !! key
  = if ((e =? 0) || (now <? e)) && negb (String.eqb key "__proto__")
    then Some (VObj en) else None.
Proof.
  intros Hk He. unfold swept.
  destruct (String.eqb key "__proto__") eqn:Hp.
  { apply String.eqb_eq in Hp. subst key.
    rewrite andb_false_r. apply lookup_delete_eq. }
  apply String.eqb_neq in Hp. rewrite lookup_delete_ne by done.
  rewrite andb_true_r.
  destruct ((e =? 0) || (now <? e)) eqn:Hkeep.
  - apply map_lookup_filter_Some. split; [done|]. simpl.
    by rewrite (keeps_numeric E _ en e He).
  - apply map_lookup_filter_None. right. intros v Hv. simpl.
    rewrite Hk in Hv. injection Hv as <-.
    rewrite (keeps_numeric E _ en e He). congruence.
Qed.

(** X8.  [clearStaleCache] on a cache without [null] entries, the browser
    accepting the write: an entry whose [expires] is the number [e] stays
    if and only if [e] is 0 or [e > now], and its key is not [__proto__]
    (under that key [cleaned[key] = entry] stores nothing, so that even a
    fresh entry is lost).  The fresh read of a key whose entry stays
    returns what it returned before.  The fresh read of a key whose entry
    is evicted returns what it returns for an absent entry; for a key that
    is not a name of [Object.prototype] and an [e] other than [now] that is
    what it returned before.  When [e] is exactly [now] the two tests
    disagree: the fresh read served the payload before the sweep, and
    does not afterwards. *)
Theorem clearStaleCache_evicts (E : env) (w : world) (c : gmap string value) :
  cache_of w = VObj c → (∀ k v, c !! k = Some v → v ≠ VNull) →
  accepts E w STORAGE_KEYS_CACHE (JSON_stringify (VObj (swept E (clock w) c))) →
  ∃ w' c',
    clearStaleCache E w = (Ret tt, w') ∧ cache_of w' = VObj c' ∧
    clock w' = clock w ∧
    (∀ key, c !! key = None → c' !! key = None) ∧
    (∀ key en e,
       c !! key = Some (VObj en) → en !! "expires" = Some (VNum e) →
       c' !! key = (if ((e =? 0) || (clock w <? e))
                       && negb (String.eqb key "__proto__")
                    then Some (VObj en) else None) ∧
       (is_Some (c' !! key) →
        (getCachedValue E key w').1 = (getCachedValue E key w).1) ∧
       (c' !! key = None → (getCachedValue E key w').1 = Ret (absent key)) ∧
       (key ∉ Object_prototype → e ≠ clock w →
        (getCachedValue E key w').1 = (getCachedValue E key w).1) ∧
       (e = clock w → e ≠ 0 →
        (getCachedValue E key w).1 = Ret (en !! "data") ∧
        (getCachedValue E key w').1 = Ret (absent key))).
Proof.
  intros Hc Hnn Hacc.
  exists (written w STORAGE_KEYS_CACHE
            (JSON_stringify (VObj (swept E (clock w) c)))),
         (swept E (clock w) c).
  split; [by apply clearStaleCache_accepted|].
  split; [apply cache_of_written|]. split; [apply clock_written|].
  split.
  { intros key Hnone. unfold swept.
    destruct (decide (key = "__proto__"%string)) as [->|Hp];
      [apply lookup_delete_eq|].
    rewrite lookup_delete_ne by done. apply map_lookup_filter_None. by left. }
  intros key en e Hk He.
  pose proof (lookup_swept E (clock w) c key en e Hk He) as Hc'.
  split; [exact Hc'|].
  assert (Hafter : (getCachedValue E key
                      (written w STORAGE_KEYS_CACHE
                         (JSON_stringify (VObj (swept E (clock w) c))))).1
                   = read_entry E (obj_member (swept E (clock w) c) key) (clock w)).
  { rewrite (getCachedValue_obj E key _ _ (cache_of_written w _)).
    by rewrite clock_written. }
  assert (Hbefore : (getCachedValue E key w).1
                    = if negb (e =? 0) && (e <? clock w)
                      then Ret (Some VNull) else Ret (en !! "data")).
  { rewrite (getCachedValue_obj E key w c Hc). cbn [fst].
    unfold obj_member. rewrite Hk. apply (read_entry_numeric E en e _ He). }
  assert (Hevicted : swept E (clock w) c !! key = None →
                     (getCachedValue E key
                        (written w STORAGE_KEYS_CACHE
                           (JSON_stringify (VObj (swept E (clock w) c))))).1
                     = Ret (absent key)).
  { intros Hnone. rewrite Hafter. by apply read_entry_absent. }
  assert (Hkept : is_Some (swept E (clock w) c !! key) →
                  (getCachedValue E key
                     (written w STORAGE_KEYS_CACHE
                        (JSON_stringify (VObj (swept E (clock w) c))))).1
                  = (getCachedValue E key w).1).
  { intros Hsome. rewrite Hafter, Hbefore. unfold obj_member.
    rewrite Hc' in Hsome |- *.
    destruct (((e =? 0) || (clock w <? e)) && negb (String.eqb key "__proto__"));
      [|by destruct Hsome].
    apply (read_entry_numeric E en e _ He). }
  split; [exact Hkept|]. split; [exact Hevicted|]. split.
  - intros Hkey Hne.
    assert (Hp : String.eqb key "__proto__" = false).
    { apply String.eqb_neq. intros ->. apply Hkey.
      unfold Object_prototype. set_solver. }
    destruct ((e =? 0) || (clock w <? e)) eqn:Hkeep.
    + apply Hkept. rewrite Hc', Hp. by eexists.
    + rewrite Hevicted by (by rewrite Hc').
      rewrite Hbefore. unfold absent. rewrite bool_decide_eq_false_2 by done.
      apply orb_false_iff in Hkeep as [Hz Hlt]. rewrite Hz. cbn [negb andb].
      apply Z.ltb_ge in Hlt. apply Z.eqb_neq in Hz.
      by replace (e <? clock w) with true by (symmetry; apply Z.ltb_lt; lia).
  - intros -> Hnz. split.
    + rewrite Hbefore. by rewrite Z.ltb_irrefl, andb_false_r.
    + apply Hevicted. rewrite Hc'.
      replace (clock w =? 0) with false by (symmetry; by apply Z.eqb_neq).
      by rewrite Z.ltb_irrefl.
Qed.

(** Witness of X8: [half_stale] loses its expired entry and keeps the
    fresh one. *)
Lemma clearStaleCache_evicts_witness :
  ∃ w' c',
    clearStaleCache roomy half_stale = (Ret tt, w') ∧ cache_of w' = VObj c' ∧
    c' !! "commits_a_b" = None ∧
    c' !! "org_repos_x" = Some (cache_entry (VNum 2) 1800000000000 1700000000000).
Proof.
  destruct (clearStaleCache_evicts roomy half_stale
              (list_to_map
                 [ ("commits_a_b", cache_entry (VNum 1) 1000 900);
                   ("org_repos_x", cache_entry (VNum 2) 1800000000000 1700000000000) ])
              eq_refl) as (w' & c' & Hrun & Hc' & _ & _ & Hentries).
  - apply (map_Forall_to_list (λ _ v, v ≠ VNull)).
    vm_compute. repeat constructor; discriminate.
  - reflexivity.
  - exists w', c'. split; [exact Hrun|]. split; [exact Hc'|]. split.
    + destruct (Hentries "commits_a_b"
                  (list_to_map [ ("data", VNum 1); ("expires", VNum 1000);
                                 ("timestamp", VNum 900) ]) 1000 eq_refl eq_refl)
        as [Hgone _]. exact Hgone.
    + destruct (Hentries "org_repos_x"
                  (list_to_map [ ("data", VNum 2); ("expires", VNum 1800000000000);
                                 ("timestamp", VNum 1700000000000) ])
                  1800000000000 eq_refl eq_refl) as [Hkept _]. exact Hkept.
Defined.

(** ** The time of the last refresh *)

(** X9.  [getLastRefresh] returns [null] when nothing is stored.
    [setLastRefresh] writes without the quota handling of [safeSetItem]:
    when the browser accepts the item, reading it back returns the time of
    the write and the cache is as it was; when the browser refuses it, the
    [QuotaExceededError] reaches the caller as it is and nothing, the cache
    included, has changed. *)
Theorem lastRefresh_round_trip (E : env) (w : world) :
  (items (active w) w !! STORAGE_KEYS_LAST_REFRESH = None →
   getLastRefresh E w = (Ret None, w)) ∧
  (fits E (active w)
     (<[STORAGE_KEYS_LAST_REFRESH := Ser (VNum (clock w))]> (items (active w) w))
   = true →
   ∃ w',
     setLastRefresh E w = (Ret tt, w') ∧
     getLastRefresh E w' = (Ret (Some (Some (clock w))), w') ∧
     cache_of w' = cache_of w) ∧
  (fits E (active w)
     (<[STORAGE_KEYS_LAST_REFRESH := Ser (VNum (clock w))]> (items (active w) w))
   = false →
   setLastRefresh E w = (Throw QuotaExceededError, w)).
Proof.
  split; [|split].
  - intros Hnone. unfold getLastRefresh, bind, getItem.
    rewrite getActiveStorage_run. by rewrite Hnone.
  - intros Hfit.
    exists (written w STORAGE_KEYS_LAST_REFRESH (Ser (VNum (clock w)))).
    split; [|split].
    + unfold setLastRefresh, bind, Date_now, setItem.
      rewrite getActiveStorage_run. by rewrite Hfit.
    + unfold getLastRefresh, bind, getItem. rewrite getActiveStorage_run.
      by rewrite lookup_written.
    + unfold cache_of. by rewrite lookup_written_ne.
  - intros Hfit. unfold setLastRefresh, bind, Date_now, setItem.
    rewrite getActiveStorage_run. by rewrite Hfit.
Qed.

(** ** Integrity of the stored data *)

Lemma getStoredUserInfo_run w :
  getStoredUserInfo w
  = parse_or_null (text_or (localStorage w !! "user_info")
                           (sessionStorage w !! "user_info")) w.
Proof. reflexivity. Qed.

(** X10.  [validateDataIntegrity], when the stored profile parses: the
    data is reported valid if and only if the profile is absent (or falsy)
    or has a truthy [login] and a truthy [id], and the stored tracked list
    reads as an array; nothing is changed.  When the stored profile is a
    string that is not JSON, the [SyntaxError] reaches the caller. *)
Theorem validateDataIntegrity_verdict (w : world) :
  (∀ userInfo,
     getStoredUserInfo w = (Ret userInfo, w) →
     ∃ issues,
       validateDataIntegrity w
       = (Ret ((negb (truthy (Some userInfo))
                || truthy (own_props (Some userInfo) !! "login")
                   && truthy (own_props (Some userInfo) !! "id"))
               && match tracked_of w with
                  | VArr _ => true
                  | _ => false
                  end,
               issues), w)) ∧
  (getStoredUserInfo w = (Throw SyntaxError, w) →
   validateDataIntegrity w = (Throw SyntaxError, w)).
Proof.
  split.
  - intros userInfo Hu. unfold validateDataIntegrity. unfold bind at 1.
    rewrite Hu.
    destruct (truthy (Some userInfo)) eqn:Ht.
    + assert (Hnn : is_nullish (Some userInfo) = false) by (by destruct userInfo).
      unfold prop. rewrite Hnn. unfold or_TypeError, ret, bind.
      rewrite getTrackedRepos_run, getDashboardSettings_run.
      destruct (truthy (own_props (Some userInfo) !! "login")),
               (truthy (own_props (Some userInfo) !! "id")),
               (tracked_of w); simpl; by eexists.
    + unfold or_TypeError, ret, bind.
      rewrite getTrackedRepos_run, getDashboardSettings_run.
      destruct (tracked_of w); simpl; by eexists.
  - intros Hu. unfold validateDataIntegrity, bind. by rewrite Hu.
Qed.

(** ** Import *)

Lemma comes_back_ret {A} (a : A) : comes_back (ret a).
Proof. by intros w. Qed.

Lemma comes_back_throw {A} e : comes_back (@throw A e).
Proof. by intros w. Qed.

Lemma comes_back_or_TypeError {A} (o : option A) : comes_back (or_TypeError o).
Proof. destruct o; [apply comes_back_ret|apply comes_back_throw]. Qed.

Lemma comes_back_bind {A B} (m : M A) (k : A → M B) :
  comes_back m → (∀ a, comes_back (k a)) → comes_back (bind m k).
Proof.
  intros Hm Hk w. unfold bind. specialize (Hm w).
  destruct (m w) as [[a|e|] w']; simpl in *; [apply Hk|done|done].
Qed.

Lemma comes_back_setItem E a k v : comes_back (setItem E a k v).
Proof. intros w. unfold setItem. by destruct (fits E a _). Qed.

Lemma comes_back_safeSetItem E key v useSession :
  comes_back (safeSetItem E key v useSession).
Proof.
  intros w. unfold safeSetItem.
  destruct (safeSetItem_at_cases E (stack E) key v useSession w)
    as [[_ H]|[_ (e & w' & H & _)]]; by rewrite H.
Qed.

Lemma comes_back_when_truthy (x : js) (f : value → M unit) :
  (∀ v, comes_back (f v)) → comes_back (when_truthy x f).
Proof.
  intros Hf. unfold when_truthy. destruct x as [v|]; [|apply comes_back_ret].
  destruct (truthy (Some v)); [apply Hf|apply comes_back_ret].
Qed.

Lemma comes_back_storeUserInfo E v : comes_back (storeUserInfo E v).
Proof.
  apply comes_back_bind; [by intros w|]. intros a. apply comes_back_setItem.
Qed.

Lemma comes_back_storeOrganizations E v : comes_back (storeOrganizations E v).
Proof.
  apply comes_back_bind; [by intros w|]. intros a.
  apply comes_back_bind; [apply comes_back_setItem|]. intros _.
  apply comes_back_bind; [by intros w|]. intros now. apply comes_back_setItem.
Qed.

Lemma comes_back_setDashboardSettings E x : comes_back (setDashboardSettings E x).
Proof.
  apply comes_back_bind; [intros w; by rewrite getDashboardSettings_run|].
  intros s. apply comes_back_safeSetItem.
Qed.

(** X11.  [importData] never throws and always comes back: it returns
    [true] or [false], whatever it is given and whatever the browser does;
    given [null] or [undefined] it returns [false] and changes nothing. *)
Theorem importData_never_throws (E : env) (data : js) (w : world) :
  (∃ b w', importData E data w = (Ret b, w')) ∧
  (is_nullish data = true → importData E data w = (Ret false, w)).
Proof.
  split.
  - unfold importData, try_catch.
    match goal with
    | |- context [match ?m w with _ => _ end] =>
        assert (Hback : comes_back m)
    end.
    { repeat (first [ apply comes_back_or_TypeError
                    | apply comes_back_when_truthy; intros ?
                    | apply comes_back_storeUserInfo
                    | apply comes_back_storeOrganizations
                    | apply comes_back_safeSetItem
                    | apply comes_back_setDashboardSettings
                    | apply comes_back_ret
                    | apply comes_back_bind; [|intros ?] ]). }
    specialize (Hback w).
    match goal with
    | |- context [match ?m w with _ => _ end] =>
        destruct (m w) as [[b|e|] w']; simpl in Hback
    end; [by eexists _, _|by eexists _, _|done].
  - intros Hnull. unfold importData, try_catch, bind, prop. by rewrite Hnull.
Qed.

Lemma always_fits_accepts E w key v : always_fits E → accepts E w key v.
Proof. intros H. apply H. Qed.

Lemma storeUserInfo_run E v w :
  always_fits E →
  storeUserInfo E v w = (Ret tt, written w "user_info" (JSON_stringify v)).
Proof.
  intros H. unfold storeUserInfo, bind, setItem. rewrite getActiveStorage_run.
  by rewrite H.
Qed.

Lemma storeOrganizations_run E v w :
  always_fits E →
  storeOrganizations E v w
  = (Ret tt, written (written w "organizations" (JSON_stringify v))
               "organizations_timestamp" (Ser (VNum (clock w)))).
Proof.
  intros H. unfold storeOrganizations, bind, setItem, Date_now.
  rewrite getActiveStorage_run. rewrite H.
  fold (written w "organizations" (JSON_stringify v)).
  rewrite H. rewrite clock_written. f_equal.
  unfold written at 3. by rewrite active_written.
Qed.

Lemma active_put x key w : key ≠ STORAGE_KEYS_PAT → active (put x key w) = active w.
Proof.
  intros Hk. unfold put. destruct x as [v|]; [|done].
  destruct (truthy (Some v)); [by apply active_written|done].
Qed.

Lemma clock_put x key w : clock (put x key w) = clock w.
Proof.
  unfold put. destruct x as [v|]; [|done].
  destruct (truthy (Some v)); [apply clock_written|done].
Qed.

Lemma lookup_put_ne x key w k :
  key ≠ STORAGE_KEYS_PAT → k ≠ key →
  items (active w) (put x key w) !! k = items (active w) w !! k.
Proof.
  intros Hkey Hk. unfold put. destruct x as [v|]; [|done].
  destruct (truthy (Some v)); [|done].
  rewrite <- (active_written w key (JSON_stringify v)) at 1 by done.
  by apply lookup_written_ne.
Qed.

Lemma items_written_other a w key v :
  a ≠ active w → items a (written w key v) = items a w.
Proof.
  intros Ha. unfold written. rewrite items_with_items. by rewrite decide_False.
Qed.

Lemma items_written_lookup_ne a w key v k :
  k ≠ key → items a (written w key v) !! k = items a w !! k.
Proof.
  intros Hk. unfold written. rewrite items_with_items. case_decide; [subst|done].
  by rewrite lookup_insert_ne.
Qed.

Lemma untouched_refl keys w : untouched keys w w.
Proof. by intros a k _. Qed.

Lemma untouched_trans keys w1 w2 w3 :
  untouched keys w1 w2 → untouched keys w2 w3 → untouched keys w1 w3.
Proof. intros H12 H23 a k Hk. rewrite H23, H12; done. Qed.

Lemma untouched_written keys w key v :
  key ∈ keys → untouched keys w (written w key v).
Proof.
  intros Hin a k Hk. apply items_written_lookup_ne. intros ->. done.
Qed.

Lemma untouched_active keys w w' :
  STORAGE_KEYS_PAT ∉ keys → untouched keys w w' → active w' = active w.
Proof.
  intros Hpat H. unfold active.
  change (localStorage w') with (items Local w').
  by rewrite (H Local STORAGE_KEYS_PAT Hpat).
Qed.

Lemma untouched_put keys x key w :
  key ∈ keys → untouched keys w (put x key w).
Proof.
  intros Hin. unfold put. destruct x as [v|]; [|apply untouched_refl].
  destruct (truthy (Some v)); [by apply untouched_written|apply untouched_refl].
Qed.

Lemma untouched_put_organizations x w :
  untouched imported_keys w (put_organizations x w).
Proof.
  unfold put_organizations. destruct x as [v|]; [|apply untouched_refl].
  destruct (truthy (Some v)); [|apply untouched_refl].
  eapply untouched_trans; apply untouched_written; unfold imported_keys; set_solver.
Qed.

Lemma untouched_put_settings x w :
  untouched imported_keys w (put_settings x w).
Proof.
  unfold put_settings. destruct x as [v|]; [|apply untouched_refl].
  destruct (truthy (Some v)); [|apply untouched_refl].
  apply untouched_written. unfold imported_keys. set_solver.
Qed.

Lemma when_truthy_storeUserInfo E x w :
  always_fits E →
  when_truthy x (storeUserInfo E) w = (Ret tt, put x "user_info" w).
Proof.
  intros H. unfold when_truthy, put. destruct x as [v|]; [|done].
  destruct (truthy (Some v)); [by apply storeUserInfo_run|done].
Qed.

Lemma when_truthy_storeOrganizations E x w :
  always_fits E →
  when_truthy x (storeOrganizations E) w = (Ret tt, put_organizations x w).
Proof.
  intros H. unfold when_truthy, put_organizations. destruct x as [v|]; [|done].
  destruct (truthy (Some v)); [by apply storeOrganizations_run|done].
Qed.

Lemma when_truthy_setTrackedRepos E x w :
  always_fits E →
  when_truthy x (setTrackedRepos E) w
  = (Ret tt, put x STORAGE_KEYS_TRACKED_REPOS w).
Proof.
  intros H. unfold when_truthy, put. destruct x as [v|]; [|done].
  destruct (truthy (Some v)); [|done].
  apply setTrackedRepos_accepted. by apply always_fits_accepts.
Qed.

Lemma when_truthy_setDashboardSettings E x w :
  always_fits E →
  when_truthy x (λ v, setDashboardSettings E (Some v)) w
  = (Ret tt, put_settings x w).
Proof.
  intros H. unfold when_truthy, put_settings. destruct x as [v|]; [|done].
  destruct (truthy (Some v)); [|done].
  unfold setDashboardSettings, bind. rewrite getDashboardSettings_run.
  apply safeSetItem_accepted. by apply always_fits_accepts.
Qed.

Lemma importData_run E d w :
  always_fits E →
  importData E (Some (VObj d)) w
  = (Ret true,
     put_settings (d !! "dashboard_settings")
       (put (d !! "tracked_repos") STORAGE_KEYS_TRACKED_REPOS
          (put_organizations (d !! "organizations")
             (put (d !! "user_info") "user_info" w)))).
Proof.
  intros H. unfold importData, try_catch, prop. cbn [is_nullish own_props].
  unfold or_TypeError.
  unfold bind at 1. unfold ret at 1.
  unfold bind at 1. rewrite (when_truthy_storeUserInfo E _ w H).
  unfold bind at 1. unfold ret at 1.
  unfold bind at 1. rewrite (when_truthy_storeOrganizations E _ _ H).
  unfold bind at 1. unfold ret at 1.
  unfold bind at 1. rewrite (when_truthy_setTrackedRepos E _ _ H).
  unfold bind at 1. unfold ret at 1.
  unfold bind at 1. rewrite (when_truthy_setDashboardSettings E _ _ H).
  reflexivity.
Qed.

Lemma untouched_put_settings_only x w :
  untouched [STORAGE_KEYS_DASHBOARD_SETTINGS] w (put_settings x w).
Proof.
  unfold put_settings. destruct x as [v|]; [|apply untouched_refl].
  destruct (truthy (Some v)); [|apply untouched_refl].
  apply untouched_written. set_solver.
Qed.

Lemma untouched_mono keys keys' w w' :
  (∀ k, k ∈ keys → k ∈ keys') → untouched keys w w' → untouched keys' w w'.
Proof. intros Hsub H a k Hk. apply H. intros Hin. by apply Hk, Hsub. Qed.

Lemma untouched_lookup_active keys w w' k :
  STORAGE_KEYS_PAT ∉ keys → k ∉ keys → untouched keys w w' →
  items (active w') w' !! k = items (active w) w !! k.
Proof.
  intros Hpat Hk H. rewrite (untouched_active keys w w' Hpat H). by apply H.
Qed.

Lemma clock_put_organizations x w : clock (put_organizations x w) = clock w.
Proof.
  unfold put_organizations. destruct x as [v|]; [|done].
  destruct (truthy (Some v)); [by rewrite !clock_written|done].
Qed.

Lemma clock_put_settings x w : clock (put_settings x w) = clock w.
Proof.
  unfold put_settings. destruct x as [v|]; [|done].
  destruct (truthy (Some v)); [by rewrite clock_written|done].
Qed.

Lemma isOrganizationsCacheValid_stamp E w stamp :
  items (active w) w !! "organizations_timestamp" = Some (Ser (VNum stamp)) →
  isOrganizationsCacheValid E w = (Ret (clock w - stamp <? 30 * 60 * 1000), w).
Proof.
  intros Hs. unfold isOrganizationsCacheValid, bind, getItem, Date_now.
  rewrite getActiveStorage_run. by rewrite Hs.
Qed.

(** X12.  [importData] of an object in a browser with room returns [true],
    and afterwards: an imported tracked list (truthy) is the stored list,
    replacing the old one; imported organizations (truthy) are stored with
    the time of the import as their timestamp, so that they count as fresh
    whatever their age; imported settings are merged over the current
    ones, field by field; and no key of the storage other than the
    profile, the organizations, their timestamp, the tracked list and the
    settings has changed (not the token, not the cache, not the time of
    the last refresh). *)
Theorem importData_with_room (E : env) (d : gmap string value) (w : world) :
  always_fits E →
  ∃ w',
    importData E (Some (VObj d)) w = (Ret true, w') ∧
    (∀ t, d !! "tracked_repos" = Some t → truthy (Some t) = true →
       getTrackedRepos w' = (Ret t, w')) ∧
    (∀ o, d !! "organizations" = Some o → truthy (Some o) = true →
       items (active w') w' !! "organizations" = Some (Ser o) ∧
       isOrganizationsCacheValid E w' = (Ret true, w')) ∧
    (∀ s, d !! "dashboard_settings" = Some (VObj s) →
       ∀ f, settings_of w' !! f = match s !! f with
                                  | Some v => Some v
                                  | None => settings_of w !! f
                                  end) ∧
    untouched imported_keys w w'.
Proof.
  intros Hroom. eexists. split; [by apply importData_run|].
  set (w1 := put (d !! "user_info") "user_info" w).
  set (w2 := put_organizations (d !! "organizations") w1).
  set (w3 := put (d !! "tracked_repos") STORAGE_KEYS_TRACKED_REPOS w2).
  set (w4 := put_settings (d !! "dashboard_settings") w3).
  assert (H1 : untouched ["user_info"%string] w w1)
    by (apply untouched_put; set_solver).
  assert (H2 : untouched ["organizations"; "organizations_timestamp"]%string w1 w2).
  { unfold w2, put_organizations. destruct (d !! "organizations") as [v|];
      [|apply untouched_refl].
    destruct (truthy (Some v)); [|apply untouched_refl].
    eapply untouched_trans; apply untouched_written; set_solver. }
  assert (H3 : untouched [STORAGE_KEYS_TRACKED_REPOS] w2 w3)
    by (apply untouched_put; set_solver).
  assert (H4 : untouched [STORAGE_KEYS_DASHBOARD_SETTINGS] w3 w4)
    by apply untouched_put_settings_only.
  split; [|split; [|split]].
  - intros t Ht Htruthy. rewrite getTrackedRepos_run. f_equal.
    unfold tracked_of.
    rewrite (untouched_lookup_active [STORAGE_KEYS_DASHBOARD_SETTINGS] w3 w4 _) by first [exact H4|set_solver].
    unfold w3, put. rewrite Ht, Htruthy. by rewrite lookup_written.
  - intros o Ho Htruthy.
    assert (Hw2 : items (active w2) w2 !! "organizations" = Some (Ser o) ∧
                  items (active w2) w2 !! "organizations_timestamp"
                  = Some (Ser (VNum (clock w)))).
    { unfold w2, put_organizations. rewrite Ho, Htruthy. split.
      - rewrite lookup_written_ne by done. by rewrite lookup_written.
      - rewrite lookup_written by done. unfold w1. by rewrite clock_put. }
    destruct Hw2 as [Horg Hstamp].
    assert (Hkeep : ∀ k, k ≠ STORAGE_KEYS_TRACKED_REPOS →
                         k ≠ STORAGE_KEYS_DASHBOARD_SETTINGS →
                         k ≠ STORAGE_KEYS_PAT →
                         items (active w4) w4 !! k = items (active w2) w2 !! k).
    { intros k Hk1 Hk2 Hk3.
      rewrite (untouched_lookup_active [STORAGE_KEYS_DASHBOARD_SETTINGS] w3 w4 k) by first [exact H4|set_solver].
      by rewrite (untouched_lookup_active [STORAGE_KEYS_TRACKED_REPOS] w2 w3 k) by first [exact H3|set_solver]. }
    split; [by rewrite Hkeep|].
    rewrite (isOrganizationsCacheValid_stamp E w4 (clock w)) by (by rewrite Hkeep).
    f_equal. f_equal.
    assert (Hclock : clock w4 = clock w).
    { unfold w4, w3, w2, w1.
      by rewrite clock_put_settings, clock_put, clock_put_organizations, clock_put. }
    rewrite Hclock, Z.sub_diag. reflexivity.
  - intros s Hs f.
    assert (Hw3 : settings_of w3 = settings_of w).
    { unfold settings_of.
      rewrite (untouched_lookup_active [STORAGE_KEYS_TRACKED_REPOS] w2 w3 _) by first [exact H3|set_solver].
      rewrite (untouched_lookup_active ["organizations"; "organizations_timestamp"]%string w1 w2 _) by first [exact H2|set_solver].
      by rewrite (untouched_lookup_active ["user_info"%string] w w1 _) by first [exact H1|set_solver]. }
    unfold w4, put_settings. rewrite Hs. cbn [truthy].
    rewrite settings_of_written. unfold spread. cbn [own_props]. rewrite Hw3.
    destruct (s !! f) as [v|] eqn:Hf.
    + by rewrite (lookup_union_Some_l _ _ _ _ Hf).
    + rewrite lookup_union_r by done.
      destruct (settings_of w !! f) eqn:Hsf; [done|].
      by apply settings_of_covers_defaults in Hsf.
  - eapply untouched_trans; [|eapply untouched_trans; [|eapply untouched_trans]].
    + eapply untouched_mono; [|exact H1]. unfold imported_keys. set_solver.
    + eapply untouched_mono; [|exact H2]. unfold imported_keys. set_solver.
    + eapply untouched_mono; [|exact H3]. unfold imported_keys. set_solver.
    + eapply untouched_mono; [|exact H4]. unfold imported_keys. set_solver.
Qed.

(** Witness of X12: a list of one repository imported into a signed-in
    world is the tracked list afterwards. *)
Lemma importData_with_room_witness :
  ∃ w',
    importData roomy (Some (VObj {[ "tracked_repos" := VArr [repo_stub 1 "A"] ]}))
      signed_in = (Ret true, w') ∧
    getTrackedRepos w' = (Ret (VArr [repo_stub 1 "A"]), w').
Proof.
  destruct (importData_with_room roomy
              {[ "tracked_repos" := VArr [repo_stub 1 "A"] ]} signed_in)
    as (w' & Hrun & Htracked & _).
  - intros a m. reflexivity.
  - exists w'. split; [exact Hrun|]. apply Htracked; reflexivity.
Defined.

(** * Further properties of the fetch layer *)

(** ** What a request does to the world *)

(** Without a usable token (none stored, or an empty one) [githubAPI]
    throws [NO_TOKEN] before anything else happens: no request is sent,
    nothing is removed and the page stays where it is (unlike [requireAuth],
    it does not send the page to the form).  The fetches built on it fail
    the same way. *)
Theorem githubAPI_without_token (E : env) (w : world) :
  text_truthy (stored_pat w) = false →
  (∀ endpoint, githubAPI E endpoint w = (Throw (Error "NO_TOKEN"), w)) ∧
  fetchUserInfo E w = (Throw (Error "NO_TOKEN"), w) ∧
  fetchOrganizations E w = (Throw (Error "NO_TOKEN"), w) ∧
  (∀ fuel endpoint params,
     fetchAllRepositories E (S fuel) endpoint params w
     = (Throw (Error "NO_TOKEN"), w)).
Proof.
  intros Hno.
  assert (Hapi : ∀ endpoint, githubAPI E endpoint w = (Throw (Error "NO_TOKEN"), w)).
  { intros endpoint. unfold githubAPI, githubAPI_request, bind.
    rewrite getStoredPAT_run.
    destruct (stored_pat w) as [token|]; [|done]. by rewrite Hno. }
  split; [exact Hapi|]. split; [|split].
  - unfold fetchUserInfo. unfold bind at 1. by rewrite Hapi.
  - unfold fetchOrganizations. unfold bind at 1. by rewrite Hapi.
  - intros fuel endpoint params. unfold fetchAllRepositories.
    cbn [fetchAllRepositories_from]. unfold bind at 1. by rewrite Hapi.
Qed.

(** An instance in the world where nobody is signed in. *)
Lemma githubAPI_without_token_witness :
  githubAPI roomy {| path := "/user"; query := [] |} signed_out
  = (Throw (Error "NO_TOKEN"), signed_out).
Proof.
  destruct (githubAPI_without_token roomy signed_out eq_refl) as [Hapi _].
  apply Hapi.
Defined.

(** X13.  Whatever the reply to a request of [githubAPI], as long as it is
    not a 401: the storage areas and the page location are as before the
    call, and exactly the one request has been sent.  The call returns a
    value exactly when the status is between 200 and 299 and the body is
    JSON, and that value is the body; it reports the rate limit exactly
    when the status is 403 and the header [X-RateLimit-Remaining] is the
    string ["0"]; it throws the error of the network exactly when no
    response came. *)
Theorem githubAPI_keeps_storage_unless_401 (E : env) (endpoint : target)
    (w : world) (token : text) :
  stored_pat w = Some token → text_truthy (Some token) = true →
  (∀ remaining body,
     answered (net E (sent w) (request_of endpoint token))
     ≠ Response 401 remaining body) →
  ∃ out,
    githubAPI E endpoint w
    = (out, after_fetch (request_of endpoint token)
              (elapsed (net E (sent w) (request_of endpoint token))) w) ∧
    (∀ v, out = Ret v
          ↔ ∃ status remaining,
              answered (net E (sent w) (request_of endpoint token))
              = Response status remaining (Some v) ∧
              200 ≤ status ≤ 299) ∧
    (out = Throw (Error "RATE_LIMIT_EXCEEDED")
     ↔ ∃ body, answered (net E (sent w) (request_of endpoint token))
               = Response 403 (Some "0"%string) body) ∧
    (out = Throw NetworkError
     ↔ answered (net E (sent w) (request_of endpoint token)) = NoResponse).
Proof.
  intros Hpat Htruthy Hnot.
  rewrite (githubAPI_fetches E endpoint w token Hpat Htruthy).
  unfold bind. rewrite fetch_run.
  destruct (answered (net E (sent w) (request_of endpoint token)))
    as [|status remaining body] eqn:Hans.
  { eexists. split; [reflexivity|]. split; [|split]; [| |done].
    - intros v. split; [done|]. intros (? & ? & ? & _). done.
    - split; [done|]. intros [? ?]. done. }
  destruct (status =? 401) eqn:H401.
  { apply Z.eqb_eq in H401. subst. by destruct (Hnot remaining body). }
  apply Z.eqb_neq in H401.
  destruct (status =? 403) eqn:H403.
  { apply Z.eqb_eq in H403. subst status.
    destruct (decide (remaining = Some "0"%string)) as [->|Hrem].
    - eexists. split; [reflexivity|]. split; [|split]; [| |done].
      + intros v. split; [done|]. intros (? & ? & [= <- _ _] & Hlo & Hhi). lia.
      + split; [by eexists|done].
    - exists (Throw (Error "FORBIDDEN")). split; [|split; [|split]]; [| | |done].
      + destruct remaining as [[|a s]|]; [reflexivity| |reflexivity].
        destruct a as [[] [] [] [] [] [] [] []]; try reflexivity.
        destruct s; [by destruct Hrem|reflexivity].
      + intros v. split; [done|]. intros (? & ? & [= <- _ _] & Hlo & Hhi). lia.
      + split; [done|]. intros [? [= ?]]. done. }
  apply Z.eqb_neq in H403.
  destruct (response_ok status) eqn:Hok; cbn [negb].
  - unfold response_ok in Hok. apply andb_true_iff in Hok as [Hlo Hhi].
    apply Z.leb_le in Hlo. apply Z.leb_le in Hhi.
    destruct body as [v|].
    + eexists. split; [reflexivity|]. split; [|split]; [| |done].
      * intros v'. split.
        -- intros [= <-]. by exists status, remaining.
        -- intros (? & ? & [= _ _ <-] & _). done.
      * split; [done|]. intros [? [= ? ?]]. lia.
    + eexists. split; [reflexivity|]. split; [|split]; [| |done].
      * intros v. split; [done|]. intros (? & ? & [=] & _).
      * split; [done|]. intros [? [= ? ?]]. lia.
  - eexists. split; [reflexivity|]. split; [|split]; [| |done].
    + intros v. split; [done|]. intros (? & ? & [= <- _ _] & Hlo & Hhi).
      unfold response_ok in Hok. apply andb_false_iff in Hok as [Hok|Hok];
        apply Z.leb_gt in Hok; lia.
    + split; [|intros [? [= ? ?]]; lia].
      intros Hmsg. simpl in Hmsg. discriminate Hmsg.
Qed.

(** Witness of X13: a 500 leaves the stored profile where it is. *)
Lemma githubAPI_keeps_storage_unless_401_witness :
  ∃ out w',
    githubAPI (answering (Response 500 None None))
      {| path := "/user"; query := [] |} profiled = (out, w') ∧
    localStorage w' = localStorage profiled ∧
    ¬ ∃ v, out = Ret v.
Proof.
  destruct (githubAPI_keeps_storage_unless_401 (answering (Response 500 None None))
              {| path := "/user"; query := [] |} profiled (Raw "ghp_token")
              eq_refl eq_refl)
    as (out & Hrun & Hret & _).
  - intros remaining body. discriminate.
  - exists out. eexists. split; [exact Hrun|]. split; [reflexivity|].
    intros [v Hv]. apply Hret in Hv as (status & remaining & Hans & _).
    discriminate Hans.
Defined.

(** ** Signing out *)

Lemma clearAuth_run w :
  bind clearAuth (λ _, set_href "auth.html") w = (Ret tt, signed_off w).
Proof. reflexivity. Qed.

Lemma lookup_without_auth m k :
  without_auth m !! k = if bool_decide (k ∈ auth_keys) then None else m !! k.
Proof.
  unfold without_auth, auth_keys. cbn [fold_left].
  case_bool_decide as Hk.
  - repeat (apply elem_of_cons in Hk as [->|Hk]);
      try (by apply elem_of_nil in Hk); by simplify_map_eq.
  - rewrite !lookup_delete_ne; [done|..]; intros <-; apply Hk; set_solver.
Qed.

Lemma stored_pat_signed_off w : stored_pat (signed_off w) = None.
Proof.
  unfold stored_pat, text_or. cbn [localStorage sessionStorage signed_off].
  by rewrite !lookup_without_auth.
Qed.

Lemma active_signed_off w : active (signed_off w) = Session.
Proof.
  unfold active. cbn [localStorage signed_off].
  by rewrite lookup_without_auth.
Qed.

(** X14.  [clearAuth] removes the token, the profile, the organizations
    and their timestamp from both areas and nothing else.  Since the area
    the other data is read from is chosen by the token in [localStorage],
    from then on the tracked list, the settings and the cache are those of
    [sessionStorage]: what [localStorage] holds under these keys is still
    there, and is not read any more. *)
Theorem clearAuth_signs_out (w : world) :
  ∃ w',
    clearAuth w = (Ret tt, w') ∧
    (∀ a k, k ∈ auth_keys → items a w' !! k = None) ∧
    untouched auth_keys w w' ∧
    getStoredPAT w' = (Ret None, w') ∧
    getActiveStorage w' = (Ret Session, w') ∧
    getTrackedRepos w'
    = (Ret (parsed_or (VArr []) (sessionStorage w !! STORAGE_KEYS_TRACKED_REPOS)), w') ∧
    getCache w'
    = (Ret (parsed_or (VObj ∅) (sessionStorage w !! STORAGE_KEYS_CACHE)), w').
Proof.
  exists (with_items Local (without_auth (localStorage w))
            (with_items Session (without_auth (sessionStorage w)) w)).
  set (w' := with_items Local _ _).
  assert (Hitems : ∀ a, items a w' = without_auth (items a w)) by (by intros []).
  assert (Hactive : active w' = Session).
  { unfold active. rewrite (Hitems Local : localStorage w' = _).
    by rewrite lookup_without_auth. }
  split; [reflexivity|]. split; [|split; [|split; [|split; [|split]]]].
  - intros a k Hk. rewrite Hitems, lookup_without_auth.
    by rewrite bool_decide_eq_true_2.
  - intros a k Hk. rewrite Hitems, lookup_without_auth.
    by rewrite bool_decide_eq_false_2.
  - rewrite getStoredPAT_run. f_equal. unfold stored_pat, text_or.
    rewrite (Hitems Local : localStorage w' = _).
    rewrite (Hitems Session : sessionStorage w' = _).
    by rewrite !lookup_without_auth.
  - rewrite getActiveStorage_run. by rewrite Hactive.
  - rewrite getTrackedRepos_run. f_equal. unfold tracked_of.
    rewrite Hactive, Hitems, lookup_without_auth. reflexivity.
  - rewrite getCache_run. f_equal. unfold cache_of.
    rewrite Hactive, Hitems, lookup_without_auth. reflexivity.
Qed.

(** ** The synchronizers of the profile and of the organizations *)

Lemma getStoredOrganizations_run w :
  getStoredOrganizations w = parse_or_null (stored_organizations w) w.
Proof. reflexivity. Qed.

Lemma parse_or_null_world t w : (parse_or_null t w).2 = w.
Proof.
  unfold parse_or_null. destruct t as [t|]; [|done].
  destruct (text_truthy (Some t)); [|done]. by destruct (JSON_parse t).
Qed.

Lemma githubAPI_401 E endpoint w token remaining body :
  stored_pat w = Some token → text_truthy (Some token) = true →
  answered (reply_to E endpoint token w) = Response 401 remaining body →
  githubAPI E endpoint w
  = (Throw (Error "INVALID_TOKEN"), signed_off (after_request E endpoint token w)).
Proof.
  intros Hpat Htruthy Hans.
  rewrite (githubAPI_fetches E endpoint w token Hpat Htruthy).
  unfold bind at 1. rewrite fetch_run. unfold reply_to in Hans. rewrite Hans.
  reflexivity.
Qed.

Lemma githubAPI_fails E endpoint w token :
  stored_pat w = Some token → text_truthy (Some token) = true →
  fails_short_of_401 (answered (reply_to E endpoint token w)) = true →
  ∃ e, githubAPI E endpoint w = (Throw e, after_request E endpoint token w).
Proof.
  intros Hpat Htruthy Hfails.
  rewrite (githubAPI_fetches E endpoint w token Hpat Htruthy).
  unfold bind at 1. rewrite fetch_run. unfold reply_to in Hfails.
  unfold after_request, reply_to.
  destruct (answered (net E (sent w) (request_of endpoint token)))
    as [|status remaining body]; [by eexists|].
  cbn [fails_short_of_401] in Hfails.
  apply andb_true_iff in Hfails as [H401 Hrest].
  apply negb_true_iff in H401. rewrite H401.
  destruct (status =? 403).
  { destruct remaining as [[|a s]|]; try by eexists.
    destruct a as [[] [] [] [] [] [] [] []]; try by eexists.
    destruct s; by eexists. }
  destruct (response_ok status); cbn [negb orb] in *; [|by eexists].
  destruct body; [done|by eexists].
Qed.

Lemma githubAPI_sent E endpoint w token :
  stored_pat w = Some token → text_truthy (Some token) = true →
  sent (githubAPI E endpoint w).2 = sent w ++ [request_of endpoint token].
Proof.
  intros Hpat Htruthy.
  rewrite (githubAPI_fetches E endpoint w token Hpat Htruthy).
  unfold bind at 1. rewrite fetch_run.
  destruct (answered (net E (sent w) (request_of endpoint token)))
    as [|status remaining body]; [done|].
  destruct (status =? 401);
    [by cbv [bind clearAuth removeItem set_href throw fst]|].
  destruct (status =? 403).
  { destruct remaining as [[|a s]|]; try done.
    destruct a as [[] [] [] [] [] [] [] []]; try done. by destruct s. }
  destruct (negb (response_ok status)); [done|]. by destruct body.
Qed.

Lemma fetchOrganizations_world E w :
  (fetchOrganizations E w).2 = (githubAPI E orgs_endpoint w).2.
Proof.
  unfold fetchOrganizations, bind. fold orgs_endpoint.
  destruct (githubAPI E orgs_endpoint w) as [[v|e|] w1]; [|done..].
  cbn [snd]. destruct (as_array v) as [l|]; [|done]. cbn [or_TypeError ret].
  by destruct (mapM organization_of l).
Qed.

Lemma fetchOrganizations_throws E w e w1 :
  githubAPI E orgs_endpoint w = (Throw e, w1) →
  fetchOrganizations E w = (Throw e, w1).
Proof. intros H. unfold fetchOrganizations, bind. fold orgs_endpoint. by rewrite H. Qed.

Lemma fetchUserInfo_throws E w e w1 :
  githubAPI E user_endpoint w = (Throw e, w1) →
  fetchUserInfo E w = (Throw e, w1).
Proof.
  intros H. unfold fetchUserInfo. unfold bind at 1. fold user_endpoint. by rewrite H.
Qed.

Lemma storeOrganizations_sent E v w : sent (storeOrganizations E v w).2 = sent w.
Proof.
  unfold storeOrganizations, bind, setItem, Date_now. rewrite getActiveStorage_run.
  destruct (fits E _ _); [|done].
  destruct (fits E _ _); [|by destruct (active w)].
  by destruct (active w).
Qed.

Lemma initOrganizations_hit E w stamp o :
  text_truthy (stored_pat w) = true →
  items (active w) w !! "organizations_timestamp" = Some (Ser (VNum stamp)) →
  clock w - stamp < 30 * 60 * 1000 →
  stored_organizations w = Some (Ser o) → truthy (Some o) = true →
  initOrganizations E false w = (Ret o, w).
Proof.
  intros Hpat Hstamp Hage Horgs Ho.
  unfold initOrganizations. unfold bind at 1. rewrite requireAuth_run, Hpat.
  cbn [negb]. unfold bind at 1.
  rewrite (isOrganizationsCacheValid_stamp E w stamp Hstamp).
  replace (clock w - stamp <? 30 * 60 * 1000) with true
    by (symmetry; apply Z.ltb_lt; lia).
  unfold bind at 1. unfold bind at 1.
  rewrite getStoredOrganizations_run, Horgs. simpl. simpl in Ho. by rewrite Ho.
Qed.

Lemma initOrganizations_refresh (E : env) (forceRefresh : bool) (w : world) :
  text_truthy (stored_pat w) = true →
  (if forceRefresh then ret false else isOrganizationsCacheValid E) w = (Ret false, w) →
  initOrganizations E forceRefresh w
  = try_catch
      (organizations <- fetchOrganizations E ;;
       storeOrganizations E organizations ;;;
       ret organizations)
      (λ error,
         storedOrgs <- getStoredOrganizations ;;
         if truthy (Some storedOrgs) then ret storedOrgs
         else throw error) w.
Proof.
  intros Hpat Hvalid.
  unfold initOrganizations. unfold bind at 1. rewrite requireAuth_run, Hpat.
  cbn [negb]. unfold bind at 1. rewrite Hvalid. reflexivity.
Qed.

Lemma initOrganizations_refresh_sent (E : env) (forceRefresh : bool) (w : world)
    (token : text) :
  stored_pat w = Some token → text_truthy (Some token) = true →
  (if forceRefresh then ret false else isOrganizationsCacheValid E) w = (Ret false, w) →
  sent (initOrganizations E forceRefresh w).2
  = sent w ++ [request_of orgs_endpoint token].
Proof.
  intros Hpat Htruthy Hvalid.
  rewrite initOrganizations_refresh by (by rewrite ?Hpat).
  pose proof (fetchOrganizations_world E w) as Hw.
  pose proof (githubAPI_sent E orgs_endpoint w token Hpat Htruthy) as Hsent.
  rewrite <- Hw in Hsent.
  assert (Hhandler : ∀ e w1,
    sent ((storedOrgs <- getStoredOrganizations ;;
           if truthy (Some storedOrgs) then ret storedOrgs else throw e) w1).2
    = sent w1).
  { intros e w1. unfold bind. rewrite getStoredOrganizations_run.
    pose proof (parse_or_null_world (stored_organizations w1) w1) as Hp.
    destruct (parse_or_null (stored_organizations w1) w1) as [[v|e'|] w2];
      cbn [snd] in Hp; subst w2; [|done..].
    by destruct (truthy (Some v)). }
  unfold try_catch. unfold bind at 1.
  destruct (fetchOrganizations E w) as [[orgs|e|] w1]; cbn [snd] in Hsent.
  - unfold bind at 1.
    pose proof (storeOrganizations_sent E orgs w1) as Hstore.
    destruct (storeOrganizations E orgs w1) as [[[]|e|] w2]; cbn [snd] in Hstore.
    + cbn [ret snd]. congruence.
    + rewrite Hhandler. congruence.
    + cbn [snd]. congruence.
  - rewrite Hhandler. congruence.
  - cbn [snd]. congruence.
Qed.

(** X15.  [initOrganizations] and the age of the stored list.  With a
    token stored and the timestamp of the organizations in the active area:
    while the list is younger than 30 minutes (strictly) and no refresh is
    forced, the stored list is returned and no request is sent; from 30
    minutes on, or when the refresh is forced, exactly one request is sent,
    for [/user/orgs], whatever comes of it. *)
Theorem initOrganizations_by_age (E : env) (w : world) (token : text) (stamp : Z) :
  stored_pat w = Some token → text_truthy (Some token) = true →
  items (active w) w !! "organizations_timestamp" = Some (Ser (VNum stamp)) →
  (∀ o, clock w - stamp < 30 * 60 * 1000 →
        stored_organizations w = Some (Ser o) → truthy (Some o) = true →
        initOrganizations E false w = (Ret o, w)) ∧
  (30 * 60 * 1000 ≤ clock w - stamp →
   sent (initOrganizations E false w).2 = sent w ++ [request_of orgs_endpoint token]) ∧
  sent (initOrganizations E true w).2 = sent w ++ [request_of orgs_endpoint token].
Proof.
  intros Hpat Htruthy Hstamp. split; [|split].
  - intros o Hage Horgs Ho. apply (initOrganizations_hit E w stamp o); try done.
    by rewrite Hpat.
  - intros Hage. apply initOrganizations_refresh_sent; try done.
    rewrite (isOrganizationsCacheValid_stamp E w stamp Hstamp).
    by replace (clock w - stamp <? 30 * 60 * 1000) with false
      by (symmetry; apply Z.ltb_ge; lia).
  - by apply initOrganizations_refresh_sent.
Qed.

(** Witness of X15: the organizations of [profiled] were stored ten
    seconds ago. *)
Lemma initOrganizations_by_age_witness :
  initOrganizations roomy false profiled = (Ret (VArr []), profiled) ∧
  length (sent (initOrganizations roomy true profiled).2) = 1%nat.
Proof.
  destruct (initOrganizations_by_age roomy profiled (Raw "ghp_token") 1699999990000
              eq_refl eq_refl eq_refl) as (Hhit & _ & Hforced).
  split.
  - apply Hhit; reflexivity.
  - rewrite Hforced. reflexivity.
Defined.

Lemma stored_pat_written w key v :
  key ≠ STORAGE_KEYS_PAT → stored_pat (written w key v) = stored_pat w.
Proof.
  intros Hne. unfold stored_pat, written.
  destruct (active w); simpl; by rewrite lookup_insert_ne.
Qed.

Lemma stored_organizations_stored w o stamp :
  stored_organizations
    (written (written w "organizations" (Ser o)) "organizations_timestamp" stamp)
  = if bool_decide (active w = Local) then Some (Ser o)
    else text_or (localStorage w !! "organizations") (Some (Ser o)).
Proof.
  unfold stored_organizations.
  assert (Ha : active (written w "organizations" (Ser o)) = active w)
    by (by apply active_written).
  unfold written in *. rewrite !Ha.
  destruct (active w); simpl.
  - rewrite lookup_insert_ne by done. by rewrite lookup_insert_eq.
  - rewrite lookup_insert_ne by done. by rewrite lookup_insert_eq.
Qed.

(** X16.  The organizations come back from a store, with one exception.
    In a browser with room, once [storeOrganizations] has stored a list
    (truthy, as every array is), [initOrganizations] returns it without a
    request for the next 30 minutes, provided the token is in
    [localStorage] or [localStorage] holds no organizations.  With the
    token in [sessionStorage] and an older list left in [localStorage], the
    write goes to [sessionStorage] and the read prefers [localStorage]:
    the older list is returned as if it were fresh. *)
Theorem storeOrganizations_then_init (E : env) (w : world) (o : value) (t : Z) :
  always_fits E → text_truthy (stored_pat w) = true → truthy (Some o) = true →
  t - clock w < 30 * 60 * 1000 →
  ∃ w',
    storeOrganizations E o w = (Ret tt, w') ∧
    (active w = Local ∨ text_truthy (localStorage w !! "organizations") = false →
     initOrganizations E false (with_clock t w') = (Ret o, with_clock t w')) ∧
    (∀ old, active w = Session →
        localStorage w !! "organizations" = Some (Ser old) →
        truthy (Some old) = true →
        initOrganizations E false (with_clock t w') = (Ret old, with_clock t w')).
Proof.
  intros Hroom Hpat Ho Hage. eexists. split; [by apply storeOrganizations_run|].
  set (w' := written _ _ _).
  assert (Hpat' : text_truthy (stored_pat (with_clock t w')) = true).
  { change (stored_pat (with_clock t w')) with (stored_pat w').
    unfold w'. by rewrite !stored_pat_written. }
  assert (Hstamp : items (active (with_clock t w')) (with_clock t w')
                   !! "organizations_timestamp" = Some (Ser (VNum (clock w)))).
  { rewrite active_with_clock.
    change (items (active w') (with_clock t w')) with (items (active w') w').
    unfold w'. by rewrite lookup_written. }
  assert (Horgs : stored_organizations (with_clock t w')
                  = if bool_decide (active w = Local) then Some (Ser o)
                    else text_or (localStorage w !! "organizations") (Some (Ser o))).
  { change (stored_organizations (with_clock t w')) with (stored_organizations w').
    apply stored_organizations_stored. }
  split.
  - intros Hwhere.
    apply (initOrganizations_hit E _ (clock w) o); try done.
    rewrite Horgs. case_bool_decide as Ha; [done|].
    destruct Hwhere as [Hl|Hl]; [done|]. unfold text_or. by rewrite Hl.
  - intros old Ha Hold Htruthy.
    apply (initOrganizations_hit E _ (clock w) old); try done.
    rewrite Horgs, Ha, Hold. reflexivity.
Qed.

(** Witness of X16 in a signed-in world. *)
Lemma storeOrganizations_then_init_witness :
  ∃ w',
    storeOrganizations roomy (VArr []) signed_in = (Ret tt, w') ∧
    initOrganizations roomy false (with_clock (clock signed_in + 1799999) w')
    = (Ret (VArr []), with_clock (clock signed_in + 1799999) w').
Proof.
  destruct (storeOrganizations_then_init roomy signed_in (VArr [])
              (clock signed_in + 1799999))
    as (w' & Hstore & Hinit & _).
  - intros a m. reflexivity.
  - reflexivity.
  - reflexivity.
  - simpl. lia.
  - exists w'. split; [exact Hstore|]. apply Hinit. by left.
Defined.

(** X17.  When the request for the organizations fails short of a 401 (no
    response, a status of failure, a body that is not JSON), a forced
    [initOrganizations] falls back on the stored list, however old, and
    returns it; with no list stored it throws what [githubAPI] threw.
    Either way the storage is as it was. *)
Theorem initOrganizations_falls_back (E : env) (w : world) (token : text) :
  stored_pat w = Some token → text_truthy (Some token) = true →
  fails_short_of_401 (answered (reply_to E orgs_endpoint token w)) = true →
  ∃ e,
    githubAPI E orgs_endpoint w = (Throw e, after_request E orgs_endpoint token w) ∧
    (∀ o, stored_organizations w = Some (Ser o) → truthy (Some o) = true →
       initOrganizations E true w
       = (Ret o, after_request E orgs_endpoint token w)) ∧
    (text_truthy (stored_organizations w) = false →
     initOrganizations E true w
     = (Throw e, after_request E orgs_endpoint token w)).
Proof.
  intros Hpat Htruthy Hfails.
  destruct (githubAPI_fails E orgs_endpoint w token Hpat Htruthy Hfails) as [e He].
  exists e. split; [exact He|].
  assert (Hrun : initOrganizations E true w
    = (storedOrgs <- getStoredOrganizations ;;
       if truthy (Some storedOrgs) then ret storedOrgs else throw e)
        (after_request E orgs_endpoint token w)).
  { rewrite initOrganizations_refresh by (by rewrite ?Hpat).
    unfold try_catch. unfold bind at 1.
    by rewrite (fetchOrganizations_throws E w e _ He). }
  rewrite Hrun. unfold bind. rewrite getStoredOrganizations_run.
  change (stored_organizations (after_request E orgs_endpoint token w))
    with (stored_organizations w).
  split.
  - intros o Ho Hto. rewrite Ho. simpl. simpl in Hto. by rewrite Hto.
  - intros Hnone. unfold parse_or_null.
    destruct (stored_organizations w) as [t|]; [|done]. by rewrite Hnone.
Qed.

(** Witness of X17: the network is silent and the stored list is far older
    than 30 minutes. *)
Lemma initOrganizations_falls_back_witness :
  ∃ w', initOrganizations roomy true stale_orgs
        = (Ret (VArr [VObj {[ "login" := VStr "org-x" ]}]), w').
Proof.
  destruct (initOrganizations_falls_back roomy stale_orgs (Raw "ghp_token")
              eq_refl eq_refl eq_refl) as (e & _ & Hback & _).
  eexists. apply Hback; reflexivity.
Defined.

Lemma stored_organizations_signed_off w : stored_organizations (signed_off w) = None.
Proof.
  unfold stored_organizations, text_or. cbn [localStorage sessionStorage signed_off].
  by rewrite !lookup_without_auth.
Qed.

(** X18.  A 401 during a forced refresh.  [initUserInfo] swallows the
    error and returns [null]; [initOrganizations] cannot fall back, because
    [clearAuth] has just removed the stored list, and throws
    [INVALID_TOKEN].  In both cases the user is signed out and the page is
    sent to the form. *)
Theorem forced_refresh_on_401 (E : env) (w : world) (token : text) :
  stored_pat w = Some token → text_truthy (Some token) = true →
  (∀ remaining body,
     answered (reply_to E user_endpoint token w) = Response 401 remaining body →
     initUserInfo E true w
     = (Ret VNull, signed_off (after_request E user_endpoint token w))) ∧
  (∀ remaining body,
     answered (reply_to E orgs_endpoint token w) = Response 401 remaining body →
     initOrganizations E true w
     = (Throw (Error "INVALID_TOKEN"),
        signed_off (after_request E orgs_endpoint token w))) ∧
  (∀ w0, stored_pat (signed_off w0) = None ∧ href (signed_off w0) = "auth.html"%string).
Proof.
  intros Hpat Htruthy. split; [|split].
  - intros remaining body Hans.
    pose proof (githubAPI_401 E user_endpoint w token remaining body
                  Hpat Htruthy Hans) as Hapi.
    unfold initUserInfo. unfold bind at 1. rewrite requireAuth_run, Hpat, Htruthy.
    cbn [negb]. unfold bind at 1. cbn [ret]. unfold try_catch. unfold bind at 1.
    by rewrite (fetchUserInfo_throws E w _ _ Hapi).
  - intros remaining body Hans.
    pose proof (githubAPI_401 E orgs_endpoint w token remaining body
                  Hpat Htruthy Hans) as Hapi.
    rewrite initOrganizations_refresh by (by rewrite ?Hpat).
    unfold try_catch. unfold bind at 1.
    rewrite (fetchOrganizations_throws E w _ _ Hapi).
    unfold bind. rewrite getStoredOrganizations_run.
    by rewrite stored_organizations_signed_off.
  - intros w0. split; [apply stored_pat_signed_off|reflexivity].
Qed.

(** Witness of X18: a stored list of organizations does not survive the
    401. *)
Lemma forced_refresh_on_401_witness :
  ∃ w', initOrganizations (answering (Response 401 None None)) true profiled
        = (Throw (Error "INVALID_TOKEN"), w') ∧
        stored_organizations profiled = Some (Ser (VArr [])).
Proof.
  destruct (forced_refresh_on_401 (answering (Response 401 None None)) profiled
              (Raw "ghp_token") eq_refl eq_refl) as (_ & Horgs & _).
  eexists. split; [apply (Horgs None None); reflexivity|reflexivity].
Defined.

(** X19.  [initUserInfo] and the stored profile.  With a token stored and
    no refresh forced, a stored profile that parses to a truthy value is
    returned without a request; a stored profile that is not JSON makes the
    call throw the [SyntaxError] of [JSON.parse], again without a request,
    so that only a forced refresh gets past it. *)
Theorem initUserInfo_reads_profile_first (E : env) (w : world) :
  text_truthy (stored_pat w) = true →
  (∀ u, stored_user_info w = Some (Ser u) → truthy (Some u) = true →
     initUserInfo E false w = (Ret u, w)) ∧
  (∀ s, stored_user_info w = Some (Raw s) → s ≠ ""%string →
     initUserInfo E false w = (Throw SyntaxError, w)).
Proof.
  intros Hpat. split.
  - intros u Hu Htruthy. unfold initUserInfo. unfold bind at 1.
    rewrite requireAuth_run, Hpat. cbn [negb]. unfold bind at 1. unfold bind at 1.
    rewrite getStoredUserInfo_run. fold (stored_user_info w). rewrite Hu.
    simpl. simpl in Htruthy. by rewrite Htruthy.
  - intros s Hs Hne. unfold initUserInfo. unfold bind at 1.
    rewrite requireAuth_run, Hpat. cbn [negb]. unfold bind at 1. unfold bind at 1.
    rewrite getStoredUserInfo_run. fold (stored_user_info w). rewrite Hs.
    unfold parse_or_null. cbn [text_truthy JSON_parse].
    by replace (String.eqb s "") with false
      by (symmetry; by apply String.eqb_neq).
Qed.

(** Witness of X19 with the profile of [profiled]. *)
Lemma initUserInfo_reads_profile_first_witness :
  initUserInfo roomy false profiled
  = (Ret (VObj {[ "login" := VStr "octocat" ]}), profiled).
Proof.
  destruct (initUserInfo_reads_profile_first roomy profiled eq_refl) as [Hread _].
  apply Hread; reflexivity.
Defined.

(** ** The synchronizer of the repositories *)

Lemma getCachedValue_stored E key data ttl w c now :
  cache_of w = VObj c →
  getCachedValue E key
    (with_clock now
       (written w STORAGE_KEYS_CACHE
          (JSON_stringify (VObj (<[key := entry_of data (clock w) ttl]> c)))))
  = (Ret (if negb (clock w + ttl * 60 * 1000 =? 0) && (clock w + ttl * 60 * 1000 <? now)
          then Some VNull else data),
     with_clock now
       (written w STORAGE_KEYS_CACHE
          (JSON_stringify (VObj (<[key := entry_of data (clock w) ttl]> c))))).
Proof.
  intros Hc.
  rewrite (getCachedValue_entry E _ key (<[key := entry_of data (clock w) ttl]> c)
             (obj_of [ ("data", data);
                       ("expires", Some (VNum (clock w + ttl * 60 * 1000)));
                       ("timestamp", Some (VNum (clock w))) ])
             (clock w + ttl * 60 * 1000)).
  - by rewrite entry_of_data.
  - by rewrite cache_of_with_clock, cache_of_written.
  - apply lookup_insert_eq.
  - rewrite lookup_obj_of_cons, decide_False by discriminate.
    by rewrite lookup_obj_of_cons, decide_True.
Qed.

Lemma initRepositories_hit E fuel w v :
  text_truthy (stored_pat w) = true →
  getCachedValue E "repositories_all" w = (Ret (Some v), w) →
  truthy (Some v) = true →
  initRepositories E fuel false w = (Ret (Some v), w).
Proof.
  intros Hpat Hread Hv.
  unfold initRepositories. unfold bind at 1. rewrite requireAuth_run, Hpat.
  cbn [negb]. unfold bind at 1. rewrite isRepositoriesCacheValid_run.
  unfold bind at 1. rewrite Hread. cbn [ret].
  replace (strict_eq (Some v) (Some VNull)) with false by (by destruct v).
  cbn [negb]. unfold bind at 1. unfold getStoredRepositories. unfold bind at 1.
  rewrite Hread. cbn [ret]. by rewrite Hv.
Qed.

(** X20.  The repositories come back from a store for five minutes.  With
    a token stored and the cache an object, once [storeRepositories] has
    stored a list (the browser accepting the write), [initRepositories]
    returns that list, empty or not, without a request (it needs no
    iteration of the pagination loop) at every time up to five minutes
    after the store, inclusive; later than that the list does not count as
    cached any more. *)
Theorem storeRepositories_then_init (E : env) (w : world) (l : list value)
    (c : gmap string value) :
  text_truthy (stored_pat w) = true → cache_of w = VObj c →
  accepts E w STORAGE_KEYS_CACHE
    (JSON_stringify
       (VObj (<["repositories_all" := entry_of (Some (VArr l)) (clock w) 5]> c))) →
  ∃ w',
    storeRepositories E (VArr l) w = (Ret tt, w') ∧
    (∀ t, t ≤ clock w + 5 * 60 * 1000 →
       initRepositories E 0 false (with_clock t w')
       = (Ret (Some (VArr l)), with_clock t w')) ∧
    (∀ t, clock w + 5 * 60 * 1000 < t → clock w + 5 * 60 * 1000 ≠ 0 →
       isRepositoriesCacheValid E (with_clock t w') = (Ret false, with_clock t w')).
Proof.
  intros Hpat Hc Hacc. eexists. split.
  { unfold storeRepositories. by apply setCachedValue_accepted. }
  split.
  - intros t Ht. apply initRepositories_hit; [| |done].
    + change (stored_pat (with_clock t ?x)) with (stored_pat x).
      by rewrite stored_pat_written.
    + rewrite (getCachedValue_stored E _ _ 5 w c t Hc).
      replace (clock w + 5 * 60 * 1000 <? t) with false
        by (symmetry; apply Z.ltb_ge; lia).
      by rewrite andb_false_r.
  - intros t Ht Hz. rewrite isRepositoriesCacheValid_run. unfold bind.
    rewrite (getCachedValue_stored E _ _ 5 w c t Hc).
    replace (clock w + 5 * 60 * 1000 <? t) with true
      by (symmetry; apply Z.ltb_lt; lia).
    replace (clock w + 5 * 60 * 1000 =? 0) with false
      by (symmetry; by apply Z.eqb_neq).
    reflexivity.
Qed.

(** Witness of X20: an empty list stored in a signed-in world is served
    five minutes later. *)
Lemma storeRepositories_then_init_witness :
  ∃ w',
    storeRepositories roomy (VArr []) signed_in = (Ret tt, w') ∧
    initRepositories roomy 0 false (with_clock (clock signed_in + 300000) w')
    = (Ret (Some (VArr [])), with_clock (clock signed_in + 300000) w').
Proof.
  destruct (storeRepositories_then_init roomy signed_in [] ∅ eq_refl eq_refl eq_refl)
    as (w' & Hstore & Hinit & _).
  exists w'. split; [exact Hstore|]. apply Hinit. simpl. lia.
Defined.

Lemma fetchAllUserRepositories_throws E fuel w e w1 :
  githubAPI E (page_target "/user/repos" user_repos_params 1) w = (Throw e, w1) →
  fetchAllUserRepositories E (S fuel) w = (Throw e, w1).
Proof.
  intros H. unfold fetchAllUserRepositories, fetchUserRepositories,
    fetchAllRepositories.
  unfold bind at 1. unfold bind at 1. fold user_repos_params.
  cbn [fetchAllRepositories_from]. unfold bind at 1.
  fold (page_target "/user/repos" user_repos_params 1). by rewrite H.
Qed.

Lemma initRepositories_first_request_throws E fuel w e w1 :
  text_truthy (stored_pat w) = true →
  githubAPI E (page_target "/user/repos" user_repos_params 1) w = (Throw e, w1) →
  initRepositories E (S fuel) true w
  = (storedRepos <- getStoredRepositories E ;;
     if truthy storedRepos then ret storedRepos else throw e) w1.
Proof.
  intros Hpat H.
  unfold initRepositories. unfold bind at 1. rewrite requireAuth_run, Hpat.
  cbn [negb]. unfold bind at 1. cbn [ret]. unfold bind at 1. cbn [ret].
  unfold try_catch. unfold bind at 1.
  by rewrite (fetchAllUserRepositories_throws E fuel w e w1 H).
Qed.

Lemma cache_of_signed_off w :
  cache_of (signed_off w) = parsed_or (VObj ∅) (sessionStorage w !! STORAGE_KEYS_CACHE).
Proof.
  unfold cache_of. rewrite active_signed_off.
  cbn [items sessionStorage signed_off]. by rewrite lookup_without_auth.
Qed.

(** X21.  The fallback of [initRepositories] on a forced refresh.  When
    the first request of the refresh fails short of a 401 and the cache
    holds a list (truthy) whose [expires] is 0 or not yet behind the clock
    at the time of the failure, the list is returned and the error is
    dropped. *)
Theorem initRepositories_falls_back_while_fresh (E : env) (fuel : nat) (w : world)
    (token : text) (c en : gmap string value) (e : Z) (v : value) :
  stored_pat w = Some token → text_truthy (Some token) = true →
  cache_of w = VObj c → c !! "repositories_all" = Some (VObj en) →
  en !! "expires" = Some (VNum e) → en !! "data" = Some v →
  truthy (Some v) = true →
  fails_short_of_401
    (answered (reply_to E (page_target "/user/repos" user_repos_params 1) token w))
  = true →
  e = 0 ∨ clock (after_request E (page_target "/user/repos" user_repos_params 1)
                   token w) ≤ e →
  initRepositories E (S fuel) true w
  = (Ret (Some v),
     after_request E (page_target "/user/repos" user_repos_params 1) token w).
Proof.
  intros Hpat Htruthy Hc Hk He Hdata Hv Hfails Hfresh.
  destruct (githubAPI_fails E _ w token Hpat Htruthy Hfails) as [err Herr].
  rewrite (initRepositories_first_request_throws E fuel w err _)
    by (by rewrite ?Hpat).
  unfold bind, getStoredRepositories.
  rewrite (getCachedValue_entry E _ _ c en e); [|by rewrite <- Hc|done|done].
  replace (negb (e =? 0) && (e <? clock (after_request E
             (page_target "/user/repos" user_repos_params 1) token w)))
    with false.
  - rewrite Hdata. cbn [ret]. by rewrite Hv.
  - symmetry. destruct Hfresh as [->|Hle]; [done|].
    apply andb_false_iff. right. apply Z.ltb_ge. lia.
Qed.

(** Witness of X21: the cached list never expires and the network is
    silent. *)
Lemma initRepositories_falls_back_while_fresh_witness :
  ∃ w', initRepositories roomy 1 true unexpiring = (Ret (Some (VNum 1)), w').
Proof.
  eexists.
  apply (initRepositories_falls_back_while_fresh roomy 0 unexpiring (Raw "ghp_token")
           {[ "repositories_all" := cache_entry (VNum 1) 0 0 ]}
           (list_to_map [ ("data", VNum 1); ("expires", VNum 0);
                          ("timestamp", VNum 0) ])
           0 (VNum 1));
    try reflexivity.
  by left.
Defined.

(** X22.  A 401 on the first request of a forced refresh of the
    repositories.  [clearAuth] leaves the cache alone, and from then on the
    cache is read from [sessionStorage].  So with the token in
    [sessionStorage] and a cached list still fresh, [initRepositories]
    returns the cached list although the user has just been signed out;
    with the token in [localStorage] and no cache in [sessionStorage] it
    throws [INVALID_TOKEN]. *)
Theorem initRepositories_on_401 (E : env) (fuel : nat) (w : world) (token : text)
    (remaining : option string) (body : option value) :
  stored_pat w = Some token → text_truthy (Some token) = true →
  answered (reply_to E (page_target "/user/repos" user_repos_params 1) token w)
  = Response 401 remaining body →
  (∀ c en e v,
     active w = Session →
     cache_of w = VObj c → c !! "repositories_all" = Some (VObj en) →
     en !! "expires" = Some (VNum e) → en !! "data" = Some v →
     truthy (Some v) = true →
     e = 0 ∨ clock (after_request E (page_target "/user/repos" user_repos_params 1)
                      token w) ≤ e →
     initRepositories E (S fuel) true w
     = (Ret (Some v),
        signed_off (after_request E (page_target "/user/repos" user_repos_params 1)
                      token w))) ∧
  (active w = Local → sessionStorage w !! STORAGE_KEYS_CACHE = None →
   initRepositories E (S fuel) true w
   = (Throw (Error "INVALID_TOKEN"),
      signed_off (after_request E (page_target "/user/repos" user_repos_params 1)
                    token w))).
Proof.
  intros Hpat Htruthy Hans.
  pose proof (githubAPI_401 E _ w token remaining body Hpat Htruthy Hans) as Hapi.
  set (w1 := after_request E (page_target "/user/repos" user_repos_params 1) token w)
    in *.
  assert (Hrun := initRepositories_first_request_throws E fuel w _ _
                    ltac:(by rewrite Hpat) Hapi).
  split.
  - intros c en e v Ha Hc Hk He Hdata Hv Hfresh. rewrite Hrun.
    unfold bind, getStoredRepositories.
    rewrite (getCachedValue_entry E _ _ c en e); [| |done|done].
    + replace (negb (e =? 0) && (e <? clock (signed_off w1))) with false.
      * rewrite Hdata. cbn [ret]. by rewrite Hv.
      * symmetry. destruct Hfresh as [->|Hle]; [done|].
        apply andb_false_iff. right. apply Z.ltb_ge. exact Hle.
    + rewrite cache_of_signed_off. rewrite <- Hc. unfold cache_of. by rewrite Ha.
  - intros Ha Hnone. rewrite Hrun.
    unfold bind, getStoredRepositories.
    rewrite (getCachedValue_missing E _ _ ∅);
      [done| |done|apply repositories_all_plain].
    rewrite cache_of_signed_off.
    change (sessionStorage w1) with (sessionStorage w). by rewrite Hnone.
Qed.

(** Witness of X22: the token and the cache are in [sessionStorage]. *)
Lemma initRepositories_on_401_witness :
  ∃ w',
    initRepositories (answering (Response 401 None None)) 1 true session_only
    = (Ret (Some (VArr [repo_stub 1 "A"])), w') ∧
    getStoredPAT w' = (Ret None, w').
Proof.
  destruct (initRepositories_on_401 (answering (Response 401 None None)) 0
              session_only (Raw "ghp_token") None None eq_refl eq_refl eq_refl)
    as [Hsession _].
  eexists. split.
  - apply (Hsession
             {[ "repositories_all" := cache_entry (VArr [repo_stub 1 "A"]) 0 0 ]}
             (list_to_map [ ("data", VArr [repo_stub 1 "A"]); ("expires", VNum 0);
                            ("timestamp", VNum 0) ])
             0 (VArr [repo_stub 1 "A"])); try reflexivity.
    by left.
  - reflexivity.
Defined.

(** ** The pagination loop, continued *)

Lemma fetchAllRepositories_from_full E endpoint params token :
  (∀ history r, ∃ status remaining d p,
     net E history r
     = {| answered := Response status remaining (Some (VArr p)); elapsed := d |} ∧
     response_ok status = true ∧ (100 ≤ length p)%nat) →
  ∀ fuel repos page w,
    stored_pat w = Some token → text_truthy (Some token) = true →
    ∃ w',
      fetchAllRepositories_from E fuel endpoint params repos page w = (Diverge, w') ∧
      length (sent w') = (length (sent w) + fuel)%nat.
Proof.
  intros Hnet. induction fuel as [|fuel IH]; intros repos page w Hpat Htruthy.
  - exists w. split; [reflexivity|lia].
  - destruct (Hnet (sent w) (request_of (page_target endpoint params page) token))
      as (status & remaining & d & p & Hrep & Hok & Hlen).
    cbn [fetchAllRepositories_from]. unfold bind at 1.
    fold (page_target endpoint params page).
    rewrite (githubAPI_success E _ w token status remaining (VArr p) d
               Hpat Htruthy Hrep Hok).
    unfold bind at 1. cbn [or_TypeError length_of ret strict_eq].
    replace (Z.of_nat (length p) =? 0) with false
      by (symmetry; apply Z.eqb_neq; lia).
    unfold bind at 1. cbn [or_TypeError iter_items ret].
    replace (Z.of_nat (length p) <? perPage) with false
      by (symmetry; apply Z.ltb_ge; unfold perPage; lia).
    destruct (IH (repos ++ p) (page + 1)
                (after_fetch (request_of (page_target endpoint params page) token) d w))
      as (w' & Hrun & Hsent); [done..|].
    exists w'. split; [exact Hrun|].
    rewrite Hsent. cbn [sent after_fetch]. rewrite length_app. simpl. lia.
Qed.

(** X23.  The loop of [fetchAllRepositories] has no bound of its own: on a
    network where every page comes back full (100 items or more), however
    many iterations it is given it has not returned after them, and it has
    sent one request in each. *)
Theorem fetchAllRepositories_unbounded (E : env) (endpoint : string)
    (params : list (string * string)) (w : world) (token : text) :
  stored_pat w = Some token → text_truthy (Some token) = true →
  (∀ history r, ∃ status remaining d p,
     net E history r
     = {| answered := Response status remaining (Some (VArr p)); elapsed := d |} ∧
     response_ok status = true ∧ (100 ≤ length p)%nat) →
  ∀ fuel, ∃ w',
    fetchAllRepositories E fuel endpoint params w = (Diverge, w') ∧
    length (sent w') = (length (sent w) + fuel)%nat.
Proof.
  intros Hpat Htruthy Hnet fuel.
  by apply (fetchAllRepositories_from_full E endpoint params token Hnet).
Qed.

(** Witness of X23: seven iterations, seven requests, no result. *)
Lemma fetchAllRepositories_unbounded_witness :
  ∃ w',
    fetchAllRepositories endless 7 "/user/repos" user_repos_params signed_in
    = (Diverge, w') ∧
    length (sent w') = 7%nat.
Proof.
  destruct (fetchAllRepositories_unbounded endless "/user/repos" user_repos_params
              signed_in (Raw "ghp_token") eq_refl eq_refl) with (fuel := 7%nat)
    as (w' & Hrun & Hsent).
  - intros history r. exists 200, None, 120%N, (page_of 100).
    split; [reflexivity|]. split; [reflexivity|].
    unfold page_of. rewrite length_replicate. lia.
  - exists w'. split; [exact Hrun|exact Hsent].
Defined.

Lemma fetchAllRepositories_from_breaks E endpoint params token history
    (full : list (list value)) :
  ∀ (k : nat) (repos : list value) (w : world) (fuel : nat),
    stored_pat w = Some token → text_truthy (Some token) = true →
    sent w = history ++ (page_request endpoint params token <$> seq 1 k) →
    (∀ i p, full !! i = Some p →
       ∃ status remaining d,
         net E (history ++ (page_request endpoint params token <$> seq 1 (k + i)))
           (page_request endpoint params token (S (k + i)))
         = {| answered := Response status remaining (Some (VArr p)); elapsed := d |} ∧
         response_ok status = true) →
    Forall (λ p, (100 ≤ length p)%nat) full →
    fails_short_of_401
      (answered
         (net E (history ++ (page_request endpoint params token
                               <$> seq 1 (k + length full)))
            (page_request endpoint params token (S (k + length full))))) = true →
    (length full < fuel)%nat →
    ∃ e w',
      fetchAllRepositories_from E fuel endpoint params repos (Z.of_nat (S k)) w
      = (Throw e, w') ∧
      sent w' = history ++ (page_request endpoint params token
                              <$> seq 1 (S (k + length full))).
Proof.
  induction full as [|p full IH];
    intros k repos w fuel Hpat Htruthy Hsent Hnet Hfull Hfails Hfuel.
  - destruct fuel as [|fuel]; [simpl in Hfuel; lia|].
    simpl in Hfails. rewrite Nat.add_0_r, <- Hsent in Hfails.
    destruct (githubAPI_fails E (page_target endpoint params (Z.of_nat (S k))) w
                token Hpat Htruthy Hfails) as [e He].
    exists e. eexists. split.
    + cbn [fetchAllRepositories_from]. unfold bind at 1.
      fold (page_target endpoint params (Z.of_nat (S k))). by rewrite He.
    + unfold after_request. cbn [sent after_fetch].
      rewrite Hsent. simpl length. rewrite Nat.add_0_r, seq_S, fmap_app, app_assoc.
      reflexivity.
  - destruct fuel as [|fuel]; [simpl in Hfuel; lia|].
    destruct (Hnet O p eq_refl) as (status & remaining & d & Hrep & Hok).
    rewrite Nat.add_0_r in Hrep. rewrite <- Hsent in Hrep.
    apply Forall_cons in Hfull as [Hp Hfull'].
    cbn [fetchAllRepositories_from]. unfold bind at 1.
    fold (page_target endpoint params (Z.of_nat (S k))).
    rewrite (githubAPI_success E _ w token status remaining (VArr p) d
               Hpat Htruthy Hrep Hok).
    unfold bind at 1. cbn [or_TypeError length_of ret strict_eq].
    replace (Z.of_nat (length p) =? 0) with false
      by (symmetry; apply Z.eqb_neq; lia).
    unfold bind at 1. cbn [or_TypeError iter_items ret].
    replace (Z.of_nat (length p) <? perPage) with false
      by (symmetry; apply Z.ltb_ge; unfold perPage; lia).
    replace (Z.of_nat (S k) + 1) with (Z.of_nat (S (S k))) by lia.
    destruct (IH (S k) (repos ++ p)
                (after_fetch
                   (request_of (page_target endpoint params (Z.of_nat (S k))) token)
                   d w) fuel) as (e & w' & Hrun & Hsent').
    + by rewrite stored_pat_after_fetch.
    + done.
    + simpl sent. rewrite Hsent, seq_S, fmap_app, app_assoc. reflexivity.
    + intros i q Hq. specialize (Hnet (S i) q Hq).
      by replace (k + S i)%nat with (S k + i)%nat in Hnet by lia.
    + done.
    + simpl length in Hfails.
      by replace (k + S (length full))%nat with (S k + length full)%nat
        in Hfails by lia.
    + simpl in Hfuel. lia.
    + exists e, w'. split; [exact Hrun|].
      rewrite Hsent'. simpl length.
      by replace (S k + length full)%nat with (k + S (length full))%nat by lia.
Qed.

(** X24.  All or nothing.  When the network has served any number of full
    pages and then fails short of a 401 on the request for the next one,
    [fetchAllRepositories] throws: the repositories of the pages already
    received are not returned, and one request was sent for each page
    served and one for the page that failed. *)
Theorem fetchAllRepositories_all_or_nothing (E : env) (endpoint : string)
    (params : list (string * string)) (w : world) (token : text)
    (full : list (list value)) (fuel : nat) :
  stored_pat w = Some token → text_truthy (Some token) = true →
  serves E (sent w) endpoint params token full →
  Forall (λ p, (100 ≤ length p)%nat) full →
  fails_short_of_401
    (answered
       (net E (sent w ++ (page_request endpoint params token
                            <$> seq 1 (length full)))
          (page_request endpoint params token (S (length full))))) = true →
  (length full < fuel)%nat →
  ∃ e w',
    fetchAllRepositories E fuel endpoint params w = (Throw e, w') ∧
    sent w' = sent w ++ (page_request endpoint params token
                           <$> seq 1 (S (length full))).
Proof.
  intros Hpat Htruthy Hserves Hfull Hfails Hfuel.
  apply (fetchAllRepositories_from_breaks E endpoint params token (sent w)
           full O [] w fuel); try done.
  by rewrite app_nil_r.
Qed.

(** Witness of X24: two full pages, then silence. *)
Lemma fetchAllRepositories_all_or_nothing_witness :
  ∃ e w',
    fetchAllRepositories (paging [page_of 100; page_of 100]) 5
      "/user/repos" user_repos_params signed_in = (Throw e, w') ∧
    length (sent w') = 3%nat.
Proof.
  destruct (fetchAllRepositories_all_or_nothing
              (paging [page_of 100; page_of 100])
              "/user/repos" user_repos_params signed_in (Raw "ghp_token")
              [page_of 100; page_of 100] 5 eq_refl eq_refl)
    as (e & w' & Hrun & Hsent).
  - intros i p Hp. exists 200, None, 120%N.
    destruct i as [|[|i]]; simpl in Hp; try discriminate Hp;
      injection Hp as <-; split; reflexivity.
  - repeat constructor; unfold page_of; rewrite length_replicate; lia.
  - reflexivity.
  - simpl. lia.
  - exists e, w'. split; [exact Hrun|]. rewrite Hsent. reflexivity.
Defined.

(** * Further properties of the pages *)

(** ** The authentication page *)

(** X25.  Which tokens [validateScopes] accepts.  A header without scopes
    is refused.  When no scope of the header begins with ["undefined"],
    the header is accepted if and only if [repo] is one of its scopes: the
    path of the individual scopes asks, for the required scope [repo], for
    a scope that is [repo] or that starts with [required.split(':')[1]],
    which is [undefined]; so [read:user] and [read:org] without [repo] are
    refused. *)
Theorem validateScopes_needs_repo (s : string) :
  Forall (λ x, String.prefix "undefined" x = false) (scope_list s) →
  validateScopes None = false ∧
  (validateScopes (Some s) = true ↔ "repo"%string ∈ scope_list s).
Proof.
  intros Hund. split; [reflexivity|].
  unfold validateScopes. fold (scope_list s).
  destruct (String.eqb s "") eqn:Hs.
  { apply String.eqb_eq in Hs. subst s. split; [done|].
    intros Hin. apply list_elem_of_singleton in Hin. discriminate Hin. }
  destruct (existsb (String.eqb "repo") (scope_list s)) eqn:Hex.
  - split; [intros _|done].
    apply existsb_exists in Hex as (x & Hin & Heq).
    apply String.eqb_eq in Heq. subst x. by apply list_elem_of_In.
  - split.
    + intros Hall. cbn [forallb] in Hall.
      apply andb_true_iff in Hall as [Hrepo _].
      apply existsb_exists in Hrepo as (x & Hin & Hm).
      assert (Hx : String.eqb "repo" x = false).
      { destruct (String.eqb "repo" x) eqn:Hx; [|done].
        assert (existsb (String.eqb "repo") (scope_list s) = true)
          by (apply existsb_exists; by exists x).
        congruence. }
      rewrite Forall_forall in Hund. apply list_elem_of_In in Hin.
      specialize (Hund x Hin).
      unfold scope_matches in Hm.
      change (second_part "repo") with (@None string) in Hm.
      cbn [default] in Hm. rewrite String.eqb_sym, Hx, Hund in Hm. done.
    + intros Hin. apply list_elem_of_In in Hin.
      assert (existsb (String.eqb "repo") (scope_list s) = true).
      { apply existsb_exists. exists "repo"%string. split; [done|].
        apply String.eqb_refl. }
      congruence.
Qed.

(** Witness of X25: the scopes the form asks for, without [repo]. *)
Lemma validateScopes_needs_repo_witness :
  validateScopes (Some "read:user, read:org"%string) ≠ true ∧
  validateScopes (Some "repo, read:org"%string) = true.
Proof.
  split.
  - destruct (validateScopes_needs_repo "read:user, read:org") as [_ Hiff].
    + repeat constructor.
    + intros Hyes. apply Hiff in Hyes. vm_compute in Hyes.
      repeat (apply elem_of_cons in Hyes as [Hyes|Hyes]; [discriminate Hyes|]).
      by apply elem_of_nil in Hyes.
  - reflexivity.
Defined.

Lemma validatePAT_cases E oauth pat w :
  ∃ out,
    validatePAT E oauth pat w
    = (out, after_fetch (validation_request pat)
              (elapsed (net E (sent w) (validation_request pat))) w) ∧
    ((∃ o, out = Ret (VObj o)) ∨
     (∃ m, out = Throw (Error m) ∧ m ∈ validation_errors)).
Proof.
  unfold validatePAT, try_catch. unfold bind at 1. cbn beta iota.
  fold (validation_request pat). unfold bind at 1. rewrite fetch_run.
  assert (Hin : ∀ m, In m validation_errors → m ∈ validation_errors)
    by (intros m; apply list_elem_of_In).
  destruct (answered (net E (sent w) (validation_request pat)))
    as [|status remaining body].
  { eexists. split; [reflexivity|]. right. eexists. split; [reflexivity|].
    apply Hin. simpl. tauto. }
  cbn beta iota.
  destruct (response_ok status).
  - destruct body as [userData|].
    + unfold bind at 1. cbn [ret].
      destruct (validateScopes (oauth (sent w) (validation_request pat))); cbn [negb].
      * destruct userData; simpl;
          (eexists; split; [reflexivity|]);
          first [ left; by eexists
                | right; eexists; split; [reflexivity|apply Hin; simpl; tauto] ].
      * eexists. split; [reflexivity|]. right. eexists. split; [reflexivity|].
        apply Hin. simpl. tauto.
    + eexists. split; [reflexivity|]. right. eexists. split; [reflexivity|].
      apply Hin. simpl. tauto.
  - destruct (status =? 401); [|destruct (status =? 403)];
      (eexists; split; [reflexivity|]); right; eexists;
      (split; [reflexivity|apply Hin; simpl; tauto]).
Qed.

(** X26.  [validatePAT] sends one request and touches nothing else; it
    returns an object or throws one of five errors, and never returns a
    falsy value.  So the branch of [checkExistingAuth] that clears an
    invalid token is never taken: whatever GitHub answers, a 401 included,
    the storage areas are after [checkExistingAuth] what they were before,
    and when the call returns with a usable token stored the page has been
    sent to the dashboard. *)
Theorem checkExistingAuth_never_clears (E : env)
    (oauth : list request → request → option string) (w : world) :
  (∀ pat, ∃ out,
     validatePAT E oauth pat w
     = (out, after_fetch (validation_request pat)
               (elapsed (net E (sent w) (validation_request pat))) w) ∧
     ((∃ o, out = Ret (VObj o)) ∨
      (∃ m, out = Throw (Error m) ∧ m ∈ validation_errors))) ∧
  ∃ out w',
    checkExistingAuth E oauth w = (out, w') ∧
    localStorage w' = localStorage w ∧ sessionStorage w' = sessionStorage w ∧
    (text_truthy (stored_pat w) = true → out = Ret tt →
     href w' = "dashboard.html"%string).
Proof.
  split; [intros pat; apply validatePAT_cases|].
  unfold checkExistingAuth. unfold bind at 1. rewrite getStoredPAT_run.
  destruct (stored_pat w) as [pat|] eqn:Hpat.
  - destruct (text_truthy (Some pat)) eqn:Htruthy.
    + destruct (validatePAT_cases E oauth pat w) as (out & Hrun & [[o ->]|[m [-> _]]]).
      * unfold bind. rewrite Hrun. simpl. by eexists _, _.
      * unfold bind. rewrite Hrun. by eexists _, _.
    + by eexists _, _.
  - by eexists _, _.
Qed.

(** ** The selection page *)

Lemma selected_of_filter ids l :
  Forall (λ r, r ≠ VNull) l →
  selected_of ids l = Some (filter (λ r, Set_has ids (id_of r) = true) l).
Proof.
  induction 1 as [|r l Hr _ IH]; [done|].
  cbn [selected_of]. rewrite (prop_id_of r Hr), IH.
  destruct (Set_has ids (id_of r)) eqn:Hhas.
  - by rewrite filter_cons_True.
  - by rewrite filter_cons_False by (by rewrite Hhas).
Qed.

Lemma selection_entry_run r :
  r ≠ VNull → selection_entry r = Some (tracked_entry_of (Some r)).
Proof.
  intros Hr. unfold selection_entry. by rewrite !(prop_not_null r _ Hr).
Qed.

Lemma mapM_selection_entry l :
  Forall (λ r, r ≠ VNull) l →
  mapM selection_entry l = Some ((λ r, tracked_entry_of (Some r)) <$> l).
Proof.
  intros Hnn. apply mapM_Some. induction Hnn as [|r l Hr Hl IH]; simpl.
  - constructor.
  - constructor; [|done]. by apply selection_entry_run.
Qed.

Lemma Forall_filter_ids (Q : js → Prop) (P : value → Prop) `{!∀ r, Decision (P r)} l :
  Forall Q (id_of <$> l) → Forall Q (id_of <$> filter P l).
Proof.
  induction l as [|r l IH]; [done|]. rewrite fmap_cons. intros Hall.
  apply Forall_cons in Hall as [Hr Hl].
  destruct (decide (P r)).
  - rewrite filter_cons_True by done. rewrite fmap_cons. constructor; auto.
  - rewrite filter_cons_False by done. auto.
Qed.

Lemma distinct_ids_filter (P : value → Prop) `{!∀ r, Decision (P r)} l :
  distinct_ids l = true → distinct_ids (filter P l) = true.
Proof.
  unfold distinct_ids. induction l as [|r l IH]; [done|].
  rewrite fmap_cons. intros Hall. apply distinct_cons in Hall as [Hr Hl].
  destruct (decide (P r)).
  - rewrite filter_cons_True by done. rewrite fmap_cons. apply distinct_cons.
    split; [by apply Forall_filter_ids|auto].
  - rewrite filter_cons_False by done. auto.
Qed.

Lemma id_of_tracked_entry_of r : id_of (tracked_entry_of (Some r)) = id_of r.
Proof.
  unfold id_of. rewrite tracked_entry_of_fields. by rewrite decide_True by set_solver.
Qed.

(** X27.  [saveSelection] replaces the tracked list.  With a list of
    repositories none of which is [null], the browser accepting the write:
    the tracked list is afterwards made of one entry for each repository
    whose id is in the selection, in the order of the repositories, and
    the page is sent to the dashboard.  Every entry is stored unpinned and
    with empty notes, so that the pin and the notes of a repository that
    was tracked before are lost.  When the ids of the repositories are
    distinct, so are those of the tracked list. *)
Theorem saveSelection_replaces_tracked_list (E : env) (l : list value)
    (ids : list js) (w : world) :
  Forall (λ r, r ≠ VNull) l →
  accepts E w STORAGE_KEYS_TRACKED_REPOS (JSON_stringify (VArr (selection_of ids l))) →
  ∃ w',
    saveSelection E (Some (VArr l)) ids w = (Ret tt, w') ∧
    getTrackedRepos w' = (Ret (VArr (selection_of ids l)), w') ∧
    href w' = "dashboard.html"%string ∧
    (∀ x, x ∈ selection_of ids l →
       own_props (Some x) !! "pinned" = Some (VBool false) ∧
       own_props (Some x) !! "notes" = Some (VStr "")) ∧
    (distinct_ids l = true → tracked_distinct w').
Proof.
  intros Hnn Hacc.
  assert (Hrun : saveSelection E (Some (VArr l)) ids w
    = (Ret tt, (set_href "dashboard.html"
                  (written w STORAGE_KEYS_TRACKED_REPOS
                     (JSON_stringify (VArr (selection_of ids l))))).2)).
  { unfold saveSelection. unfold bind at 1. cbn [option_bind mbind as_array or_TypeError ret].
    unfold bind at 1. rewrite (selected_of_filter ids l Hnn). cbn [or_TypeError ret].
    unfold bind at 1. rewrite mapM_selection_entry.
    - cbn [or_TypeError ret]. fold (selection_of ids l). unfold bind.
      unfold setTrackedRepos. by rewrite (safeSetItem_accepted E _ _ w Hacc).
    - apply Forall_forall. intros r Hr. apply list_elem_of_filter in Hr as [_ Hr].
      by apply (proj1 (Forall_forall _ _) Hnn). }
  eexists. split; [exact Hrun|].
  set (w1 := written w STORAGE_KEYS_TRACKED_REPOS
               (JSON_stringify (VArr (selection_of ids l)))).
  assert (Htracked : tracked_of (set_href "dashboard.html" w1).2
                     = VArr (selection_of ids l)).
  { change (tracked_of (set_href "dashboard.html" w1).2) with (tracked_of w1).
    apply tracked_of_written. }
  split; [|split; [reflexivity|split]].
  - by rewrite getTrackedRepos_run, Htracked.
  - intros x Hx. unfold selection_of in Hx.
    apply list_elem_of_fmap in Hx as (r & -> & _).
    split; by rewrite tracked_entry_of_fields.
  - intros Hd l' Hl'. rewrite Htracked in Hl'. injection Hl' as <-.
    unfold selection_of, distinct_ids. rewrite <- list_fmap_compose.
    rewrite (list_fmap_ext _ id_of _ (λ _ r _, id_of_tracked_entry_of r)).
    by apply distinct_ids_filter.
Qed.

(** Witness of X27: of two repositories the second is selected. *)
Lemma saveSelection_replaces_tracked_list_witness :
  ∃ w',
    saveSelection roomy (Some (VArr [repo_stub 1 "A"; repo_stub 2 "B"]))
      [Some (VNum 2)] tracking_two = (Ret tt, w') ∧
    getTrackedRepos w'
    = (Ret (VArr [tracked_entry_of (Some (repo_stub 2 "B"))]), w').
Proof.
  destruct (saveSelection_replaces_tracked_list roomy
              [repo_stub 1 "A"; repo_stub 2 "B"] [Some (VNum 2)] tracking_two)
    as (w' & Hrun & Hread & _).
  - repeat constructor; discriminate.
  - reflexivity.
  - exists w'. split; [exact Hrun|exact Hread].
Defined.

Lemma ltb_div (n a c : Z) : 0 < c → (n <? a / c) = ((n + 1) * c <=? a).
Proof.
  intros Hc. destruct (Z.leb_spec ((n + 1) * c) a) as [H|H].
  - apply Z.ltb_lt.
    assert (n + 1 ≤ a / c) by (apply Z.div_le_lower_bound; lia). lia.
  - apply Z.ltb_ge.
    assert (a / c < n + 1) by (apply Z.div_lt_upper_bound; lia). lia.
Qed.

(** X28.  [getRelativeTime] by the age of the date in milliseconds (the
    nested roundings collapse): under one minute, which includes every
    date in the future, the text is [just now]; then whole minutes up to
    an hour, whole hours up to a day, whole days up to 31 days; from 31
    days on, the date as the browser prints it. *)
Theorem getRelativeTime_by_age (toLocaleDateString : Z → string) (date : Z)
    (w : world) :
  getRelativeTime toLocaleDateString date w
  = (Ret (let age := clock w - date in
          if 31 * 86400000 <=? age then toLocaleDateString date
          else if 86400000 <=? age then pretty (age / 86400000) +:+ "d ago"
          else if 3600000 <=? age then pretty (age / 3600000) +:+ "h ago"
          else if 60000 <=? age then pretty (age / 60000) +:+ "m ago"
          else "just now"%string), w).
Proof.
  unfold getRelativeTime, bind, Date_now. cbn zeta.
  set (age := clock w - date).
  assert (Hm : age / 1000 / 60 = age / 60000) by (rewrite Z.div_div by lia; done).
  assert (Hh : age / 1000 / 60 / 60 = age / 3600000)
    by (rewrite !Z.div_div by lia; done).
  assert (Hd : age / 1000 / 60 / 60 / 24 = age / 86400000)
    by (rewrite !Z.div_div by lia; done).
  rewrite Hd, Hh, Hm. rewrite !ltb_div by lia.
  change ((30 + 1) * 86400000) with (31 * 86400000).
  change ((0 + 1) * 86400000) with 86400000.
  change ((0 + 1) * 3600000) with 3600000.
  change ((0 + 1) * 60000) with 60000.
  destruct (31 * 86400000 <=? age); [done|].
  destruct (86400000 <=? age); [done|].
  destruct (3600000 <=? age); [done|].
  by destruct (60000 <=? age).
Qed.

(** * Further properties of the fetch layer, continued *)

(** ** Looking up one repository or one organization *)

Lemma find_by_find k l x :
  Forall (λ r, r ≠ VNull) l →
  find_by k l x = Some (List.find (λ r, strict_eq (own_props (Some r) !! k) x) l).
Proof.
  induction 1 as [|r l Hr _ IH]; [done|].
  cbn [find_by List.find]. rewrite (prop_not_null r k Hr).
  by destruct (strict_eq (own_props (Some r) !! k) x).
Qed.

Lemma or_null_find k l x :
  or_null (List.find (λ r, strict_eq (own_props (Some r) !! k) x) l)
  = first_with k x l.
Proof. unfold or_null, first_with. by destruct (List.find _ l). Qed.

(** X29.  The three lookups of the fetch layer synchronize first, without
    forcing a refresh, and then search the list they got: when the
    synchronizer returns a list none of whose elements is [null], the
    lookup returns the first element whose [id] (or [full_name], or
    [login]) is strictly equal to the argument, and [null] when there is
    none, in the world the synchronizer left; when the synchronizer
    throws, so does the lookup. *)
Theorem lookups_return_first_match (E : env) (fuel : nat) (x : js) (w : world) :
  (∀ l w',
     initRepositories E fuel false w = (Ret (Some (VArr l)), w') →
     Forall (λ r, r ≠ VNull) l →
     getRepositoryById E fuel x w = (Ret (first_with "id" x l), w') ∧
     getRepositoryByFullName E fuel x w = (Ret (first_with "full_name" x l), w')) ∧
  (∀ l w',
     initOrganizations E false w = (Ret (VArr l), w') →
     Forall (λ r, r ≠ VNull) l →
     getOrganizationByLogin E x w = (Ret (first_with "login" x l), w')) ∧
  (∀ e w',
     initRepositories E fuel false w = (Throw e, w') →
     getRepositoryById E fuel x w = (Throw e, w') ∧
     getRepositoryByFullName E fuel x w = (Throw e, w')) ∧
  (∀ e w',
     initOrganizations E false w = (Throw e, w') →
     getOrganizationByLogin E x w = (Throw e, w')).
Proof.
  split; [|split; [|split]].
  - intros l w' Hsync Hnn.
    unfold getRepositoryById, getRepositoryByFullName, bind. rewrite Hsync.
    cbn [mbind option_bind as_array or_TypeError ret].
    rewrite !(find_by_find _ l x Hnn). cbn [or_TypeError ret].
    by rewrite !or_null_find.
  - intros l w' Hsync Hnn.
    unfold getOrganizationByLogin, bind. rewrite Hsync.
    cbn [as_array or_TypeError ret].
    rewrite (find_by_find _ l x Hnn). cbn [or_TypeError ret].
    by rewrite or_null_find.
  - intros e w' Hsync.
    unfold getRepositoryById, getRepositoryByFullName, bind. by rewrite Hsync.
  - intros e w' Hsync. unfold getOrganizationByLogin, bind. by rewrite Hsync.
Qed.

(** ** The shape of a repository *)

Lemma own_props_VObj o : own_props (Some (VObj o)) = o.
Proof. reflexivity. Qed.

(** X30.  [repository_of], the mapping both repository fetchers apply to
    what the API sends: it fails (a [TypeError], which makes the fetch
    fail) exactly on a repository that is [null] or whose [owner] is
    [null] or missing; otherwise the result keeps the [id] of the
    repository, its [owner_type] is the [type] of the owner, and its
    [description] is never missing (a falsy one becomes the empty
    string). *)
Theorem repository_of_defined (repo : value) :
  (repository_of repo = None
   ↔ repo = VNull ∨ is_nullish (own_props (Some repo) !! "owner") = true) ∧
  (∀ r, repository_of repo = Some r →
     id_of r = id_of repo ∧
     own_props (Some r) !! "owner_type"
     = own_props (own_props (Some repo) !! "owner") !! "type" ∧
     own_props (Some r) !! "description"
     = js_or (own_props (Some repo) !! "description") (Some (VStr "")) ∧
     is_Some (own_props (Some r) !! "description")).
Proof.
  assert (Hcase : repo = VNull ∨ repo ≠ VNull)
    by (destruct repo; first [by left|by right]).
  destruct Hcase as [->|Hr].
  { split; [split; [by left|done]|]. intros r Hrun. discriminate Hrun. }
  unfold repository_of. rewrite !(prop_not_null repo _ Hr). cbn [mbind option_bind].
  set (owner := own_props (Some repo) !! "owner").
  unfold prop.
  destruct (is_nullish owner) eqn:Hown; cbn [mbind option_bind].
  { split; [split; [by right|done]|]. intros r Hrun. discriminate Hrun. }
  split.
  { split; [done|]. intros [?|?]; done. }
  intros r Hrun. apply (inj Some) in Hrun. subst r. unfold id_of.
  set (rid := own_props (Some repo) !! "id").
  set (ty := own_props owner !! "type").
  set (desc := own_props (Some repo) !! "description").
  rewrite !own_props_VObj.
  assert (Hdesc : ∃ d, js_or desc (Some (VStr "")) = Some d).
  { unfold js_or. destruct desc as [d|]; [|by eexists].
    destruct (truthy (Some d)); by eexists. }
  destruct Hdesc as [d Hd]. clearbody rid ty desc.
  split; [|split; [|split]].
  - obj_of_lookup. destruct rid; [done|]. by obj_of_lookup.
  - obj_of_lookup. destruct ty; [done|]. by obj_of_lookup.
  - obj_of_lookup. by rewrite Hd.
  - obj_of_lookup. rewrite Hd. by eexists.
Qed.
